(** * solana-ui: wallet dashboard, verified fragments

  A shallow embedding of the throttling, signing, validation, wizard and
  wallet-store code of the dashboard:

  - [src/utils/moonbuy.ts]: [checkRateLimit], [completeBundleSigning],
    [executeMoonBuy], [validateMoonBuyInputs];
  - the custom-buy modal: [signTransactions], [sendSignedTransactions],
    [handleNext], [handleBack];
  - [src/App.tsx]: [handleImportWallet], [importWalletsSequentially],
    [handleDeleteWallet].

  JavaScript numbers that hold millisecond timestamps and counters are
  integers and are modelled in [Z]; numbers that hold balances and amounts
  are IEEE doubles and are modelled by [spec_float].  A [Map] or a record
  object used as a map is a [gmap].  Exceptions are an error monad, and code
  that awaits runs in a state-and-error monad over an explicit world that
  holds the module state, the environment's answers and the event trace. *)

From Stdlib Require Import ZArith List Lia Bool Ascii String SpecFloat.
From stdpp Require Import base option list gmap strings fin_maps.

Open Scope string_scope.
Open Scope list_scope.
Open Scope Z_scope.

Set Warnings "-register-all".

(* ===================================================================== *)
(** ** JavaScript basics *)
(* ===================================================================== *)

Module Js.

(** A thrown [Error]; only its [message] is ever read by the code. *)
Record Error := mkError { message : string }.

(** The outcome of evaluating an expression that may throw. *)
Inductive result (A : Type) : Type :=
| Ok (a : A)
| Throw (e : Error).
Arguments Ok {A} a.
Arguments Throw {A} e.

Definition rbind {A B} (r : result A) (k : A -> result B) : result B :=
  match r with
  | Ok a => k a
  | Throw e => Throw e
  end.

(** [xs.map(f)] where [f] may throw: left to right, the first throw ends
    the whole call. *)
Fixpoint mapR {A B} (f : A -> result B) (xs : list A) : result (list B) :=
  match xs with
  | [] => Ok []
  | x :: rest =>
      rbind (f x) (fun y => rbind (mapR f rest) (fun ys => Ok (y :: ys)))
  end.

(** [xs.map((x, i) => f(i, x))], counting from [i]. *)
Fixpoint mapiR {A B} (f : nat -> A -> result B) (i : nat) (xs : list A)
  : result (list B) :=
  match xs with
  | [] => Ok []
  | x :: rest =>
      rbind (f i x) (fun y => rbind (mapiR f (S i) rest) (fun ys => Ok (y :: ys)))
  end.

(** Numbers that are doubles. *)
Abbreviation number := spec_float.

Definition NaN : number := S754_nan.
Definition zero : number := S754_zero false.
(** [1.0], in canonical binary64 form. *)
Definition one : number := S754_finite false 4503599627370496 (-52).

Definition isNaN (x : number) : bool :=
  match x with S754_nan => true | _ => false end.

(** ToBoolean on a number: [0], [-0] and [NaN] are falsy. *)
Definition truthy_number (x : number) : bool :=
  match x with
  | S754_zero _ | S754_nan => false
  | _ => true
  end.

(** [x < y] and [x <= y]; false as soon as one side is [NaN]. *)
Definition lt (x y : number) : bool := SFltb x y.
Definition le (x y : number) : bool := SFleb x y.

(** Runtime values, as far as the code inspects them. *)
Inductive value : Type :=
| VUndefined
| VNull
| VBool (b : bool)
| VNumber (x : number)
| VString (s : string)
| VArray (elems : list value)
| VObject (props : list (string * value)).

Definition isArray (v : value) : bool :=
  match v with VArray _ => true | _ => false end.

(** ToBoolean. *)
Definition truthy (v : value) : bool :=
  match v with
  | VUndefined | VNull => false
  | VBool b => b
  | VNumber x => truthy_number x
  | VString s => negb (String.eqb s "")
  | VArray _ | VObject _ => true
  end.

Fixpoint assoc (k : string) (props : list (string * value)) : value :=
  match props with
  | [] => VUndefined
  | (k', v) :: rest => if String.eqb k k' then v else assoc k rest
  end.

(** [v.name] for a name that is no built-in property: a [TypeError] on
    [null] and [undefined], the own property of an object, and [undefined]
    on the primitives and on arrays. *)
Definition getProp (name : string) (v : value) : result value :=
  match v with
  | VUndefined | VNull =>
      Throw (mkError "Cannot read properties of null or undefined")
  | VObject props => Ok (assoc name props)
  | _ => Ok VUndefined
  end.

Definition get_transactions (v : value) : result value :=
  getProp "transactions" v.

End Js.

Import Js.

(* ===================================================================== *)
(** ** The rate limiter of [moonbuy.ts] *)
(* ===================================================================== *)

Module RateLimit.

Definition MAX_BUNDLES_PER_SECOND : Z := 2.

Record rateLimitState := mkRateLimitState {
  count : Z;
  lastReset : Z;
  maxBundlesPerSecond : Z
}.

(** The module-level object, created when the module is loaded at time
    [loaded]. *)
Definition initial (loaded : Z) : rateLimitState :=
  mkRateLimitState 0 loaded MAX_BUNDLES_PER_SECOND.

(** One call of [checkRateLimit].  [now] is what [Date.now()] returns on
    entry and [woke] what it returns after the timer has fired.  The
    result is the state on return and the delay handed to [setTimeout],
    if the call slept. *)
Definition checkRateLimit (now woke : Z) (s : rateLimitState)
  : rateLimitState * option Z :=
  let s1 :=
    if (now - lastReset s >=? 1000)
    then mkRateLimitState 0 now (maxBundlesPerSecond s)
    else s in
  let '(s2, slept) :=
    if (count s1 >=? maxBundlesPerSecond s1)
    then
      let waitTime := 1000 - (now - lastReset s1) in
      (mkRateLimitState 0 woke (maxBundlesPerSecond s1), Some waitTime)
    else (s1, None) in
  (mkRateLimitState (count s2 + 1) (lastReset s2) (maxBundlesPerSecond s2), slept).

(** The algorithm in the words of the specification: the window is reset
    when _more than_ one second has elapsed; _instead_, at the cap, the call
    sleeps for the remainder; the count is incremented in every case. *)
Definition checkRateLimit_as_specified (now woke : Z) (s : rateLimitState)
  : rateLimitState * option Z :=
  if (now - lastReset s >? 1000)
  then (mkRateLimitState 1 now (maxBundlesPerSecond s), None)
  else if (count s >=? maxBundlesPerSecond s)
  then (mkRateLimitState 1 woke (maxBundlesPerSecond s),
        Some (1000 - (now - lastReset s)))
  else (mkRateLimitState (count s + 1) (lastReset s) (maxBundlesPerSecond s), None).

(** A call as the environment sees it: the two clock readings. *)
Definition call := (Z * Z)%type.

(** The time at which a call returns, which is when its caller goes on to
    submit: [woke] if it slept, [now] otherwise. *)
Definition returned_at (c : call) (slept : option Z) : Z :=
  match slept with
  | Some _ => snd c
  | None => fst c
  end.

(** Whether a call opened a new window (either branch that assigns
    [lastReset]). *)
Definition opened_window (now : Z) (s : rateLimitState) (slept : option Z) : bool :=
  (now - lastReset s >=? 1000) || bool_decide (is_Some slept).

(** One entry of the log of a run, per call that has returned: the time
    of its return, the window it was counted in, and the start of that
    window ([lastReset] on return). *)
Record entry := mkEntry {
  at_time : Z;
  in_window : nat;
  window_start : Z
}.

(** A ghost view of a run: the state, the number of windows opened so
    far, and the log. *)
Record run_state := mkRun {
  limiter : rateLimitState;
  window : nat;
  passed : list entry
}.

Definition start (loaded : Z) : run_state := mkRun (initial loaded) 0 [].

Definition run_call (r : run_state) (c : call) : run_state :=
  let '(s', slept) := checkRateLimit (fst c) (snd c) (limiter r) in
  let w := if opened_window (fst c) (limiter r) slept
           then S (window r) else window r in
  mkRun s' w (passed r ++ [mkEntry (returned_at c slept) w (lastReset s')]).

Definition run (calls : list call) (r : run_state) : run_state :=
  fold_left run_call calls r.

(** How many calls of the log were counted in window [w]. *)
Definition passed_in_window (w : nat) (log : list entry) : nat :=
  length (List.filter (fun p => Nat.eqb (in_window p) w) log).

(** How many calls of the log returned in the interval [[t, t + 1000)]. *)
Definition passed_in_second (t : Z) (log : list entry) : nat :=
  length (List.filter (fun p => (t <=? at_time p) && (at_time p <? t + 1000)) log).

(** What holds of every run from [start]: the counter is the number of
    calls counted in the current window, no window has counted more than
    the cap, and no later window has been counted in yet. *)
Definition run_invariant (r : run_state) : Prop :=
  maxBundlesPerSecond (limiter r) = MAX_BUNDLES_PER_SECOND
  /\ 0 <= count (limiter r) <= MAX_BUNDLES_PER_SECOND
  /\ count (limiter r) = Z.of_nat (passed_in_window (window r) (passed r))
  /\ (forall w, (passed_in_window w (passed r) <= 2)%nat)
  /\ (forall w, (window r < w)%nat -> passed_in_window w (passed r) = 0%nat).

(** What holds of the log: a call counted in a window returned less than
    one second after the start of the window, and the calls of one window
    agree on its start. *)
Definition log_invariant (r : run_state) : Prop :=
  (forall e, In e (passed r) -> at_time e - window_start e < 1000)
  /\ (forall e, In e (passed r) -> (in_window e <= window r)%nat)
  /\ (forall e, In e (passed r) -> in_window e = window r ->
                window_start e = lastReset (limiter r))
  /\ (forall e1 e2, In e1 (passed r) -> In e2 (passed r) ->
                    in_window e1 = in_window e2 ->
                    window_start e1 = window_start e2).

End RateLimit.

(* ===================================================================== *)
(** ** The SDK and the environment *)
(* ===================================================================== *)

Module Sdk.

Definition bytes := list Byte.byte.

(** A [Keypair] object.  [ref] is the identity of the object (two calls of
    [Keypair.fromSecretKey] give two objects, also on the same key);
    [publicKey] is [kp.publicKey.toBase58()]. *)
Record Keypair := mkKeypair {
  ref : nat;
  publicKey : string;
  secretKey : bytes
}.

(** The calls into [bs58] and [@solana/web3.js].  Each may throw where the
    library does.  [sign] mutates the transaction in JavaScript and returns
    the signed transaction here. *)
Class Library := {
  Transaction : Type;
  bs58_decode : value -> result bytes;
  bs58_encode : bytes -> string;
  deserialize : bytes -> result Transaction;
  staticAccountKeys : Transaction -> list string;
  sign : Transaction -> list Keypair -> result Transaction;
  serialize : Transaction -> result bytes;
  fromSecretKey : bytes -> result string;
  (** the conversion of a value to a string, as [new Error(v)] applies it *)
  ToString : value -> string
}.

(** What the outside world answers during one run. *)
Record Response := mkResponse {
  ok : bool;
  (** [response.status] as it prints in a template string *)
  status : string;
  (** what [response.json()] resolves to, or what it throws *)
  json : result value
}.

Record Environment := mkEnvironment {
  (** the [k]-th reading of [Date.now()] *)
  clockAt : nat -> Z;
  (** the response to the request to [/api/tokens/buy], or what [fetch]
      threw *)
  buyResponse : result Response;
  (** the outcome of the [k]-th [sendBundle]: [data.result], or what
      [fetch], [response.json()] or the property read threw *)
  sendAnswer : nat -> list string -> result value;
  (** [window.tradingServerUrl] *)
  tradingServerUrl : option string;
  (** the response to the [k]-th request of the custom-buy modal to
      [/api/transactions/send], or what [fetch] threw *)
  sendResponse : nat -> list string -> result Response;
  (** the order in which [n] requests in flight settle *)
  settleOrder : nat -> list nat
}.

End Sdk.

Import Sdk.

(* ===================================================================== *)
(** ** Signing, as both [completeBundleSigning] and [signTransactions] do it *)
(* ===================================================================== *)

Module Signing.

(** [signers.includes(kp)]: identity of objects. *)
Definition includes (kp : Keypair) (signers : list Keypair) : bool :=
  existsb (fun s => Nat.eqb (ref s) (ref kp)) signers.

(** The loop over [transaction.message.staticAccountKeys]; [signers] is the
    array being filled. *)
Fixpoint collectSigners (walletKeypairs : list Keypair)
    (accountKeys : list string) (signers : list Keypair) : list Keypair :=
  match accountKeys with
  | [] => signers
  | pubkeyStr :: rest =>
      let matchingKeypair :=
        List.find (fun kp => String.eqb (publicKey kp) pubkeyStr) walletKeypairs in
      match matchingKeypair with
      | Some kp =>
          if negb (includes kp signers)
          then collectSigners walletKeypairs rest (signers ++ [kp])
          else collectSigners walletKeypairs rest signers
      | None => collectSigners walletKeypairs rest signers
      end
  end.

Definition requiredSigners `{Library} (transaction : Transaction)
    (walletKeypairs : list Keypair) : list Keypair :=
  collectSigners walletKeypairs (staticAccountKeys transaction) [].

(** The callback of [bundle.transactions.map]. *)
Definition signOne `{Library} (walletKeypairs : list Keypair) (txBase58 : value)
  : result string :=
  rbind (bs58_decode txBase58) (fun txBuffer =>
  rbind (deserialize txBuffer) (fun transaction =>
  let signers := requiredSigners transaction walletKeypairs in
  rbind (sign transaction signers) (fun signed =>
  rbind (serialize signed) (fun raw =>
  Ok (bs58_encode raw))))).

(** [{ transactions: string[] }], the shape both functions return. *)
Record Bundle := mkBundle { transactions : list string }.

(** [privateKeys.map(k => Keypair.fromSecretKey(bs58.decode(k)))]: the
    [i]-th call allocates object [i]. *)
Definition makeKeypairs `{Library} (privateKeys : list string)
  : result (list Keypair) :=
  mapiR (fun i privateKey =>
           rbind (bs58_decode (VString privateKey)) (fun secret =>
           rbind (fromSecretKey secret) (fun pub =>
           Ok (mkKeypair i pub secret))))
        0%nat privateKeys.

(** [completeBundleSigning] of [moonbuy.ts]. *)
Definition completeBundleSigning `{Library} (bundle : value)
    (walletKeypairs : list Keypair) : result Bundle :=
  rbind (get_transactions bundle) (fun txs =>
  if negb (truthy txs) || negb (isArray txs)
  then Ok (mkBundle [])
  else
    match txs with
    | VArray elems =>
        rbind (mapR (signOne walletKeypairs) elems) (fun signedTransactions =>
        Ok (mkBundle signedTransactions))
    | _ => Ok (mkBundle [])
    end).

(** [signTransactions] of the custom-buy modal: the same, after building
    the keypairs from the private keys. *)
Definition signTransactions `{Library} (bundle : value)
    (privateKeys : list string) : result Bundle :=
  rbind (get_transactions bundle) (fun txs =>
  if negb (truthy txs) || negb (isArray txs)
  then Ok (mkBundle [])
  else
    rbind (makeKeypairs privateKeys) (fun walletKeypairs =>
    match txs with
    | VArray elems =>
        rbind (mapR (signOne walletKeypairs) elems) (fun signedTransactions =>
        Ok (mkBundle signedTransactions))
    | _ => Ok (mkBundle [])
    end)).

End Signing.

Import Signing.

(* ===================================================================== *)
(** ** Code that awaits: world, events, monad *)
(* ===================================================================== *)

Module Async.

(** What an observer of a run sees, in order. *)
Inductive event :=
| EvRateLimit                                (* [checkRateLimit] entered *)
| EvTimer (ms : Z)                           (* [setTimeout(resolve, ms)] awaited *)
| EvSendStart (txs : list string)            (* request to [/api/transactions/send] issued *)
| EvSendEnd (txs : list string) (fine : bool). (* that request settled *)

Record World := mkWorld {
  limiter : RateLimit.rateLimitState;
  reads : nat;          (* readings of the clock so far *)
  sends : nat;          (* requests to [/api/transactions/send] so far *)
  trace : list event
}.

Definition M (A : Type) : Type := World -> World * result A.

Definition ret {A} (a : A) : M A := fun w => (w, Ok a).

Definition bind {A B} (m : M A) (k : A -> M B) : M B :=
  fun w =>
    match m w with
    | (w', Ok a) => k a w'
    | (w', Throw e) => (w', Throw e)
    end.

Definition lift {A} (r : result A) : M A := fun w => (w, r).

(** [try { body } catch (error) { handler(error) }] *)
Definition try_catch {A} (body : M A) (handler : Error -> M A) : M A :=
  fun w =>
    match body w with
    | (w', Ok a) => (w', Ok a)
    | (w', Throw e) => handler e w'
    end.

Definition emit (evs : list event) : M unit :=
  fun w => (mkWorld (limiter w) (reads w) (sends w) (trace w ++ evs), Ok tt).

(** [await new Promise(resolve => setTimeout(resolve, ms))] *)
Definition sleep (ms : Z) : M unit := emit [EvTimer ms].

Definition is_ok {A} (r : result A) : bool :=
  match r with Ok _ => true | Throw _ => false end.

End Async.

Import Async.

Notation "x <- m ;; k" := (bind m (fun x => k))
  (at level 100, m at next level, right associativity).
Notation "m ;;; k" := (bind m (fun _ => k))
  (at level 100, right associativity).

(* ===================================================================== *)
(** ** [moonbuy.ts] *)
(* ===================================================================== *)

Module MoonBuy.

Record WalletMoonBuy := mkWalletMoonBuy {
  address : string;
  privateKey : string
}.

Record TokenConfig := mkTokenConfig {
  tokenAddress : string;
  solAmount : number
}.

Section WithEnvironment.
Context `{Library} (env : Environment).

(** [checkRateLimit] run in the world: the clock is read once on entry
    and once more after the timer, if the call sleeps. *)
Definition checkRateLimit : M unit :=
  fun w =>
    let now := clockAt env (reads w) in
    let woke := clockAt env (S (reads w)) in
    let '(s', slept) := RateLimit.checkRateLimit now woke (limiter w) in
    match slept with
    | Some waitTime =>
        (mkWorld s' (S (S (reads w))) (sends w)
                 (trace w ++ [EvRateLimit; EvTimer waitTime]), Ok tt)
    | None =>
        (mkWorld s' (S (reads w)) (sends w) (trace w ++ [EvRateLimit]), Ok tt)
    end.

(** [sendBundle]: one request; whatever it throws is logged and rethrown. *)
Definition sendBundle (encodedBundle : list string) : M value :=
  fun w =>
    let answer := sendAnswer env (sends w) encodedBundle in
    (mkWorld (limiter w) (reads w) (S (sends w))
             (trace w ++ [EvSendStart encodedBundle;
                          EvSendEnd encodedBundle (is_ok answer)]),
     answer).

(** The unwrapping of the answer in [getPartiallyPreparedTransactions]:
    [data.bundles] with every plain array wrapped, else [data.transactions]
    as one bundle, else [data] itself when it is an array. *)
Definition wrapBundle (bundle : value) : value :=
  if isArray bundle then VObject [("transactions", bundle)] else bundle.

Definition unwrapAnswer (data : value) : result (list value) :=
  rbind (getProp "success" data) (fun success =>
  if negb (truthy success)
  then
    rbind (getProp "error" data) (fun error =>
    Throw (mkError (if truthy error then ToString error
                    else "Failed to get partially prepared transactions")))
  else
    rbind (getProp "bundles" data) (fun bundles =>
    match bundles with
    | VArray elems => Ok (map wrapBundle elems)
    | _ =>
        rbind (getProp "transactions" data) (fun transactions =>
        if truthy transactions && isArray transactions
        then Ok [VObject [("transactions", transactions)]]
        else if isArray data
        then Ok [VObject [("transactions", data)]]
        else Throw (mkError "No transactions returned from backend"))
    end)).

(** What [getPartiallyPreparedTransactions] resolves to. *)
Definition fetchedBundles : result (list value) :=
  rbind (buyResponse env) (fun response =>
  if negb (ok response)
  then Throw (mkError ("HTTP error! Status: " ++ status response)%string)
  else rbind (json response) unwrapAnswer).

Definition getPartiallyPreparedTransactions (walletAddresses : list string)
    (tokenConfig : TokenConfig) (amounts : option (list number))
  : M (list value) :=
  lift fetchedBundles.

(** The [for] loop of step 4.  [n] is [signedBundles.length], [i] the
    loop index, [rest] the bundles from index [i] on, [results] the array
    pushed to. *)
Fixpoint sendLoop (n : Z) (i : Z) (rest : list Bundle) (results : list value)
  : M (list value) :=
  match rest with
  | [] => ret results
  | bundle :: rest' =>
      checkRateLimit ;;;
      result <- sendBundle (transactions bundle) ;;
      (if (i <? n - 1) then sleep 500 else ret tt) ;;;
      sendLoop n (i + 1) rest' (results ++ [result])
  end.

Record Outcome := mkOutcome {
  success : bool;
  result : option (list value);
  error : option string
}.

Definition executeMoonBuy_try (wallets : list WalletMoonBuy)
    (tokenConfig : TokenConfig) (customAmounts : option (list number))
  : M Outcome :=
  let walletAddresses := map address wallets in
  partiallyPreparedBundles <-
    getPartiallyPreparedTransactions walletAddresses tokenConfig customAmounts ;;
  walletKeypairs <- lift (makeKeypairs (map privateKey wallets)) ;;
  signedBundles <-
    lift (mapR (fun bundle => completeBundleSigning bundle walletKeypairs)
               partiallyPreparedBundles) ;;
  results <- sendLoop (Z.of_nat (length signedBundles)) 0 signedBundles [] ;;
  ret (mkOutcome true (Some results) None).

Definition executeMoonBuy (wallets : list WalletMoonBuy)
    (tokenConfig : TokenConfig) (customAmounts : option (list number))
  : M Outcome :=
  try_catch (executeMoonBuy_try wallets tokenConfig customAmounts)
            (fun error => ret (mkOutcome false None (Some (message error)))).

End WithEnvironment.

(** *** Validation *)

Record Validation := mkValidation {
  valid : bool;
  reason : option string
}.

(** [walletBalances.get(address) || 0] *)
Definition balanceOf (walletBalances : gmap string number) (a : string) : number :=
  match walletBalances !! a with
  | Some b => if truthy_number b then b else zero
  | None => zero
  end.

(** The [for ... of] loop over the wallets. *)
Fixpoint validateWallets (wallets : list WalletMoonBuy) (tokenConfig : TokenConfig)
    (walletBalances : gmap string number) : Validation :=
  match wallets with
  | [] => mkValidation true None
  | wallet :: rest =>
      if String.eqb (address wallet) "" || String.eqb (privateKey wallet) ""
      then mkValidation false (Some "Invalid wallet data")
      else
        let balance := balanceOf walletBalances (address wallet) in
        if lt balance (solAmount tokenConfig)
        then mkValidation false
               (Some ("Wallet " ++ String.substring 0 6 (address wallet)
                      ++ "... has insufficient balance")%string)
        else validateWallets rest tokenConfig walletBalances
  end.

Definition validateMoonBuyInputs (wallets : list WalletMoonBuy)
    (tokenConfig : TokenConfig) (walletBalances : gmap string number)
  : Validation :=
  if String.eqb (tokenAddress tokenConfig) ""
  then mkValidation false (Some "Invalid token address")
  else if isNaN (solAmount tokenConfig) || le (solAmount tokenConfig) zero
  then mkValidation false (Some "Invalid SOL amount")
  else if Nat.eqb (length wallets) 0
  then mkValidation false (Some "No wallets provided")
  else validateWallets wallets tokenConfig walletBalances.

(** The conditions of the specification, word for word: the balance is
    taken as [0] when the address is absent from the map, and only then. *)
Definition balance_as_specified (walletBalances : gmap string number) (a : string)
  : number :=
  match walletBalances !! a with
  | Some b => b
  | None => zero
  end.

Definition rejected_as_specified (wallets : list WalletMoonBuy)
    (tokenConfig : TokenConfig) (walletBalances : gmap string number) : Prop :=
  tokenAddress tokenConfig = ""
  \/ isNaN (solAmount tokenConfig) = true
  \/ le (solAmount tokenConfig) zero = true
  \/ wallets = []
  \/ exists wallet, In wallet wallets /\
       (address wallet = "" \/ privateKey wallet = ""
        \/ lt (balance_as_specified walletBalances (address wallet))
              (solAmount tokenConfig) = true).

(** The same with the balance as the code reads it. *)
Definition rejected (wallets : list WalletMoonBuy)
    (tokenConfig : TokenConfig) (walletBalances : gmap string number) : Prop :=
  tokenAddress tokenConfig = ""
  \/ isNaN (solAmount tokenConfig) = true
  \/ le (solAmount tokenConfig) zero = true
  \/ wallets = []
  \/ exists wallet, In wallet wallets /\
       (address wallet = "" \/ privateKey wallet = ""
        \/ lt (balanceOf walletBalances (address wallet))
              (solAmount tokenConfig) = true).

End MoonBuy.

(* ===================================================================== *)
(** ** [parseFloat] *)
(* ===================================================================== *)

Module ParseFloat.

(** Strings are sequences of ASCII characters here; the white space
    skipped is the ASCII part of [StrWhiteSpaceChar]. *)
Definition isWhiteSpace (c : ascii) : bool :=
  let n := Z.of_N (N_of_ascii c) in
  (n =? 9) || (n =? 10) || (n =? 11) || (n =? 12) || (n =? 13) || (n =? 32).

Definition isDigit (c : ascii) : bool :=
  let n := Z.of_N (N_of_ascii c) in (48 <=? n) && (n <=? 57).

Definition digitValue (c : ascii) : Z := Z.of_N (N_of_ascii c) - 48.

Fixpoint skipWhiteSpace (cs : list ascii) : list ascii :=
  match cs with
  | c :: rest => if isWhiteSpace c then skipWhiteSpace rest else cs
  | [] => []
  end.

(** The longest run of decimal digits at the head, and what follows. *)
Fixpoint takeDigits (cs : list ascii) : list ascii * list ascii :=
  match cs with
  | c :: rest =>
      if isDigit c
      then let '(ds, tail) := takeDigits rest in (c :: ds, tail)
      else ([], cs)
  | [] => ([], [])
  end.

Definition digitsValue (ds : list ascii) : Z :=
  fold_left (fun acc d => 10 * acc + digitValue d) ds 0.

(** Round the rational [p / q] ([0 <= p], [0 < q]) to the nearest binary64,
    ties to even: a quotient of at least 55 bits and the position of the
    remainder go through the rounding of [SpecFloat]. *)
Definition roundRatio (neg : bool) (p q : Z) : number :=
  if p =? 0 then S754_zero neg
  else
    let ex := Z.log2 p - Z.log2 q - 56 in
    let num := if ex <? 0 then p * 2 ^ (- ex) else p in
    let den := if ex <? 0 then q else q * 2 ^ ex in
    let mx := num / den in
    let r := num mod den in
    let l := if r =? 0 then loc_Exact else loc_Inexact (Z.compare (2 * r) den) in
    binary_round_aux 53 1024 neg mx ex l.

(** The double nearest to [m * 10 ^ e10]. *)
Definition decimalToNumber (neg : bool) (m e10 : Z) : number :=
  if e10 >=? 0
  then roundRatio neg (m * 10 ^ e10) 1
  else roundRatio neg m (10 ^ (- e10)).

(** An [ExponentPart] at the head, if there is a complete one. *)
Definition exponentPart (cs : list ascii) : Z :=
  match cs with
  | c :: rest =>
      if (Ascii.eqb c "e" || Ascii.eqb c "E")%char
      then
        let '(neg, rest') :=
          match rest with
          | s :: r =>
              if Ascii.eqb s "-"%char then (true, r)
              else if Ascii.eqb s "+"%char then (false, r)
              else (false, rest)
          | [] => (false, rest)
          end in
        let '(ds, _) := takeDigits rest' in
        match ds with
        | [] => 0
        | _ => if neg then - digitsValue ds else digitsValue ds
        end
      else 0
  | [] => 0
  end.

Fixpoint startsWith (pre cs : list ascii) : bool :=
  match pre, cs with
  | [] , _ => true
  | p :: pre', c :: cs' => Ascii.eqb p c && startsWith pre' cs'
  | _ :: _, [] => false
  end.

(** [parseFloat(s)]: the longest prefix of the trimmed string that is a
    [StrDecimalLiteral], or [NaN] when there is none. *)
Definition parseFloat (s : string) : number :=
  let cs := skipWhiteSpace (list_ascii_of_string s) in
  let '(neg, cs) :=
    match cs with
    | c :: rest =>
        if Ascii.eqb c "-"%char then (true, rest)
        else if Ascii.eqb c "+"%char then (false, rest)
        else (false, cs)
    | [] => (false, cs)
    end in
  if startsWith (list_ascii_of_string "Infinity") cs then S754_infinity neg
  else
    let '(ip, cs1) := takeDigits cs in
    let '(fp, cs2) :=
      match cs1 with
      | c :: rest =>
          if Ascii.eqb c "."%char then takeDigits rest else ([], cs1)
      | [] => ([], cs1)
      end in
    match ip, fp with
    | [], [] => NaN
    | _, _ =>
        decimalToNumber neg (digitsValue (ip ++ fp))
                        (exponentPart cs2 - Z.of_nat (length fp))
    end.

End ParseFloat.

Import ParseFloat.

(* ===================================================================== *)
(** ** The custom-buy modal *)
(* ===================================================================== *)

Module CustomBuy.

Definition STEPS_CUSTOMBUY : list string :=
  ["Select Wallets"; "Configure Buy"; "Review"].

Section WithEnvironment.
Context (env : Environment).

(** The body of one [async (bundle) => ...] once its request has settled:
    a response that is not [ok] throws, otherwise the parsed body. *)
Definition responseOutcome (r : result Response) : result value :=
  rbind r (fun response =>
  if negb (ok response)
  then Throw (mkError ("HTTP error! Status: " ++ status response)%string)
  else json response).

(** [Promise.all]: rejected with the reason of the first promise that
    settles rejected, fulfilled with all values in index order otherwise. *)
Fixpoint firstRejection {A} (outcomes : list (result A)) (order : list nat)
  : option Error :=
  match order with
  | [] => None
  | k :: rest =>
      match outcomes !! k with
      | Some (Throw e) => Some e
      | _ => firstRejection outcomes rest
      end
  end.

Definition promiseAll {A} (outcomes : list (result A)) (order : list nat)
  : result (list A) :=
  match firstRejection outcomes order with
  | Some e => Throw e
  | None => mapR (fun o => o) outcomes
  end.

(** The requests that settle until [Promise.all] does. *)
Fixpoint settleEvents {A} (reqs : list (list string))
    (outcomes : list (result A)) (order : list nat) : list event :=
  match order with
  | [] => []
  | k :: rest =>
      match reqs !! k, outcomes !! k with
      | Some txs, Some (Ok _) =>
          EvSendEnd txs true :: settleEvents reqs outcomes rest
      | Some txs, Some (Throw _) => [EvSendEnd txs false]
      | _, _ => settleEvents reqs outcomes rest
      end
  end.

(** [sendSignedTransactions]: [signedBundles.map(async ...)] runs every
    callback up to its first [await], which issues all requests at once;
    [Promise.all] then waits for them. *)
Definition sendSignedTransactions (signedBundles : list Bundle)
    (useRpcSetting : bool) : M (list value) :=
  fun w =>
    match tradingServerUrl env with
    | None =>
        (w, Throw (mkError "Cannot read properties of undefined (reading 'replace')"))
    | Some _ =>
        let reqs := map transactions signedBundles in
        let outcomes :=
          imap (fun i txs => responseOutcome (sendResponse env (sends w + i)%nat txs))
               reqs in
        let order := settleOrder env (length reqs) in
        (mkWorld (limiter w) (reads w) (sends w + length reqs)%nat
                 (trace w ++ map EvSendStart reqs
                          ++ settleEvents reqs outcomes order),
         promiseAll outcomes order)
    end.

End WithEnvironment.

(** *** The wizard *)

Record Wizard := mkWizard {
  currentStep : Z;
  selectedWallets : list string;
  walletAmounts : gmap string string;
  isConfirmed : bool;
  toasts : list (string * string)
}.

Definition setCurrentStep (f : Z -> Z) (s : Wizard) : Wizard :=
  mkWizard (f (currentStep s)) (selectedWallets s) (walletAmounts s)
           (isConfirmed s) (toasts s).

Definition showToast (msg kind : string) (s : Wizard) : Wizard :=
  mkWizard (currentStep s) (selectedWallets s) (walletAmounts s)
           (isConfirmed s) (toasts s ++ [(msg, kind)]).

(** [amount => !amount || parseFloat(amount) <= 0] *)
Definition invalidAmount (amount : string) : bool :=
  String.eqb amount "" || le (parseFloat amount) zero.

(** [Object.values(walletAmounts).some(...)] *)
Definition hasInvalidAmount (walletAmounts : gmap string string) : bool :=
  existsb invalidAmount (map snd (map_to_list walletAmounts)).

Definition handleNext (s : Wizard) : Wizard :=
  if (currentStep s =? 0) && Nat.eqb (length (selectedWallets s)) 0
  then showToast "Please select at least one wallet" "error" s
  else if (currentStep s =? 1) && hasInvalidAmount (walletAmounts s)
  then showToast "Please enter valid amounts for all wallets" "error" s
  else setCurrentStep
         (fun prev => Z.min (prev + 1) (Z.of_nat (length STEPS_CUSTOMBUY) - 1)) s.

Definition handleBack (s : Wizard) : Wizard :=
  setCurrentStep (fun prev => Z.max (prev - 1) 0) s.

(** The events of the wizard's two buttons. *)
Inductive click := Next | Back.

Definition handle (s : Wizard) (c : click) : Wizard :=
  match c with
  | Next => handleNext s
  | Back => handleBack s
  end.

(** The steps of the wizard. *)
Definition inRange (s : Wizard) : Prop :=
  0 <= currentStep s <= Z.of_nat (length STEPS_CUSTOMBUY) - 1.

(** What the specification asks of an amount at step 1: it parses to a
    value strictly greater than 0. *)
Definition positiveAmount (amount : string) : bool :=
  lt zero (parseFloat amount).

End CustomBuy.

(* ===================================================================== *)
(** ** [App.tsx]: the wallet store *)
(* ===================================================================== *)

Module App.

Record WalletType := mkWallet {
  id : Z;
  address : string;
  privateKey : string
}.

(** [{ wallet, error }], as [importWallet] returns it. *)
Record Imported := mkImported {
  wallet : option WalletType;
  error : option string
}.

(** The collaborators of [Utils] and the chain.  [importWallet] is given
    the number of earlier calls, since the wallet it builds may depend on
    the time of the call. *)
Record Chain := mkChain {
  importWallet : nat -> string -> result Imported;
  fetchSolBalance : string -> result number;
  fetchTokenBalance : string -> string -> result number;
  trim : string -> string
}.

Record State := mkState {
  wallets : list WalletType;
  solBalances : gmap string number;
  tokenBalances : gmap string number;
  connection : bool;
  tokenAddress : string;
  importKey : string;
  importError : option string;
  isImporting : bool;
  imports : nat
}.

Definition setWallets (f : list WalletType -> list WalletType) (s : State) : State :=
  mkState (f (wallets s)) (solBalances s) (tokenBalances s) (connection s)
          (tokenAddress s) (importKey s) (importError s) (isImporting s) (imports s).

Definition setSolBalances (f : gmap string number -> gmap string number)
    (s : State) : State :=
  mkState (wallets s) (f (solBalances s)) (tokenBalances s) (connection s)
          (tokenAddress s) (importKey s) (importError s) (isImporting s) (imports s).

Definition setTokenBalances (f : gmap string number -> gmap string number)
    (s : State) : State :=
  mkState (wallets s) (solBalances s) (f (tokenBalances s)) (connection s)
          (tokenAddress s) (importKey s) (importError s) (isImporting s) (imports s).

Definition setImportError (e : option string) (s : State) : State :=
  mkState (wallets s) (solBalances s) (tokenBalances s) (connection s)
          (tokenAddress s) (importKey s) e (isImporting s) (imports s).

Definition setImportKey (k : string) (s : State) : State :=
  mkState (wallets s) (solBalances s) (tokenBalances s) (connection s)
          (tokenAddress s) k (importError s) (isImporting s) (imports s).

Definition setIsImporting (b : bool) (s : State) : State :=
  mkState (wallets s) (solBalances s) (tokenBalances s) (connection s)
          (tokenAddress s) (importKey s) (importError s) b (imports s).

Definition countImport (s : State) : State :=
  mkState (wallets s) (solBalances s) (tokenBalances s) (connection s)
          (tokenAddress s) (importKey s) (importError s) (isImporting s)
          (S (imports s)).

(** [if (error)] on the message of an import. *)
Definition hasError (e : option string) : bool :=
  match e with
  | Some msg => negb (String.eqb msg "")
  | None => false
  end.

(** [wallets.some(w => w.address === wallet.address)] *)
Definition exists_address (ws : list WalletType) (a : string) : bool :=
  existsb (fun w => String.eqb (address w) a) ws.

Section WithChain.
Context (chain : Chain).

(** [handleImportWallet].  The handler runs to its end before another one
    starts, so the [wallets] it closes over is the list in the state. *)
Definition handleImportWallet (s : State) : State :=
  if negb (connection s) || String.eqb (trim chain (importKey s)) ""
  then setImportError (Some "Please enter a private key") s
  else
    let imported := importWallet chain (imports s) (trim chain (importKey s)) in
    let s := countImport s in
    match imported with
    | Throw _ => setImportError (Some "Failed to import wallet") s
    | Ok r =>
        if hasError (error r) then setImportError (error r) s
        else
          match wallet r with
          | None => setImportError (Some "Failed to import wallet") s
          | Some wallet =>
              if exists_address (wallets s) (address wallet)
              then setImportError (Some "Wallet already exists") s
              else
                let s := setWallets (fun prev => prev ++ [wallet]) s in
                match fetchSolBalance chain (address wallet) with
                | Throw _ => setImportError (Some "Failed to import wallet") s
                | Ok solBalance =>
                    let s := setSolBalances (fun prev => <[address wallet := solBalance]> prev) s in
                    let tokenBalance :=
                      if negb (String.eqb (tokenAddress s) "")
                      then fetchTokenBalance chain (address wallet) (tokenAddress s)
                      else Ok zero in
                    match tokenBalance with
                    | Throw _ => setImportError (Some "Failed to import wallet") s
                    | Ok tokenBalance =>
                        let s := setTokenBalances (fun prev => <[address wallet := tokenBalance]> prev) s in
                        setIsImporting false (setImportError None (setImportKey "" s))
                    end
                end
          end
    end.

(** The loop of [importWalletsSequentially] over [foundKeys].  [held] is
    the [wallets] the handler closed over; [k] counts the calls of
    [importWallet]; the three accumulators are [importedWallets],
    [newSolBalances] and [newTokenBalances].  An exception inside the
    [try] of one iteration ends that iteration only. *)
Fixpoint importLoop (held : list WalletType) (token : string)
    (foundKeys : list string) (k : nat)
    (importedWallets : list WalletType)
    (newSolBalances newTokenBalances : gmap string number)
  : list WalletType * gmap string number * gmap string number :=
  match foundKeys with
  | [] => (importedWallets, newSolBalances, newTokenBalances)
  | key :: rest =>
      let continue := importLoop held token rest (S k) in
      match importWallet chain k key with
      | Throw _ => continue importedWallets newSolBalances newTokenBalances
      | Ok r =>
          if hasError (error r)
          then continue importedWallets newSolBalances newTokenBalances
          else
            match wallet r with
            | None => continue importedWallets newSolBalances newTokenBalances
            | Some wallet =>
                if exists_address held (address wallet)
                then continue importedWallets newSolBalances newTokenBalances
                else
                  let importedWallets := importedWallets ++ [wallet] in
                  match fetchSolBalance chain (address wallet) with
                  | Throw _ => continue importedWallets newSolBalances newTokenBalances
                  | Ok solBalance =>
                      let newSolBalances := <[address wallet := solBalance]> newSolBalances in
                      let tokenBalance :=
                        if negb (String.eqb token "")
                        then fetchTokenBalance chain (address wallet) token
                        else Ok zero in
                      match tokenBalance with
                      | Throw _ => continue importedWallets newSolBalances newTokenBalances
                      | Ok tokenBalance =>
                          continue importedWallets newSolBalances
                                   (<[address wallet := tokenBalance]> newTokenBalances)
                      end
                  end
            end
      end
  end.

(** [importWalletsSequentially]: the loop, then the two balance maps are
    stored; the imported wallets are returned. *)
Definition importWalletsSequentially (foundKeys : list string) (s : State)
  : list WalletType * State :=
  let '(importedWallets, newSolBalances, newTokenBalances) :=
    importLoop (wallets s) (tokenAddress s) foundKeys (imports s) []
               (solBalances s) (tokenBalances s) in
  let s := mkState (wallets s) (solBalances s) (tokenBalances s) (connection s)
                   (tokenAddress s) (importKey s) (importError s) (isImporting s)
                   (imports s + length foundKeys)%nat in
  (importedWallets,
   setTokenBalances (fun _ => newTokenBalances)
     (setSolBalances (fun _ => newSolBalances) s)).

(** [handleFileUpload] from the keys found in the file on. *)
Definition handleFileUpload (foundKeys : list string) (s : State) : State :=
  if negb (connection s) then s
  else
    let s := setImportError None s in
    if Nat.eqb (length foundKeys) 0
    then setImportError (Some "No valid private keys found in file") s
    else
      let '(importedWallets, s) := importWalletsSequentially foundKeys s in
      if Nat.eqb (length importedWallets) 0
      then setImportError (Some "No new wallets could be imported") s
      else setWallets (fun prev => prev ++ importedWallets) s.

End WithChain.

(** Modelled from the spec: [deleteWallet] of [Utils], which is not among
    the sources.  The wallet is "destroyed on explicit user deletion": the
    list without the wallets of the given id. *)
Definition deleteWallet (ws : list WalletType) (i : Z) : list WalletType :=
  List.filter (fun w => negb (id w =? i)) ws.

Definition handleDeleteWallet (i : Z) (s : State) : State :=
  let walletToDelete := List.find (fun w => id w =? i) (wallets s) in
  let s :=
    match walletToDelete with
    | Some w =>
        setTokenBalances (fun prev => delete (address w) prev)
          (setSolBalances (fun prev => delete (address w) prev) s)
    | None => s
    end in
  setWallets (fun prev => deleteWallet prev i) s.

End App.

(* ===================================================================== *)
(** ** Vocabulary of the statements *)
(* ===================================================================== *)

Module Spec.

Section WithLibrary.
Context `{Library}.

(** [s] is what signing makes of the blob: decoded, signed by the
    required signers among [walletKeypairs], encoded again. *)
Definition signedFrom (walletKeypairs : list Keypair) (blob : value) (s : string)
  : Prop :=
  exists txBuffer transaction signed raw,
    bs58_decode blob = Ok txBuffer
    /\ deserialize txBuffer = Ok transaction
    /\ sign transaction (requiredSigners transaction walletKeypairs) = Ok signed
    /\ serialize signed = Ok raw
    /\ s = bs58_encode raw.

(** Steps 1 to 3 of [executeMoonBuy]: the bundles fetched, the keypairs
    built, every bundle signed. *)
Definition prepared (env : Environment) (wallets : list MoonBuy.WalletMoonBuy)
  : result (list Bundle) :=
  rbind (MoonBuy.fetchedBundles env) (fun bundles =>
  rbind (makeKeypairs (map MoonBuy.privateKey wallets)) (fun walletKeypairs =>
  mapR (fun bundle => completeBundleSigning bundle walletKeypairs) bundles)).

End WithLibrary.

(** The first held keypair with the given public key. *)
Definition firstHeld (walletKeypairs : list Keypair) (key : string) : option Keypair :=
  List.find (fun kp => String.eqb (publicKey kp) key) walletKeypairs.

(** The events of one [checkRateLimit]. *)
Definition checkEvents (slept : option Z) : list event :=
  match slept with
  | Some waitTime => [EvRateLimit; EvTimer waitTime]
  | None => [EvRateLimit]
  end.

(** Traces of a sequential, throttled submission of the given requests:
    every request is preceded by a rate-limit check and has settled before
    anything else happens; a request that settles well and is not the last
    is followed by a timer of 500 ms; a request that fails ends the run. *)
Inductive throttled : list (list string) -> list event -> Prop :=
| throttled_none :
    throttled [] []
| throttled_last txs slept fine :
    throttled [txs] (checkEvents slept ++ [EvSendStart txs; EvSendEnd txs fine])
| throttled_failed txs next rest slept :
    throttled (txs :: next :: rest)
              (checkEvents slept ++ [EvSendStart txs; EvSendEnd txs false])
| throttled_more txs next rest slept tr :
    throttled (next :: rest) tr ->
    throttled (txs :: next :: rest)
              (checkEvents slept
               ++ [EvSendStart txs; EvSendEnd txs true; EvTimer 500] ++ tr).

(** The requests issued in a trace, in order. *)
Fixpoint sentRequests (tr : list event) : list (list string) :=
  match tr with
  | [] => []
  | EvSendStart txs :: rest => txs :: sentRequests rest
  | _ :: rest => sentRequests rest
  end.

(** Whether a trace holds a timer or a rate-limit check. *)
Definition isThrottleEvent (e : event) : bool :=
  match e with
  | EvRateLimit | EvTimer _ => true
  | _ => false
  end.

(** The answers the environment gives to the requests when they are sent
    one after the other, the first being the [k]-th of the run. *)
Fixpoint answers (env : Environment) (k : nat) (reqs : list (list string))
  : list (result value) :=
  match reqs with
  | [] => []
  | txs :: rest => sendAnswer env k txs :: answers env (S k) rest
  end.

End Spec.

(* ===================================================================== *)
(** ** Small instances for the examples *)
(* ===================================================================== *)

Module Fixture.

(** A library in which a blob is the text of its only account key, a
    public key is the text of its secret key, and signing appends the
    public keys of the signers. *)
#[local] Instance toyLibrary : Library := {|
  Transaction := (list string * list string)%type;
  bs58_decode v :=
    match v with
    | VString s => Ok (list_byte_of_string s)
    | _ => Throw (mkError "Expected String")
    end;
  bs58_encode raw := string_of_list_byte raw;
  deserialize txBuffer := Ok ([string_of_list_byte txBuffer], []);
  staticAccountKeys tx := fst tx;
  sign tx signers := Ok (fst tx, snd tx ++ map publicKey signers);
  serialize tx :=
    Ok (list_byte_of_string
          (String.concat "," (fst tx) ++ ":" ++ String.concat "," (snd tx))%string);
  fromSecretKey secret := Ok (string_of_list_byte secret);
  ToString v := match v with VString s => s | _ => "[object]" end
|}.

Definition alice : Keypair := mkKeypair 0 "A" (list_byte_of_string "A").
(** A second object on the same key, as [[w, w].map(...)] builds it. *)
Definition alice' : Keypair := mkKeypair 1 "A" (list_byte_of_string "A").
Definition bob : Keypair := mkKeypair 1 "B" (list_byte_of_string "B").

Definition goodBundle : value :=
  VObject [("transactions", VArray [VString "A"; VString "C"])].
Definition malformedBundle : value := VObject [("bundleId", VNumber one)].

(** An environment in which the clock stands still, the backend returns
    two bundles and every request is answered with [null]. *)
Definition quietEnv : Environment := {|
  clockAt := fun _ => 5000;
  buyResponse :=
    Ok (mkResponse true "200"
          (Ok (VObject [("success", VBool true);
                        ("bundles", VArray [goodBundle; VArray [VString "B"]])])));
  sendAnswer := fun _ _ => Ok VNull;
  tradingServerUrl := Some "https://backend";
  sendResponse := fun _ _ => Ok (mkResponse true "200" (Ok VNull));
  settleOrder := fun n => seq 0 n
|}.

(** The same, but the backend proxy is unreachable for every send. *)
Definition downEnv : Environment := {|
  clockAt := clockAt quietEnv;
  buyResponse := buyResponse quietEnv;
  sendAnswer := fun _ _ => Throw (mkError "Failed to fetch");
  tradingServerUrl := tradingServerUrl quietEnv;
  sendResponse := fun _ _ => Throw (mkError "Failed to fetch");
  settleOrder := settleOrder quietEnv
|}.

Definition world0 : World := mkWorld (RateLimit.initial 0) 0 0 [].

Definition twoBundles : list Bundle := [mkBundle ["t1"]; mkBundle ["t2"]].

(** The wizard at step 1 with a lone dot typed into the amount field of
    the one selected wallet (the field accepts [/^\d*\.?\d*$/]). *)
Definition dotTyped : CustomBuy.Wizard :=
  CustomBuy.mkWizard 1 ["key1"] {[ "key1" := "." ]} false [].

(** A chain on which the wallet of a key has the key as its address and
    the number of the call as its id. *)
Definition toyChain : App.Chain := {|
  App.importWallet := fun k key =>
    Ok (App.mkImported (Some (App.mkWallet (Z.of_nat k) key key)) None);
  App.fetchSolBalance := fun _ => Ok one;
  App.fetchTokenBalance := fun _ _ => Ok zero;
  App.trim := fun s => s
|}.

Definition emptyApp : App.State :=
  App.mkState [] ∅ ∅ true "" "" None false 0.

End Fixture.

(* ===================================================================== *)
(** ** Runs of the rate limiter, call by call *)
(* ===================================================================== *)

Module RateLimitRun.

Import RateLimit.

(** The delay each call of a sequence hands to [setTimeout], if any. *)
Fixpoint delays (calls : list call) (s : rateLimitState) : list (option Z) :=
  match calls with
  | [] => []
  | c :: rest =>
      let '(s', slept) := checkRateLimit (fst c) (snd c) s in
      slept :: delays rest s'
  end.

(** Consecutive calls enter at least [gap] ms apart, the first not before
    [from]. *)
Fixpoint spaced (gap from : Z) (calls : list call) : Prop :=
  match calls with
  | [] => True
  | c :: rest => from <= fst c /\ spaced gap (fst c + gap) rest
  end.

End RateLimitRun.

(* ===================================================================== *)
(** ** The custom-buy modal: selection, amounts, submission *)
(* ===================================================================== *)

Module CustomBuyForm.

Import CustomBuy.

Definition setSelectedWallets (f : list string -> list string) (s : Wizard) : Wizard :=
  mkWizard (currentStep s) (f (selectedWallets s)) (walletAmounts s)
           (isConfirmed s) (toasts s).

Definition setWalletAmounts (f : gmap string string -> gmap string string)
    (s : Wizard) : Wizard :=
  mkWizard (currentStep s) (selectedWallets s) (f (walletAmounts s))
           (isConfirmed s) (toasts s).

(** [keys.includes(key)] *)
Definition includes (key : string) (keys : list string) : bool :=
  existsb (String.eqb key) keys.

(** The updater of [toggleWalletSelection]. *)
Definition toggled (privateKey : string) (prev : list string) : list string :=
  if includes privateKey prev
  then List.filter (fun key => negb (String.eqb key privateKey)) prev
  else prev ++ [privateKey].

Definition toggleWalletSelection (privateKey : string) (s : Wizard) : Wizard :=
  setSelectedWallets (toggled privateKey) s.

(** The effect that runs when [selectedWallets] changes.  First loop:
    every selected wallet without an amount (none, or the empty string)
    gets ['0.1']. *)
Definition withDefaults (selected : list string) (amounts : gmap string string)
  : gmap string string :=
  fold_left
    (fun acc wallet =>
       match acc !! wallet with
       | Some amount => if String.eqb amount "" then <[wallet := "0.1"]> acc else acc
       | None => <[wallet := "0.1"]> acc
       end)
    selected amounts.

(** The amount a selected wallet has after the first loop. *)
Definition defaulted (o : option string) : string :=
  match o with
  | Some amount => if String.eqb amount "" then "0.1" else amount
  | None => "0.1"
  end.

(** Second loop: over [Object.keys], every key that is not selected is
    deleted. *)
Definition withoutUnselected (selected : list string) (amounts : gmap string string)
  : gmap string string :=
  fold_left
    (fun acc wallet => if negb (includes wallet selected) then delete wallet acc else acc)
    (map fst (map_to_list amounts)) amounts.

Definition syncWalletAmounts (s : Wizard) : Wizard :=
  setWalletAmounts
    (fun _ => withoutUnselected (selectedWallets s)
                (withDefaults (selectedWallets s) (walletAmounts s)))
    s.

(** [/^\d*\.?\d*$/.test(value)]: digits, at most one dot, digits, and
    nothing else. *)
Definition amountPattern (value : string) : bool :=
  let '(_, afterInt) := takeDigits (list_ascii_of_string value) in
  let afterDot :=
    match afterInt with
    | c :: rest => if Ascii.eqb c "."%char then rest else afterInt
    | [] => afterInt
    end in
  let '(_, tail) := takeDigits afterDot in
  match tail with
  | [] => true
  | _ :: _ => false
  end.

Definition handleWalletAmountChange (wallet value : string) (s : Wizard) : Wizard :=
  if String.eqb value "" || amountPattern value
  then setWalletAmounts (fun prev => <[wallet := value]> prev) s
  else s.

(** [setAmountForAllWallets], with the text of the bulk field. *)
Definition setAmountForAllWallets (bulkAmount : string) (s : Wizard) : Wizard :=
  if String.eqb bulkAmount "" || le (parseFloat bulkAmount) zero
  then s
  else
    setWalletAmounts
      (fun _ => fold_left (fun acc wallet => <[wallet := bulkAmount]> acc)
                          (selectedWallets s) (walletAmounts s))
      s.

(** The modal around the wizard: what [handleCustomBuy] and [resetForm]
    touch besides the wizard's own state. *)
Record Modal := mkModal {
  wizard : Wizard;
  useRpc : bool;
  isSubmitting : bool;
  bulkAmount : string;
  searchTerm : string;
  sortOption : string;
  sortDirection : string;
  balanceFilter : string;
  closed : nat;        (* calls of [onClose] *)
  refreshed : nat      (* calls of [handleRefresh] *)
}.

Definition setIsSubmitting (b : bool) (m : Modal) : Modal :=
  mkModal (wizard m) (useRpc m) b (bulkAmount m) (searchTerm m) (sortOption m)
          (sortDirection m) (balanceFilter m) (closed m) (refreshed m).

Definition toast (msg kind : string) (m : Modal) : Modal :=
  mkModal (showToast msg kind (wizard m)) (useRpc m) (isSubmitting m) (bulkAmount m)
          (searchTerm m) (sortOption m) (sortDirection m) (balanceFilter m)
          (closed m) (refreshed m).

Definition resetForm (m : Modal) : Modal :=
  mkModal (mkWizard 0 [] ∅ false (toasts (wizard m))) false (isSubmitting m)
          "0.1" "" "address" "asc" "all" (closed m) (refreshed m).

Definition onClose (m : Modal) : Modal :=
  mkModal (wizard m) (useRpc m) (isSubmitting m) (bulkAmount m) (searchTerm m)
          (sortOption m) (sortDirection m) (balanceFilter m) (S (closed m)) (refreshed m).

Definition handleRefresh (m : Modal) : Modal :=
  mkModal (wizard m) (useRpc m) (isSubmitting m) (bulkAmount m) (searchTerm m)
          (sortOption m) (sortDirection m) (balanceFilter m) (closed m) (S (refreshed m)).

Definition getWalletAddressFromKey (wallets : list App.WalletType)
    (privateKey : string) : string :=
  match List.find (fun w => String.eqb (App.privateKey w) privateKey) wallets with
  | Some w => App.address w
  | None => ""
  end.

(** [parseFloat(walletAmounts[wallet])]; a missing entry reads as
    [undefined], which parses to [NaN]. *)
Definition amountOf (amounts : gmap string string) (wallet : string) : number :=
  match amounts !! wallet with
  | Some amount => parseFloat amount
  | None => NaN
  end.

Section WithEnvironment.
Context `{Library} (env : Environment).

(** The unwrapping of the answer in [getUnsignedTransactions]. *)
Definition unwrapUnsigned (data : value) : result (list value) :=
  rbind (getProp "success" data) (fun success =>
  if negb (truthy success)
  then
    rbind (getProp "error" data) (fun error =>
    Throw (mkError (if truthy error then ToString error
                    else "Failed to get unsigned transactions")))
  else
    rbind (getProp "bundles" data) (fun bundles =>
    match bundles with
    | VArray elems => Ok (map MoonBuy.wrapBundle elems)
    | _ =>
        rbind (getProp "transactions" data) (fun transactions =>
        if truthy transactions && isArray transactions
        then Ok [VObject [("transactions", transactions)]]
        else if isArray data
        then Ok [VObject [("transactions", data)]]
        else Throw (mkError "No transactions returned from backend"))
    end)).

Definition getUnsignedTransactions (walletAddresses : list string)
    (amounts : list number) (useRpcSetting : bool) : result (list value) :=
  match tradingServerUrl env with
  | None => Throw (mkError "Cannot read properties of undefined (reading 'replace')")
  | Some _ =>
      rbind (buyResponse env) (fun response =>
      if negb (ok response)
      then Throw (mkError ("HTTP error! Status: " ++ status response)%string)
      else rbind (json response) unwrapUnsigned)
  end.

(** The [try] block of [handleCustomBuy] up to the last [await]. *)
Definition customBuy_try (wallets : list App.WalletType) (m : Modal)
  : M (list value) :=
  let selected := selectedWallets (wizard m) in
  let walletAddresses := map (getWalletAddressFromKey wallets) selected in
  let amounts := map (amountOf (walletAmounts (wizard m))) selected in
  unsignedBundles <- lift (getUnsignedTransactions walletAddresses amounts (useRpc m)) ;;
  signedBundles <-
    lift (mapR (fun bundle => signTransactions bundle selected) unsignedBundles) ;;
  sendSignedTransactions env signedBundles (useRpc m).

(** [handleCustomBuy]: the form state before and after, and the world. *)
Definition handleCustomBuy (wallets : list App.WalletType) (m : Modal) (w : World)
  : Modal * World :=
  if negb (isConfirmed (wizard m)) then (m, w)
  else
    let m := setIsSubmitting true m in
    match customBuy_try wallets m w with
    | (w', Ok results) =>
        (setIsSubmitting false
           (handleRefresh (onClose (resetForm
              (toast "Custom buy operation completed successfully" "success" m)))),
         w')
    | (w', Throw error) =>
        (setIsSubmitting false
           (toast ("Custom buy operation failed: " ++ message error)%string
                  "error" m),
         w')
    end.

End WithEnvironment.

End CustomBuyForm.

(* ===================================================================== *)
(** ** [DistributeModal.tsx] *)
(* ===================================================================== *)

Module Distribute.

Record WalletAmount := mkWalletAmount {
  address : string;
  amount : string
}.

Record Modal := mkModal {
  currentStep : Z;
  isSubmitting : bool;
  isConfirmed : bool;
  selectedRecipientWallets : list string;
  selectedSenderWallet : string;
  commonAmount : string;
  useCustomAmounts : bool;
  walletAmounts : list WalletAmount;
  searchTerm : string;
  senderSearchTerm : string;
  sortOption : string;
  sortDirection : string;
  balanceFilter : string
}.

Definition setSelectedRecipientWallets (f : list string -> list string) (m : Modal)
  : Modal :=
  mkModal (currentStep m) (isSubmitting m) (isConfirmed m)
          (f (selectedRecipientWallets m)) (selectedSenderWallet m) (commonAmount m)
          (useCustomAmounts m) (walletAmounts m) (searchTerm m) (senderSearchTerm m)
          (sortOption m) (sortDirection m) (balanceFilter m).

Definition setSelectedSenderWallet (a : string) (m : Modal) : Modal :=
  mkModal (currentStep m) (isSubmitting m) (isConfirmed m)
          (selectedRecipientWallets m) a (commonAmount m)
          (useCustomAmounts m) (walletAmounts m) (searchTerm m) (senderSearchTerm m)
          (sortOption m) (sortDirection m) (balanceFilter m).

Definition setWalletAmounts (f : list WalletAmount -> list WalletAmount) (m : Modal)
  : Modal :=
  mkModal (currentStep m) (isSubmitting m) (isConfirmed m)
          (selectedRecipientWallets m) (selectedSenderWallet m) (commonAmount m)
          (useCustomAmounts m) (f (walletAmounts m)) (searchTerm m) (senderSearchTerm m)
          (sortOption m) (sortDirection m) (balanceFilter m).

Definition setCommonAmount (v : string) (m : Modal) : Modal :=
  mkModal (currentStep m) (isSubmitting m) (isConfirmed m)
          (selectedRecipientWallets m) (selectedSenderWallet m) v
          (useCustomAmounts m) (walletAmounts m) (searchTerm m) (senderSearchTerm m)
          (sortOption m) (sortDirection m) (balanceFilter m).

Definition setUseCustomAmounts (b : bool) (m : Modal) : Modal :=
  mkModal (currentStep m) (isSubmitting m) (isConfirmed m)
          (selectedRecipientWallets m) (selectedSenderWallet m) (commonAmount m)
          b (walletAmounts m) (searchTerm m) (senderSearchTerm m)
          (sortOption m) (sortDirection m) (balanceFilter m).

Definition resetForm (m : Modal) : Modal :=
  mkModal 0 (isSubmitting m) false [] "" "" false [] "" "" "address" "asc" "all".

(** [list.includes(a)] *)
Definition includes (a : string) (l : list string) : bool :=
  existsb (String.eqb a) l.

Section WithProps.
Context (wallets : list App.WalletType) (solBalances : gmap string number).

(** [solBalances.has(address) ? solBalances.get(address) : 0] *)
Definition getWalletBalance (a : string) : number :=
  match solBalances !! a with
  | Some b => b
  | None => zero
  end.

(** [(getWalletBalance(address) || 0) > 0] *)
Definition hasBalance (a : string) : bool :=
  let b := getWalletBalance a in
  lt zero (if truthy_number b then b else zero).

Definition toggleRecipientWalletSelection (a : string) (m : Modal) : Modal :=
  setSelectedRecipientWallets
    (fun prev =>
       if includes a prev
       then List.filter (fun x => negb (String.eqb x a)) prev
       else prev ++ [a])
    m.

Definition getAvailableRecipientWallets (m : Modal) : list App.WalletType :=
  List.filter
    (fun wallet => negb (String.eqb (App.address wallet) (selectedSenderWallet m)))
    wallets.

Definition getAvailableSenderWallets (m : Modal) : list App.WalletType :=
  List.filter
    (fun wallet =>
       negb (includes (App.address wallet) (selectedRecipientWallets m))
       && hasBalance (App.address wallet))
    wallets.

Definition handleSelectAllRecipients (m : Modal) : Modal :=
  if Nat.eqb (length (selectedRecipientWallets m))
             (length (getAvailableRecipientWallets m))
  then setSelectedRecipientWallets (fun _ => []) m
  else setSelectedRecipientWallets
         (fun _ => map App.address (getAvailableRecipientWallets m)) m.

(** [new Map(walletAmounts.map(w => [w.address, w.amount]))]: a later
    entry for an address replaces an earlier one. *)
Definition existingAmounts (l : list WalletAmount) : gmap string string :=
  fold_left (fun acc w => <[address w := amount w]> acc) l ∅.

(** [existingAmounts.get(address) || commonAmount || ''] *)
Definition keptAmount (existing : gmap string string) (common a : string) : string :=
  match existing !! a with
  | Some v => if String.eqb v "" then common else v
  | None => common
  end.

Definition updateWalletAmounts (m : Modal) : Modal :=
  if useCustomAmounts m
  then
    let existing := existingAmounts (walletAmounts m) in
    setWalletAmounts
      (fun _ => map (fun a => mkWalletAmount a (keptAmount existing (commonAmount m) a))
                    (selectedRecipientWallets m))
      m
  else
    setWalletAmounts
      (fun _ => map (fun a => mkWalletAmount a (commonAmount m))
                    (selectedRecipientWallets m))
      m.

Definition handleWalletAmountChange (a value : string) (m : Modal) : Modal :=
  if String.eqb value "" || CustomBuyForm.amountPattern value
  then
    setWalletAmounts
      (fun prev =>
         map (fun wallet =>
                if String.eqb (address wallet) a
                then mkWalletAmount (address wallet) value
                else wallet)
             prev)
      m
  else m.

Definition applyCommonAmountToAll (m : Modal) : Modal :=
  setWalletAmounts
    (fun prev => map (fun wallet => mkWalletAmount (address wallet) (commonAmount m)) prev)
    m.

(** [getWalletAmount] *)
Definition getWalletAmount (m : Modal) (a : string) : string :=
  match List.find (fun w => String.eqb (address w) a) (walletAmounts m) with
  | Some w => amount w
  | None => ""
  end.

(** [hasEmptyAmounts]; [parseFloat(x) === 0] holds for both zeros. *)
Definition hasEmptyAmounts (m : Modal) : bool :=
  if negb (useCustomAmounts m) then false
  else
    existsb
      (fun wallet =>
         includes (address wallet) (selectedRecipientWallets m)
         && (String.eqb (amount wallet) "" || SFeqb (parseFloat (amount wallet)) zero))
      (walletAmounts m).

(** What the user can do on the first page of the modal, as the rendered
    lists and buttons allow it: a sender is picked among the available
    senders, a recipient is toggled among the available recipients, the
    amount controls are used; after each, the effects that watch
    [selectedRecipientWallets], [useCustomAmounts] and [commonAmount] run
    [updateWalletAmounts]. *)
Inductive action : Modal -> Modal -> Prop :=
| pick_sender m wallet :
    In wallet (getAvailableSenderWallets m) ->
    action m (setSelectedSenderWallet (App.address wallet) m)
| toggle_recipient m wallet :
    In wallet (getAvailableRecipientWallets m) ->
    action m (updateWalletAmounts (toggleRecipientWalletSelection (App.address wallet) m))
| select_all m :
    action m (updateWalletAmounts (handleSelectAllRecipients m))
| type_common m value :
    (String.eqb value "" || CustomBuyForm.amountPattern value) = true ->
    action m (updateWalletAmounts (setCommonAmount value m))
| switch_custom m :
    action m (updateWalletAmounts (setUseCustomAmounts (negb (useCustomAmounts m)) m))
| type_amount m a value :
    action m (handleWalletAmountChange a value m)
| apply_common m :
    action m (applyCommonAmountToAll m)
| reopen m :
    action m (updateWalletAmounts (resetForm m)).

Inductive reachable (m0 : Modal) : Modal -> Prop :=
| reachable_start : reachable m0 m0
| reachable_step m m' : reachable m0 m -> action m m' -> reachable m0 m'.

End WithProps.

End Distribute.

(* ===================================================================== *)
(** ** More instances for the examples *)
(* ===================================================================== *)

Module Sample.

(** A chain like [Fixture.toyChain] on which no balance can be fetched. *)
Definition offlineChain : App.Chain := {|
  App.importWallet := App.importWallet Fixture.toyChain;
  App.fetchSolBalance := fun _ => Throw (mkError "failed to get balance");
  App.fetchTokenBalance := fun _ _ => Throw (mkError "failed to get balance");
  App.trim := fun s => s
|}.

(** The store with the key ["K"] typed into the import field. *)
Definition typedK : App.State :=
  App.mkState [] ∅ ∅ true "" "K" None true 0.

Definition walletA : App.WalletType := App.mkWallet 1 "A" "keyA".
Definition walletB : App.WalletType := App.mkWallet 2 "B" "keyB".

(** A confirmed custom buy of one wallet, ready to submit. *)
Definition confirmedBuy : CustomBuyForm.Modal :=
  CustomBuyForm.mkModal
    (CustomBuy.mkWizard 2 ["A"] {[ "A" := "0.1" ]} true [])
    false false "0.1" "" "address" "asc" "all" 0 0.

(** The distribute modal as it opens. *)
Definition opened : Distribute.Modal :=
  Distribute.mkModal 0 false false [] "" "" false [] "" "" "address" "asc" "all".

(** The distribute modal with custom amounts: ["A"] has an amount typed,
    ["B"] an emptied one, ["C"] has just been selected. *)
Definition customAmounts : Distribute.Modal :=
  Distribute.mkModal 0 false false ["A"; "B"; "C"] "" "0.1" true
                     [Distribute.mkWalletAmount "A" "0.5";
                      Distribute.mkWalletAmount "B" ""]
                     "" "" "address" "asc" "all".

(** An answer of the backend whose second bundle is [null]. *)
Definition nullBundleAnswer : value :=
  VObject [("success", VBool true);
           ("bundles", VArray [Fixture.goodBundle; VNull])].

End Sample.

(* ===================================================================== *)
(** * Properties *)
(* ===================================================================== *)

(** ** The rate limiter *)

Module RateLimitFacts.

Import RateLimit.

Lemma checkRateLimit_reset now woke s :
  maxBundlesPerSecond s = MAX_BUNDLES_PER_SECOND ->
  1000 <= now - lastReset s ->
  checkRateLimit now woke s = (mkRateLimitState 1 now MAX_BUNDLES_PER_SECOND, None).
Proof.
  intros Hmax Hel. unfold checkRateLimit.
  destruct (Z.geb_spec (now - lastReset s) 1000) as [_ | Hlt]; [| lia].
  cbn [count maxBundlesPerSecond lastReset]. rewrite Hmax.
  reflexivity.
Qed.

Lemma checkRateLimit_sleep now woke s :
  maxBundlesPerSecond s = MAX_BUNDLES_PER_SECOND ->
  now - lastReset s < 1000 ->
  MAX_BUNDLES_PER_SECOND <= count s ->
  checkRateLimit now woke s
  = (mkRateLimitState 1 woke MAX_BUNDLES_PER_SECOND, Some (1000 - (now - lastReset s))).
Proof.
  intros Hmax Hel Hcap. unfold checkRateLimit.
  destruct (Z.geb_spec (now - lastReset s) 1000) as [Hge | _]; [lia |].
  rewrite Hmax.
  destruct (Z.geb_spec (count s) MAX_BUNDLES_PER_SECOND) as [_ | Hlt]; [| lia].
  reflexivity.
Qed.

Lemma checkRateLimit_pass now woke s :
  maxBundlesPerSecond s = MAX_BUNDLES_PER_SECOND ->
  now - lastReset s < 1000 ->
  count s < MAX_BUNDLES_PER_SECOND ->
  checkRateLimit now woke s
  = (mkRateLimitState (count s + 1) (lastReset s) MAX_BUNDLES_PER_SECOND, None).
Proof.
  intros Hmax Hel Hcap. unfold checkRateLimit.
  destruct (Z.geb_spec (now - lastReset s) 1000) as [Hge | _]; [lia |].
  rewrite Hmax.
  destruct (Z.geb_spec (count s) MAX_BUNDLES_PER_SECOND) as [Hge | _]; [lia |].
  cbn. rewrite Hmax. reflexivity.
Qed.

(** C1, as stated, fails: at exactly one second after the window start the
    code resets the window (the test is [>= 1000]), where the algorithm of
    the specification ("more than one second") would go on counting in the
    old window. *)
Lemma C1_reset_at_exactly_one_second :
  checkRateLimit 1000 1000 (mkRateLimitState 1 0 2)
    = (mkRateLimitState 1 1000 2, None)
  /\ checkRateLimit_as_specified 1000 1000 (mkRateLimitState 1 0 2)
    = (mkRateLimitState 2 0 2, None)
  /\ checkRateLimit 1000 1000 (mkRateLimitState 1 0 2)
     <> checkRateLimit_as_specified 1000 1000 (mkRateLimitState 1 0 2).
Proof. repeat split. discriminate. Qed.

(** C1, amended: [checkRateLimit] resets the count to 0 and the window
    start to the current time when at least one second (1000 ms or more) has
    elapsed since the window start; otherwise, when the count has reached
    the cap of 2, it sleeps exactly 1000 ms minus the elapsed time, which is
    strictly positive, and then resets the count and sets the window start
    to the time read after the sleep; in every case the count is finally
    incremented by one, and a call that neither resets nor sleeps leaves the
    window start alone. *)
Theorem C1_checkRateLimit_window now woke s :
  maxBundlesPerSecond s = MAX_BUNDLES_PER_SECOND ->
  let elapsed := now - lastReset s in
  (1000 <= elapsed ->
     checkRateLimit now woke s = (mkRateLimitState (0 + 1) now 2, None))
  /\ (elapsed < 1000 -> 2 <= count s ->
        0 < 1000 - elapsed
        /\ checkRateLimit now woke s
           = (mkRateLimitState (0 + 1) woke 2, Some (1000 - elapsed)))
  /\ (elapsed < 1000 -> count s < 2 ->
        checkRateLimit now woke s
        = (mkRateLimitState (count s + 1) (lastReset s) 2, None)).
Proof.
  intros Hmax elapsed. subst elapsed. repeat split.
  - intros. now apply checkRateLimit_reset.
  - lia.
  - now apply checkRateLimit_sleep.
  - intros. now apply checkRateLimit_pass.
Qed.

(** The three branches of C1 on concrete calls: a reset after 1250 ms, a
    sleep of 600 ms at the cap after 400 ms, and a plain increment. *)
Lemma C1_checkRateLimit_window_witness :
  checkRateLimit 1250 1250 (mkRateLimitState 2 0 2)
    = (mkRateLimitState 1 1250 2, None)
  /\ checkRateLimit 400 1003 (mkRateLimitState 2 0 2)
    = (mkRateLimitState 1 1003 2, Some 600)
  /\ checkRateLimit 400 400 (mkRateLimitState 1 0 2)
    = (mkRateLimitState 2 0 2, None).
Proof.
  destruct (C1_checkRateLimit_window 1250 1250 (mkRateLimitState 2 0 2) eq_refl)
    as (Hreset & _ & _).
  destruct (C1_checkRateLimit_window 400 1003 (mkRateLimitState 2 0 2) eq_refl)
    as (_ & Hsleep & _).
  destruct (C1_checkRateLimit_window 400 400 (mkRateLimitState 1 0 2) eq_refl)
    as (_ & _ & Hpass).
  cbn in Hreset, Hsleep, Hpass.
  split; [apply Hreset; lia | split].
  - apply Hsleep; lia.
  - apply Hpass; lia.
Defined.

Lemma passed_in_window_snoc w log t w' t0 :
  passed_in_window w (log ++ [mkEntry t w' t0])
  = (passed_in_window w log + (if Nat.eqb w' w then 1 else 0))%nat.
Proof.
  unfold passed_in_window. rewrite List.filter_app, length_app. cbn.
  destruct (Nat.eqb w' w); reflexivity.
Qed.

Lemma run_invariant_start loaded : run_invariant (start loaded).
Proof.
  unfold run_invariant, start; cbn. repeat split; try lia.
  unfold MAX_BUNDLES_PER_SECOND; lia.
Qed.

Lemma run_invariant_call r c : run_invariant r -> run_invariant (run_call r c).
Proof.
  intros (Hmax & Hrange & Hcount & Hcap & Hlater).
  unfold run_call, opened_window.
  destruct (Z_lt_le_dec (fst c - lastReset (limiter r)) 1000) as [Hlt | Hge];
    [destruct (Z_lt_le_dec (count (limiter r)) MAX_BUNDLES_PER_SECOND) as [Hc | Hc] |].
  - (* counted in the current window *)
    rewrite checkRateLimit_pass by assumption.
    destruct (Z.geb_spec (fst c - lastReset (limiter r)) 1000); [lia |].
    cbn [orb bool_decide]. rewrite bool_decide_eq_false_2 by (intros [? ?]; discriminate).
    unfold run_invariant; cbn [limiter window passed count maxBundlesPerSecond].
    unfold MAX_BUNDLES_PER_SECOND in *.
    repeat split; try lia.
    + rewrite passed_in_window_snoc, Nat.eqb_refl. lia.
    + intros w. rewrite passed_in_window_snoc.
      destruct (Nat.eqb_spec (window r) w) as [Heq | _]; [subst w; lia |].
      specialize (Hcap w). lia.
    + intros w Hw. rewrite passed_in_window_snoc.
      destruct (Nat.eqb_spec (window r) w) as [Heq | _]; [subst w; lia |].
      rewrite Hlater by assumption. reflexivity.
  - (* the cap is reached: sleep, then a new window *)
    rewrite checkRateLimit_sleep by assumption.
    rewrite bool_decide_eq_true_2 by eauto. rewrite orb_true_r.
    unfold run_invariant; cbn [limiter window passed count maxBundlesPerSecond].
    unfold MAX_BUNDLES_PER_SECOND in *.
    repeat split; try lia.
    + rewrite passed_in_window_snoc, Nat.eqb_refl.
      rewrite Hlater by lia. reflexivity.
    + intros w. rewrite passed_in_window_snoc.
      destruct (Nat.eqb_spec (S (window r)) w) as [Heq | _]; [subst w |].
      * rewrite Hlater by lia. lia.
      * specialize (Hcap w). lia.
    + intros w Hw. rewrite passed_in_window_snoc.
      destruct (Nat.eqb_spec (S (window r)) w) as [Heq | _]; [subst w; lia |].
      rewrite Hlater by lia. reflexivity.
  - (* a second or more has elapsed: a new window *)
    rewrite checkRateLimit_reset by assumption.
    destruct (Z.geb_spec (fst c - lastReset (limiter r)) 1000); [| lia].
    cbn [orb].
    unfold run_invariant; cbn [limiter window passed count maxBundlesPerSecond].
    unfold MAX_BUNDLES_PER_SECOND in *.
    repeat split; try lia.
    + rewrite passed_in_window_snoc, Nat.eqb_refl.
      rewrite Hlater by lia. reflexivity.
    + intros w. rewrite passed_in_window_snoc.
      destruct (Nat.eqb_spec (S (window r)) w) as [Heq | _]; [subst w |].
      * rewrite Hlater by lia. lia.
      * specialize (Hcap w). lia.
    + intros w Hw. rewrite passed_in_window_snoc.
      destruct (Nat.eqb_spec (S (window r)) w) as [Heq | _]; [subst w; lia |].
      rewrite Hlater by lia. reflexivity.
Qed.

(** One entry of the log per call. *)
Lemma run_passed_length calls : forall r,
  length (passed (run calls r)) = (length (passed r) + length calls)%nat.
Proof.
  induction calls as [| c calls IH]; intros r; cbn; [lia |].
  unfold run in IH. rewrite IH. unfold run_call.
  destruct (checkRateLimit (fst c) (snd c) (limiter r)) as [s' slept].
  cbn. rewrite length_app. cbn. lia.
Qed.

Lemma log_invariant_start loaded : log_invariant (start loaded).
Proof. unfold log_invariant, start; cbn. repeat split; intros; tauto. Qed.

(** The log after one more call, when the call stays in the window
    ([fresh = false]) and when it opens the next one. *)
Lemma log_invariant_snoc r s' (fresh : bool) t :
  log_invariant r ->
  t - lastReset s' < 1000 ->
  (fresh = false -> lastReset s' = lastReset (limiter r)) ->
  let w := if fresh then S (window r) else window r in
  log_invariant (mkRun s' w (passed r ++ [mkEntry t w (lastReset s')])).
Proof.
  intros (Hlate & Hle & Hcur & Hsame) Ht Hkeep w.
  unfold log_invariant; cbn [passed window limiter].
  assert (Hw : (window r <= w)%nat) by (subst w; destruct fresh; lia).
  repeat split.
  - intros e [He | [<- | []]]%in_app_iff; [auto | exact Ht].
  - intros e [He | [<- | []]]%in_app_iff; cbn; [specialize (Hle e He); lia | lia].
  - intros e [He | [<- | []]]%in_app_iff; [| reflexivity].
    intros Hin. specialize (Hle e He). subst w. destruct fresh; [lia |].
    rewrite Hkeep by reflexivity. now apply Hcur.
  - intros e1 e2 [H1 | [<- | []]]%in_app_iff [H2 | [<- | []]]%in_app_iff; cbn;
      [now apply Hsame | | | reflexivity]; intros Hin.
    + specialize (Hle e1 H1). subst w. destruct fresh; [lia |].
      rewrite Hkeep by reflexivity. now apply Hcur.
    + specialize (Hle e2 H2). subst w. destruct fresh; [lia |].
      rewrite Hkeep by reflexivity. symmetry. now apply Hcur.
Qed.

Lemma log_invariant_call r c :
  run_invariant r -> log_invariant r -> log_invariant (run_call r c).
Proof.
  intros (Hmax & _) Hlog. unfold run_call, opened_window.
  destruct (Z_lt_le_dec (fst c - lastReset (limiter r)) 1000) as [Hlt | Hge];
    [destruct (Z_lt_le_dec (count (limiter r)) MAX_BUNDLES_PER_SECOND) as [Hc | Hc] |].
  - rewrite checkRateLimit_pass by assumption.
    destruct (Z.geb_spec (fst c - lastReset (limiter r)) 1000); [lia |].
    cbn [orb]. rewrite bool_decide_eq_false_2 by (intros [? ?]; discriminate).
    apply (log_invariant_snoc r _ false); cbn; [assumption | lia | reflexivity].
  - rewrite checkRateLimit_sleep by assumption.
    rewrite bool_decide_eq_true_2 by eauto. rewrite orb_true_r.
    apply (log_invariant_snoc r _ true); cbn; [assumption | lia | discriminate].
  - rewrite checkRateLimit_reset by assumption.
    destruct (Z.geb_spec (fst c - lastReset (limiter r)) 1000); [| lia].
    cbn [orb].
    apply (log_invariant_snoc r _ true); cbn; [assumption | lia | discriminate].
Qed.

Lemma invariants_run calls : forall r,
  run_invariant r -> log_invariant r ->
  run_invariant (run calls r) /\ log_invariant (run calls r).
Proof.
  induction calls as [| c calls IH]; intros r Hr Hlog; cbn; [split; assumption |].
  apply IH; [now apply run_invariant_call | now apply log_invariant_call].
Qed.

(** C2, as stated, fails: the counter stays at or below 2, yet three calls
    at 998, 999 and 1000 ms after the window start all return without
    sleeping, so three submissions go out within the one second that starts
    at 998 ms. *)
Lemma C2_three_within_one_second :
  let calls := [(998, 998); (999, 999); (1000, 1000)] in
  passed (run calls (start 0))
    = [mkEntry 998 0 0; mkEntry 999 0 0; mkEntry 1000 1 1000]
  /\ passed_in_second 998 (passed (run calls (start 0))) = 3%nat
  /\ count (limiter (run calls (start 0))) <= 2.
Proof. repeat split; vm_compute; congruence. Qed.

(** C2, amended: for every sequence of calls to [checkRateLimit] from the
    initial state, after each call the count never exceeds
    [maxBundlesPerSecond] (2), every call returns (one log entry per call),
    and at most 2 submissions are counted in any single window of the
    limiter (the calls between one reset of the window start and the next);
    each of them returns less than one second after the start of its
    window.  Nothing is promised for an arbitrary interval of one second,
    which can straddle a reset. *)
Theorem C2_count_never_exceeds_cap loaded (calls : list call) :
  let r := run calls (start loaded) in
  count (limiter r) <= maxBundlesPerSecond (limiter r)
  /\ maxBundlesPerSecond (limiter r) = 2
  /\ length (passed r) = length calls
  /\ (forall w, (passed_in_window w (passed r) <= 2)%nat)
  /\ (forall e, In e (passed r) -> at_time e - window_start e < 1000)
  /\ (forall e1 e2, In e1 (passed r) -> In e2 (passed r) ->
         in_window e1 = in_window e2 -> window_start e1 = window_start e2).
Proof.
  intros r.
  destruct (invariants_run calls (start loaded)
              (run_invariant_start loaded) (log_invariant_start loaded))
    as [(Hmax & Hrange & _ & Hcap & _) (Hlate & _ & _ & Hsame)].
  fold r in Hmax, Hrange, Hcap, Hlate, Hsame.
  repeat split.
  - rewrite Hmax. apply Hrange.
  - exact Hmax.
  - subst r. rewrite run_passed_length. reflexivity.
  - apply Hcap.
  - apply Hlate.
  - apply Hsame.
Qed.

End RateLimitFacts.

(** ** Signing *)

Module SigningFacts.

Import Spec.

Lemma mapR_Forall2 {A B} (f : A -> result B) xs : forall ys,
  mapR f xs = Ok ys <-> Forall2 (fun x y => f x = Ok y) xs ys.
Proof.
  induction xs as [| x xs IH]; intros ys; cbn.
  - split.
    + intros [= <-]. constructor.
    + intros Hall. inversion Hall. reflexivity.
  - destruct (f x) as [y | e] eqn:Hfx; cbn.
    + destruct (mapR f xs) as [ys' | e] eqn:Hrest; cbn.
      * split.
        -- intros [= <-]. constructor; [assumption | now apply IH].
        -- intros Hall. inversion Hall as [| ? y0 ? ys0 Hy Htail]; subst.
           apply IH in Htail. congruence.
      * split; [discriminate |].
        intros Hall. inversion Hall as [| ? y0 ? ys0 Hy Htail]; subst.
        apply IH in Htail. discriminate.
    + split; [discriminate |].
      intros Hall. inversion Hall; subst. congruence.
Qed.

Lemma mapR_app {A B} (f : A -> result B) xs1 xs2 ys1 ys2 :
  mapR f xs1 = Ok ys1 -> mapR f xs2 = Ok ys2 ->
  mapR f (xs1 ++ xs2) = Ok (ys1 ++ ys2).
Proof.
  rewrite !mapR_Forall2. apply Forall2_app.
Qed.

(** A call that throws ends the [map]: the elements after it are not
    reached and what was made of the elements before it is lost. *)
Lemma mapR_throws {A B} (f : A -> result B) before x after ys e :
  mapR f before = Ok ys -> f x = Throw e ->
  mapR f (before ++ x :: after) = Throw e.
Proof.
  revert ys. induction before as [| b before IH]; intros ys; cbn.
  - intros _ ->. reflexivity.
  - destruct (f b) as [y | e0]; cbn; [| discriminate].
    destruct (mapR f before) as [ys' | e0] eqn:Hbefore; cbn; [| discriminate].
    intros _ Hx. now rewrite (IH ys' eq_refl Hx).
Qed.

Lemma mapiR_refs {A} (g : nat -> A -> result (string * bytes)) xs : forall i kps,
  mapiR (fun i x => rbind (g i x) (fun ps => Ok (mkKeypair i (fst ps) (snd ps)))) i xs
    = Ok kps ->
  map ref kps = seq i (length xs).
Proof.
  induction xs as [| x xs IH]; intros i kps; cbn.
  - intros [= <-]. reflexivity.
  - destruct (g i x) as [ps | e]; cbn; [| discriminate].
    destruct (mapiR _ (S i) xs) as [rest | e] eqn:Hrest; cbn; [| discriminate].
    intros [= <-]. cbn. f_equal. now apply IH.
Qed.

Section WithLibrary.
Context `{Library}.

(** The keypairs built from the private keys are distinct objects. *)
Lemma makeKeypairs_refs privateKeys kps :
  makeKeypairs privateKeys = Ok kps ->
  map ref kps = seq 0 (length privateKeys).
Proof.
  unfold makeKeypairs. intros Hmk.
  apply (mapiR_refs
           (fun _ privateKey =>
              rbind (bs58_decode (VString privateKey)) (fun secret =>
              rbind (fromSecretKey secret) (fun pub => Ok (pub, secret))))).
  rewrite <- Hmk. clear Hmk. generalize 0%nat.
  induction privateKeys as [| k ks IH]; intros i; cbn; [reflexivity |].
  destruct (bs58_decode (VString k)) as [secret | e]; cbn; [| reflexivity].
  destruct (fromSecretKey secret) as [pub | e]; cbn; [| reflexivity].
  rewrite IH. reflexivity.
Qed.

Lemma makeKeypairs_distinct privateKeys kps :
  makeKeypairs privateKeys = Ok kps -> List.NoDup (map ref kps).
Proof.
  intros Hmk. rewrite (makeKeypairs_refs _ _ Hmk). apply List.seq_NoDup.
Qed.

Lemma signOne_signedFrom kps blob s :
  signOne kps blob = Ok s <-> signedFrom kps blob s.
Proof.
  unfold signOne, signedFrom. split.
  - destruct (bs58_decode blob) as [buf | e]; cbn; [| discriminate].
    destruct (deserialize buf) as [tx | e] eqn:Hd; cbn; [| discriminate].
    destruct (sign tx (requiredSigners tx kps)) as [tx' | e] eqn:Hs; cbn; [| discriminate].
    destruct (serialize tx') as [raw | e] eqn:Hr; cbn; [| discriminate].
    intros [= <-]. exists buf, tx, tx', raw. repeat split; assumption.
  - intros (buf & tx & tx' & raw & -> & Hd & Hs & Hr & ->). cbn.
    rewrite Hd. cbn. rewrite Hs. cbn. rewrite Hr. reflexivity.
Qed.

Lemma completeBundleSigning_array bundle blobs kps outs :
  get_transactions bundle = Ok (VArray blobs) ->
  completeBundleSigning bundle kps = Ok (mkBundle outs)
  <-> Forall2 (signedFrom kps) blobs outs.
Proof.
  intros Hget. unfold completeBundleSigning. rewrite Hget. cbn.
  destruct (mapR (signOne kps) blobs) as [signed | e] eqn:Hmap; cbn.
  - apply mapR_Forall2 in Hmap. split.
    + intros [= <-]. eapply Forall2_impl; [exact Hmap |].
      intros blob s. apply signOne_signedFrom.
    + intros Hall. f_equal. f_equal.
      assert (Hall' : Forall2 (fun x y => signOne kps x = Ok y) blobs outs).
      { eapply Forall2_impl; [exact Hall |]. intros blob s. apply signOne_signedFrom. }
      apply mapR_Forall2 in Hall'. apply mapR_Forall2 in Hmap. congruence.
  - split; [discriminate |].
    intros Hall.
    assert (Hall' : Forall2 (fun x y => signOne kps x = Ok y) blobs outs).
    { eapply Forall2_impl; [exact Hall |]. intros blob s. apply signOne_signedFrom. }
    apply mapR_Forall2 in Hall'. congruence.
Qed.

Lemma signTransactions_complete bundle blobs privateKeys kps :
  get_transactions bundle = Ok (VArray blobs) ->
  makeKeypairs privateKeys = Ok kps ->
  signTransactions bundle privateKeys = completeBundleSigning bundle kps.
Proof.
  intros Hget Hmk. unfold signTransactions, completeBundleSigning.
  rewrite Hget. cbn. rewrite Hmk. reflexivity.
Qed.

Lemma malformed_completeBundleSigning bundle v kps :
  get_transactions bundle = Ok v -> isArray v = false ->
  completeBundleSigning bundle kps = Ok (mkBundle []).
Proof.
  intros Hget Harr. unfold completeBundleSigning. rewrite Hget. cbn.
  rewrite Harr, orb_true_r. reflexivity.
Qed.

Lemma malformed_signTransactions bundle v privateKeys :
  get_transactions bundle = Ok v -> isArray v = false ->
  signTransactions bundle privateKeys = Ok (mkBundle []).
Proof.
  intros Hget Harr. unfold signTransactions. rewrite Hget. cbn.
  rewrite Harr, orb_true_r. reflexivity.
Qed.

End WithLibrary.

(** *** The required signers *)

Lemma map_injective_on {A B} (f : A -> B) (l : list A) a b :
  List.NoDup (map f l) -> In a l -> In b l -> f a = f b -> a = b.
Proof.
  induction l as [| x l IH]; cbn; [tauto |].
  intros Hnd Ha Hb Hf. inversion Hnd as [| ? ? Hx Hl]; subst.
  destruct Ha as [-> | Ha], Hb as [-> | Hb]; try reflexivity.
  - exfalso. apply Hx. rewrite Hf. now apply in_map.
  - exfalso. apply Hx. rewrite <- Hf. now apply in_map.
  - now apply IH.
Qed.

Lemma includes_spec kp signers :
  includes kp signers = true <-> exists s, In s signers /\ ref s = ref kp.
Proof.
  unfold includes. rewrite existsb_exists. split.
  - intros (s & Hin & Heq). apply Nat.eqb_eq in Heq. eauto.
  - intros (s & Hin & Heq). exists s. split; [assumption |]. now apply Nat.eqb_eq.
Qed.

Lemma firstHeld_held kps key kp :
  firstHeld kps key = Some kp -> In kp kps /\ publicKey kp = key.
Proof.
  unfold firstHeld. intros Hf. apply find_some in Hf as [Hin Heq].
  apply String.eqb_eq in Heq. auto.
Qed.

(** With pairwise distinct public keys, the first keypair on a key is the
    only one. *)
Lemma firstHeld_unique kps kp :
  List.NoDup (map publicKey kps) -> In kp kps ->
  firstHeld kps (publicKey kp) = Some kp.
Proof.
  intros Hnd Hin. unfold firstHeld.
  destruct (List.find (fun k => String.eqb (publicKey k) (publicKey kp)) kps)
    as [k |] eqn:Hf.
  - apply find_some in Hf as [Hk Heq]. apply String.eqb_eq in Heq.
    f_equal. now apply (map_injective_on publicKey kps).
  - exfalso. apply (find_none _ _ Hf) in Hin.
    rewrite String.eqb_refl in Hin. discriminate.
Qed.

Lemma collectSigners_in kps : List.NoDup (map ref kps) ->
  forall keys acc kp,
    (forall a, In a acc -> In a kps) ->
    In kp (collectSigners kps keys acc)
    <-> In kp acc \/ exists key, In key keys /\ firstHeld kps key = Some kp.
Proof.
  intros Hnd. induction keys as [| key rest IH]; intros acc kp Hacc; cbn.
  - split; [auto |]. intros [Hin | (key & [] & _)]. exact Hin.
  - fold (firstHeld kps key).
    destruct (firstHeld kps key) as [k |] eqn:Hfirst.
    + destruct (firstHeld_held _ _ _ Hfirst) as [Hk _].
      destruct (includes k acc) eqn:Hinc; cbn.
      * (* already among the signers *)
        apply includes_spec in Hinc as (s0 & Hs0 & Href).
        assert (s0 = k) as ->
            by (apply (map_injective_on ref kps); auto).
        rewrite IH by assumption. split.
        -- intros [Hin | (key' & Hin & Hf)]; [auto |]. right. exists key'. auto.
        -- intros [Hin | (key' & [<- | Hin] & Hf)]; [auto | |].
           ++ left. congruence.
           ++ right. exists key'. auto.
      * rewrite IH.
        -- rewrite in_app_iff. cbn. split.
           ++ intros [[Hin | [<- | []]] | (key' & Hin & Hf)]; [auto | |].
              ** right. exists key. auto.
              ** right. exists key'. auto.
           ++ intros [Hin | (key' & [<- | Hin] & Hf)]; [auto | |].
              ** left. right. left. congruence.
              ** right. exists key'. auto.
        -- intros a. rewrite in_app_iff. cbn. intros [Ha | [<- | []]]; auto.
    + rewrite IH by assumption. split.
      * intros [Hin | (key' & Hin & Hf)]; [auto |]. right. exists key'. auto.
      * intros [Hin | (key' & [<- | Hin] & Hf)]; [auto | congruence |].
        right. exists key'. auto.
Qed.

Lemma collectSigners_distinct kps : forall keys acc,
  List.NoDup (map ref acc) -> List.NoDup (map ref (collectSigners kps keys acc)).
Proof.
  induction keys as [| key rest IH]; intros acc Hacc; cbn; [assumption |].
  destruct (List.find _ kps) as [k |]; [| now apply IH].
  destruct (includes k acc) eqn:Hinc; cbn; [now apply IH |].
  apply IH. rewrite map_app. cbn.
  apply NoDup_ListNoDup, NoDup_app. repeat split.
  - now apply NoDup_ListNoDup.
  - intros r Hr [Heq | []]%list_elem_of_In. subst r.
    apply list_elem_of_In, in_map_iff in Hr as (s0 & Href & Hs0).
    assert (includes k acc = true) by (apply includes_spec; eauto).
    congruence.
  - apply NoDup_ListNoDup. repeat constructor. cbn. tauto.
Qed.

Section WithLibrary.
Context `{Library}.

Lemma requiredSigners_spec held transaction :
  List.NoDup (map ref held) ->
  let signers := requiredSigners transaction held in
  List.NoDup signers
  /\ (forall kp, In kp signers
        <-> exists key, In key (staticAccountKeys transaction)
                        /\ firstHeld held key = Some kp)
  /\ (List.NoDup (map publicKey held) ->
      forall kp, In kp signers
        <-> In kp held /\ In (publicKey kp) (staticAccountKeys transaction)).
Proof.
  intros Hnd signers. subst signers. unfold requiredSigners.
  assert (Hin : forall kp,
             In kp (collectSigners held (staticAccountKeys transaction) [])
             <-> exists key, In key (staticAccountKeys transaction)
                             /\ firstHeld held key = Some kp).
  { intros kp. rewrite (collectSigners_in held Hnd) by (intros a []).
    cbn. tauto. }
  repeat split.
  - apply (NoDup_map_inv ref). apply collectSigners_distinct. constructor.
  - apply Hin.
  - apply Hin.
  - apply Hin in H1 as (key & _ & Hf). now apply firstHeld_held in Hf.
  - apply Hin in H1 as (key & Hkey & Hf).
    apply firstHeld_held in Hf as [_ ->]. exact Hkey.
  - intros [Hheld Hkey]. apply Hin. exists (publicKey kp).
    split; [assumption |]. now apply firstHeld_unique.
Qed.

(** Read by public key, the signers are the held keys among the account
    keys. *)
Lemma requiredSigners_by_key held transaction :
  List.NoDup (map ref held) ->
  (forall key,
      In key (map publicKey (requiredSigners transaction held))
      <-> In key (map publicKey held) /\ In key (staticAccountKeys transaction))
  /\ List.NoDup (map publicKey (requiredSigners transaction held)).
Proof.
  intros Hnd.
  destruct (requiredSigners_spec held transaction Hnd) as (Hdistinct & Hin & _).
  split.
  - intros key. rewrite !in_map_iff. split.
    + intros (kp & <- & Hkp). apply Hin in Hkp as (key & Hkey & Hfirst).
      apply firstHeld_held in Hfirst as [Hheld Hpk].
      split; [exists kp; split; [reflexivity | assumption] | congruence].
    + intros [(kp0 & <- & Hheld) Hkey].
      destruct (firstHeld held (publicKey kp0)) as [kp |] eqn:Hfirst.
      * exists kp. split; [now apply firstHeld_held in Hfirst |].
        apply Hin. exists (publicKey kp0). split; assumption.
      * unfold firstHeld in Hfirst. apply (find_none _ _ Hfirst) in Hheld.
        rewrite String.eqb_refl in Hheld. discriminate.
  - apply NoDup_map_NoDup_ForallPairs; [| assumption].
    intros a b Ha Hb Hkey.
    apply Hin in Ha as (ka & _ & Hfa). apply Hin in Hb as (kb & _ & Hfb).
    destruct (firstHeld_held _ _ _ Hfa) as [_ Hka].
    destruct (firstHeld_held _ _ _ Hfb) as [_ Hkb].
    assert (ka = kb) by congruence. subst kb. congruence.
Qed.

(** C4: for every bundle whose [transactions] is an array and every list
    of held keypairs (distinct objects), both [completeBundleSigning] and
    [signTransactions] return a bundle exactly when every blob can be
    decoded, signed and encoded again, and the bundle then holds exactly one
    signed transaction per input transaction, in the same order.  The public
    keys of the signers applied to a transaction are exactly the held public
    keys that occur among its [staticAccountKeys], each once.  The keypair
    that signs for such a key is the first held keypair with that public
    key; when the held public keys are pairwise distinct, the signers are
    exactly the held keypairs whose public key occurs among the
    [staticAccountKeys]. *)
Theorem C4_signing_by_public_key_membership
    bundle blobs walletKeypairs privateKeys madeKeypairs :
  get_transactions bundle = Ok (VArray blobs) ->
  List.NoDup (map ref walletKeypairs) ->
  makeKeypairs privateKeys = Ok madeKeypairs ->
  (forall outs,
      completeBundleSigning bundle walletKeypairs = Ok (mkBundle outs)
      <-> Forall2 (signedFrom walletKeypairs) blobs outs)
  /\ (forall outs,
         signTransactions bundle privateKeys = Ok (mkBundle outs)
         <-> Forall2 (signedFrom madeKeypairs) blobs outs)
  /\ (forall held, held = walletKeypairs \/ held = madeKeypairs ->
      forall transaction,
        let signers := requiredSigners transaction held in
        (forall key,
            In key (map publicKey signers)
            <-> In key (map publicKey held)
                /\ In key (staticAccountKeys transaction))
        /\ List.NoDup (map publicKey signers)
        /\ List.NoDup signers
        /\ (forall kp, In kp signers
              <-> exists key, In key (staticAccountKeys transaction)
                              /\ firstHeld held key = Some kp)
        /\ (List.NoDup (map publicKey held) ->
            forall kp, In kp signers
              <-> In kp held /\ In (publicKey kp) (staticAccountKeys transaction))).
Proof.
  intros Hget Hnd Hmk. split; [| split].
  - intros outs. now apply completeBundleSigning_array.
  - intros outs. rewrite (signTransactions_complete _ _ _ _ Hget Hmk).
    now apply completeBundleSigning_array.
  - intros held Hheld transaction.
    assert (Hrefs : List.NoDup (map ref held)).
    { destruct Hheld as [-> | ->];
        [assumption | now apply (makeKeypairs_distinct privateKeys)]. }
    cbn zeta.
    destruct (requiredSigners_by_key held transaction Hrefs) as [Hkeys Honce].
    split; [exact Hkeys |]. split; [exact Honce |].
    now apply requiredSigners_spec.
Qed.

(** A bundle that is [null] or [undefined] is no bundle with a missing
    property: the property read itself throws. *)
Lemma null_bundle_throws bundle walletKeypairs privateKeys :
  bundle = VNull \/ bundle = VUndefined ->
  completeBundleSigning bundle walletKeypairs
  = Throw (mkError "Cannot read properties of null or undefined")
  /\ signTransactions bundle privateKeys
     = Throw (mkError "Cannot read properties of null or undefined").
Proof. intros [-> | ->]; split; reflexivity. Qed.

(** C10, amended: for every bundle that is not [null] or [undefined] and
    whose [transactions] property is missing or is not an array,
    [completeBundleSigning] and [signTransactions] both return
    [{ transactions: [] }] and do not throw; in the [map] over the bundles
    of the backend, such a bundle becomes an empty bundle and the bundles
    before and after it are signed as they would be without it.  On a bundle
    that is [null] or [undefined], and on no other, the read of
    [bundle.transactions] throws: both functions throw, and the [map] over
    the bundles throws with them, whatever the other bundles are. *)
Theorem C10_malformed_bundle_is_absorbed bundle walletKeypairs privateKeys :
  (forall transactionsProperty,
      get_transactions bundle = Ok transactionsProperty ->
      isArray transactionsProperty = false ->
      completeBundleSigning bundle walletKeypairs = Ok (mkBundle [])
      /\ signTransactions bundle privateKeys = Ok (mkBundle [])
      /\ (forall before after signedBefore signedAfter,
            mapR (fun b => completeBundleSigning b walletKeypairs) before
            = Ok signedBefore ->
            mapR (fun b => completeBundleSigning b walletKeypairs) after
            = Ok signedAfter ->
            mapR (fun b => completeBundleSigning b walletKeypairs)
                 (before ++ bundle :: after)
            = Ok (signedBefore ++ mkBundle [] :: signedAfter))
      /\ (forall before after signedBefore signedAfter,
            mapR (fun b => signTransactions b privateKeys) before = Ok signedBefore ->
            mapR (fun b => signTransactions b privateKeys) after = Ok signedAfter ->
            mapR (fun b => signTransactions b privateKeys)
                 (before ++ bundle :: after)
            = Ok (signedBefore ++ mkBundle [] :: signedAfter)))
  /\ ((exists transactionsProperty, get_transactions bundle = Ok transactionsProperty)
      <-> bundle <> VNull /\ bundle <> VUndefined)
  /\ (bundle = VNull \/ bundle = VUndefined ->
      completeBundleSigning bundle walletKeypairs
      = Throw (mkError "Cannot read properties of null or undefined")
      /\ signTransactions bundle privateKeys
         = Throw (mkError "Cannot read properties of null or undefined")
      /\ (forall before after signedBefore,
            mapR (fun b => completeBundleSigning b walletKeypairs) before
            = Ok signedBefore ->
            mapR (fun b => completeBundleSigning b walletKeypairs)
                 (before ++ bundle :: after)
            = Throw (mkError "Cannot read properties of null or undefined"))
      /\ (forall before after signedBefore,
            mapR (fun b => signTransactions b privateKeys) before = Ok signedBefore ->
            mapR (fun b => signTransactions b privateKeys)
                 (before ++ bundle :: after)
            = Throw (mkError "Cannot read properties of null or undefined"))).
Proof.
  split; [| split].
  - intros transactionsProperty Hget Harr.
    pose proof (malformed_completeBundleSigning _ _ walletKeypairs Hget Harr) as Hc.
    pose proof (malformed_signTransactions _ _ privateKeys Hget Harr) as Hs.
    repeat split; try assumption.
    + intros before after sb sa Hb Ha. apply mapR_app; [assumption |].
      cbn. rewrite Hc, Ha. reflexivity.
    + intros before after sb sa Hb Ha. apply mapR_app; [assumption |].
      cbn. rewrite Hs, Ha. reflexivity.
  - split.
    + intros [v Hget]. split; intros ->; discriminate Hget.
    + intros [Hnull Hundef]. destruct bundle; try contradiction; eexists; reflexivity.
  - intros Hnull.
    destruct (null_bundle_throws bundle walletKeypairs privateKeys Hnull) as [Hc Hs].
    split; [exact Hc |]. split; [exact Hs |]. split.
    + intros before after sb Hb.
      now apply (mapR_throws (fun b => completeBundleSigning b walletKeypairs)
                             before bundle after sb).
    + intros before after sb Hb.
      now apply (mapR_throws (fun b => signTransactions b privateKeys)
                             before bundle after sb).
Qed.

End WithLibrary.

(** C4 on a wallet passed twice, which gives two keypair objects on one
    key, and a transaction whose only account key is that key: the signers
    carry the key once. *)
Lemma C4_signing_by_public_key_membership_witness :
  makeKeypairs (H := Fixture.toyLibrary) ["A"; "A"]
  = Ok [Fixture.alice; Fixture.alice']
  /\ In "A" (map publicKey
               (requiredSigners (H := Fixture.toyLibrary) (["A"], [])
                                [Fixture.alice; Fixture.alice']))
  /\ List.NoDup
       (map publicKey
            (requiredSigners (H := Fixture.toyLibrary) (["A"], [])
                             [Fixture.alice; Fixture.alice'])).
Proof.
  assert (Hrefs : List.NoDup (map ref [Fixture.alice; Fixture.bob])).
  { repeat constructor; cbn; intuition discriminate. }
  destruct (C4_signing_by_public_key_membership (H := Fixture.toyLibrary)
              Fixture.goodBundle [VString "A"; VString "C"]
              [Fixture.alice; Fixture.bob] ["A"; "A"]
              [Fixture.alice; Fixture.alice'] eq_refl Hrefs eq_refl)
    as (_ & _ & Hsigners).
  destruct (Hsigners [Fixture.alice; Fixture.alice'] (or_intror eq_refl) (["A"], []))
    as (Hkeys & Honce & _).
  split; [reflexivity |]. split; [| exact Honce].
  apply Hkeys. cbn. auto.
Defined.

(** C10, as stated, fails on a bundle that is [null], which the answer of
    the backend can hold and [getPartiallyPreparedTransactions] hands on:
    it has no [transactions] property, and both functions throw on it
    instead of returning [{ transactions: [] }]; in the [map] over the
    bundles the throw ends the signing of the bundle before it too. *)
Lemma C10_null_bundle_aborts_signing :
  MoonBuy.unwrapAnswer (H := Fixture.toyLibrary) Sample.nullBundleAnswer
  = Ok [Fixture.goodBundle; VNull]
  /\ completeBundleSigning (H := Fixture.toyLibrary) VNull [Fixture.alice; Fixture.bob]
     = Throw (mkError "Cannot read properties of null or undefined")
  /\ signTransactions (H := Fixture.toyLibrary) VNull ["A"; "B"]
     = Throw (mkError "Cannot read properties of null or undefined")
  /\ completeBundleSigning (H := Fixture.toyLibrary) Fixture.goodBundle
                           [Fixture.alice; Fixture.bob]
     = Ok (mkBundle ["A:A"; "C:"])
  /\ mapR (fun b => completeBundleSigning (H := Fixture.toyLibrary) b
                                          [Fixture.alice; Fixture.bob])
          [Fixture.goodBundle; VNull]
     = Throw (mkError "Cannot read properties of null or undefined")
  /\ mapR (fun b => signTransactions (H := Fixture.toyLibrary) b ["A"; "B"])
          [Fixture.goodBundle; VNull]
     = Throw (mkError "Cannot read properties of null or undefined").
Proof. repeat split. Qed.

(** C10 on a bundle object that has no [transactions] property, and on
    [null] after a well-formed bundle. *)
Lemma C10_malformed_bundle_is_absorbed_witness :
  completeBundleSigning (H := Fixture.toyLibrary) Fixture.malformedBundle
                        [Fixture.alice; Fixture.bob] = Ok (mkBundle [])
  /\ signTransactions (H := Fixture.toyLibrary) Fixture.malformedBundle ["A"; "B"]
     = Ok (mkBundle [])
  /\ mapR (fun b => completeBundleSigning (H := Fixture.toyLibrary) b
                                          [Fixture.alice; Fixture.bob])
          ([Fixture.goodBundle] ++ VNull :: [Fixture.goodBundle])
     = Throw (mkError "Cannot read properties of null or undefined").
Proof.
  destruct (C10_malformed_bundle_is_absorbed (H := Fixture.toyLibrary)
              Fixture.malformedBundle [Fixture.alice; Fixture.bob] ["A"; "B"])
    as (Habsorbed & _ & _).
  destruct (Habsorbed VUndefined eq_refl eq_refl) as (Hc & Hs & _).
  destruct (C10_malformed_bundle_is_absorbed (H := Fixture.toyLibrary)
              VNull [Fixture.alice; Fixture.bob] ["A"; "B"])
    as (_ & _ & Hthrown).
  destruct (Hthrown (or_introl eq_refl)) as (_ & _ & Hmap & _).
  split; [exact Hc |]. split; [exact Hs |].
  apply (Hmap [Fixture.goodBundle] [Fixture.goodBundle] [mkBundle ["A:A"; "C:"]]).
  reflexivity.
Defined.

End SigningFacts.

(** ** Moon buy: validation *)

Module ValidationFacts.

Import MoonBuy.

(** What makes one wallet fail the loop. *)
Lemma validateWallets_invalid wallets tokenConfig walletBalances :
  valid (validateWallets wallets tokenConfig walletBalances) = false
  <-> exists wallet, In wallet wallets /\
        (address wallet = "" \/ privateKey wallet = ""
         \/ lt (balanceOf walletBalances (address wallet))
               (solAmount tokenConfig) = true).
Proof.
  induction wallets as [| w ws IH]; cbn.
  - split; [discriminate |]. intros (? & [] & _).
  - destruct (String.eqb_spec (address w) "") as [Ha | Ha]; cbn.
    { split; [| reflexivity]. intros _. exists w. auto. }
    destruct (String.eqb_spec (privateKey w) "") as [Hk | Hk]; cbn.
    { split; [| reflexivity]. intros _. exists w. auto. }
    destruct (lt (balanceOf walletBalances (address w)) (solAmount tokenConfig))
      eqn:Hlt; cbn.
    { split; [| reflexivity]. intros _. exists w. auto. }
    rewrite IH. split.
    + intros (w' & Hin & Hbad). exists w'. auto.
    + intros (w' & [<- | Hin] & Hbad).
      * destruct Hbad as [? | [? | ?]]; congruence.
      * exists w'. auto.
Qed.

Lemma validateWallets_reason wallets tokenConfig walletBalances :
  match validateWallets wallets tokenConfig walletBalances with
  | mkValidation true r => r = None
  | mkValidation false r => exists msg, r = Some msg
  end.
Proof.
  induction wallets as [| w ws IH]; cbn; [reflexivity |].
  destruct (_ || _); [eauto |].
  destruct (lt _ _); [eauto | exact IH].
Qed.

(** C5, as stated, fails: a balance stored as [NaN] is read as [0] by
    [walletBalances.get(address) || 0], so the wallet is rejected for an
    insufficient balance although none of the listed conditions holds
    ([NaN] is not strictly below any amount). *)
Lemma C5_stored_NaN_balance_is_rejected :
  let wallets := [mkWalletMoonBuy "A" "k"] in
  let tokenConfig := mkTokenConfig "T" one in
  let walletBalances : gmap string number := {[ "A" := NaN ]} in
  validateMoonBuyInputs wallets tokenConfig walletBalances
    = mkValidation false (Some "Wallet A... has insufficient balance")
  /\ ~ rejected_as_specified wallets tokenConfig walletBalances.
Proof.
  cbn zeta. split.
  - unfold validateMoonBuyInputs, validateWallets, balanceOf. cbn.
    rewrite lookup_singleton_eq. reflexivity.
  - unfold rejected_as_specified, balance_as_specified. cbn.
    intros [Ht | [Hn | [Hle | [Hw | (w & [<- | []] & Hbad)]]]];
      try discriminate.
    cbn in Hbad. rewrite lookup_singleton_eq in Hbad.
    destruct Hbad as [? | [? | ?]]; discriminate.
Qed.

(** C5, amended: [validateMoonBuyInputs] is a total, synchronous function
    of its arguments (no network call, no exception).  It returns
    [{ valid: false, error }] exactly when the token address is empty, or
    [solAmount] is [NaN] or not strictly positive, or the wallet list is
    empty, or some wallet is missing its address or private key, or some
    wallet's balance, taken as 0 when its address is absent from the balance
    map _or when the stored balance is NaN_, is strictly below [solAmount];
    otherwise it returns [{ valid: true }]. *)
Theorem C5_validateMoonBuyInputs_rejects_exactly
    wallets tokenConfig (walletBalances : gmap string number) :
  (valid (validateMoonBuyInputs wallets tokenConfig walletBalances) = false
   <-> rejected wallets tokenConfig walletBalances)
  /\ (valid (validateMoonBuyInputs wallets tokenConfig walletBalances) = false ->
      exists msg,
        validateMoonBuyInputs wallets tokenConfig walletBalances
        = mkValidation false (Some msg))
  /\ (~ rejected wallets tokenConfig walletBalances ->
      validateMoonBuyInputs wallets tokenConfig walletBalances
      = mkValidation true None).
Proof.
  assert (Hiff : valid (validateMoonBuyInputs wallets tokenConfig walletBalances) = false
                 <-> rejected wallets tokenConfig walletBalances).
  { unfold validateMoonBuyInputs, rejected.
    destruct (String.eqb_spec (tokenAddress tokenConfig) "") as [Ht | Ht]; cbn.
    { tauto. }
    destruct (isNaN (solAmount tokenConfig)) eqn:Hnan; cbn.
    { tauto. }
    destruct (le (solAmount tokenConfig) zero) eqn:Hle; cbn.
    { tauto. }
    destruct wallets as [| w ws]; cbn [length Nat.eqb].
    { cbn. tauto. }
    rewrite validateWallets_invalid. split.
    - intros Hbad. do 4 right. exact Hbad.
    - intros [? | [? | [? | [? | Hbad]]]]; first [congruence | exact Hbad]. }
  assert (Hreason :
            match validateMoonBuyInputs wallets tokenConfig walletBalances with
            | mkValidation true r => r = None
            | mkValidation false r => exists msg, r = Some msg
            end).
  { unfold validateMoonBuyInputs.
    destruct (String.eqb _ _); [eauto |].
    destruct (_ || _); [eauto |].
    destruct (Nat.eqb _ _); [eauto |].
    apply validateWallets_reason. }
  split; [exact Hiff | split].
  - intros Hv.
    destruct (validateMoonBuyInputs wallets tokenConfig walletBalances) as [[|] r];
      [discriminate |].
    destruct Hreason as [msg ->]. eauto.
  - intros Hnot.
    destruct (validateMoonBuyInputs wallets tokenConfig walletBalances) as [[|] r].
    + now subst r.
    + exfalso. apply Hnot, Hiff. reflexivity.
Qed.

Example validateMoonBuyInputs_examples :
  validateMoonBuyInputs [mkWalletMoonBuy "A" "k"] (mkTokenConfig "T" one)
                        {[ "A" := one ]}
    = mkValidation true None
  /\ validateMoonBuyInputs [mkWalletMoonBuy "A" "k"] (mkTokenConfig "T" one) ∅
    = mkValidation false (Some "Wallet A... has insufficient balance")
  /\ validateMoonBuyInputs [mkWalletMoonBuy "A" "k"] (mkTokenConfig "T" NaN)
                           {[ "A" := one ]}
    = mkValidation false (Some "Invalid SOL amount")
  /\ validateMoonBuyInputs [] (mkTokenConfig "T" one) ∅
    = mkValidation false (Some "No wallets provided").
Proof.
  unfold validateMoonBuyInputs, validateWallets, balanceOf. cbn.
  rewrite lookup_singleton_eq, lookup_empty. repeat split.
Qed.

(** What "taken as 0" covers in the code: a missing entry, a stored [NaN]
    and a stored zero of either sign; every other balance is read as it is. *)
Lemma balanceOf_cases (walletBalances : gmap string number) a :
  match walletBalances !! a with
  | None => balanceOf walletBalances a = zero
  | Some b =>
      (truthy_number b = false -> balanceOf walletBalances a = zero)
      /\ (truthy_number b = true -> balanceOf walletBalances a = b)
  end.
Proof.
  unfold balanceOf. destruct (walletBalances !! a) as [b |]; [| reflexivity].
  destruct (truthy_number b); split; congruence.
Qed.

End ValidationFacts.

(** ** Moon buy: submission *)

Module MoonBuyFacts.

Import Spec MoonBuy.

Lemma sentRequests_app tr1 tr2 :
  sentRequests (tr1 ++ tr2) = sentRequests tr1 ++ sentRequests tr2.
Proof.
  induction tr1 as [| e tr1 IH]; cbn; [reflexivity |].
  destruct e; cbn; rewrite IH; reflexivity.
Qed.

Lemma sentRequests_checkEvents slept : sentRequests (checkEvents slept) = [].
Proof. destruct slept; reflexivity. Qed.

(** A rate-limit check always returns, touches neither the trace already
    written nor the count of requests, and adds its own events. *)
Lemma checkRateLimit_run env w :
  exists s' n slept,
    checkRateLimit env w
    = (mkWorld s' n (sends w) (trace w ++ checkEvents slept), Ok tt).
Proof.
  unfold checkRateLimit.
  destruct (RateLimit.checkRateLimit _ _ (limiter w)) as [s' [waitTime |]].
  - exists s', (S (S (reads w))), (Some waitTime). reflexivity.
  - exists s', (S (reads w)), None. reflexivity.
Qed.

Lemma sendLoop_run env : forall rest n i results w,
  n = i + Z.of_nat (length rest) ->
  exists w' r tr,
    sendLoop env n i rest results w = (w', r)
    /\ trace w' = trace w ++ tr
    /\ throttled (map transactions rest) tr
    /\ match mapR (fun a => a) (answers env (sends w) (map transactions rest)) with
       | Ok values =>
           r = Ok (results ++ values)
           /\ sentRequests tr = map transactions rest
       | Throw e =>
           r = Throw e
           /\ exists k, (k < length rest)%nat
                        /\ sentRequests tr = firstn (S k) (map transactions rest)
       end.
Proof.
  induction rest as [| bundle rest IH]; intros n i results w Hn.
  - exists w, (Ok results), []. cbn. rewrite !app_nil_r.
    repeat split. constructor.
  - cbn [sendLoop]. unfold bind at 1.
    destruct (checkRateLimit_run env w) as (s1 & n1 & slept & ->).
    unfold bind at 1. unfold sendBundle at 1. cbn [limiter reads sends trace].
    cbn [map answers mapR].
    destruct (sendAnswer env (sends w) (transactions bundle)) as [v | e] eqn:Hanswer;
      cbn [is_ok rbind].
    + (* the request settles well *)
      destruct rest as [| next rest].
      * (* it was the last one: no timer *)
        cbn [length] in Hn.
        destruct (Z.ltb_spec i (n - 1)) as [Hlt | _]; [lia |].
        cbn. unfold bind, ret. cbn.
        eexists _, _, (checkEvents slept
                       ++ [EvSendStart (transactions bundle);
                           EvSendEnd (transactions bundle) true]).
        split; [reflexivity |]. cbn. rewrite <- !app_assoc.
        repeat split.
        -- apply throttled_last.
        -- rewrite sentRequests_app, sentRequests_checkEvents. reflexivity.
      * cbn [length] in Hn.
        destruct (Z.ltb_spec i (n - 1)) as [_ | Hge]; [| lia].
        unfold bind at 1. unfold sleep, emit. cbn [limiter reads sends trace].
        edestruct (IH n (i + 1) (results ++ [v])) as (w' & r & tr & Hrun & Htrace & Hthr & Hres);
          [cbn [length]; lia |].
        rewrite Hrun. cbn [sends] in Hres. cbn [trace] in Htrace.
        exists w', r,
          (checkEvents slept
           ++ [EvSendStart (transactions bundle);
               EvSendEnd (transactions bundle) true; EvTimer 500] ++ tr).
        split; [reflexivity |]. split; [| split].
        -- rewrite Htrace. rewrite <- !app_assoc. reflexivity.
        -- apply throttled_more. exact Hthr.
        -- cbn [map answers mapR] in Hres |- *.
           destruct (rbind (sendAnswer env (S (sends w)) (transactions next)) _)
             as [values | e]; cbn [rbind].
           ++ destruct Hres as [-> Hsent]. split.
              ** rewrite <- app_assoc. reflexivity.
              ** rewrite sentRequests_app, sentRequests_checkEvents. cbn.
                 rewrite Hsent. reflexivity.
           ++ destruct Hres as [-> (k & Hk & Hsent)]. split; [reflexivity |].
              exists (S k). split; [cbn [length] in *; lia |].
              rewrite sentRequests_app, sentRequests_checkEvents. cbn.
              rewrite Hsent. reflexivity.
    + (* the request fails: the loop ends here *)
      eexists _, _, (checkEvents slept
                     ++ [EvSendStart (transactions bundle);
                         EvSendEnd (transactions bundle) false]).
      split; [reflexivity |]. cbn. rewrite <- !app_assoc.
      repeat split.
      * destruct rest; [apply throttled_last | apply throttled_failed].
      * exists 0%nat. split; [lia |].
        rewrite sentRequests_app, sentRequests_checkEvents.
        cbn. rewrite firstn_O. reflexivity.
Qed.

Section WithLibrary.
Context `{Library}.

(** [executeMoonBuy] when steps 1 to 3 fail: nothing is sent. *)
Lemma executeMoonBuy_not_prepared env wallets tokenConfig customAmounts w e :
  prepared env wallets = Throw e ->
  executeMoonBuy env wallets tokenConfig customAmounts w
  = (w, Ok (mkOutcome false None (Some (message e)))).
Proof.
  unfold prepared, executeMoonBuy, executeMoonBuy_try, try_catch, bind,
    getPartiallyPreparedTransactions, lift, ret.
  destruct (fetchedBundles env) as [bundles | e1]; cbn.
  - destruct (makeKeypairs (map privateKey wallets)) as [kps | e2]; cbn.
    + destruct (mapR _ bundles) as [signed | e3]; cbn; [discriminate |].
      now intros [= ->].
    + now intros [= ->].
  - now intros [= ->].
Qed.

(** [executeMoonBuy] once the bundles are signed: the loop decides. *)
Lemma executeMoonBuy_prepared env wallets tokenConfig customAmounts w signedBundles :
  prepared env wallets = Ok signedBundles ->
  executeMoonBuy env wallets tokenConfig customAmounts w
  = match sendLoop env (Z.of_nat (length signedBundles)) 0 signedBundles [] w with
    | (w', Ok results) => (w', Ok (mkOutcome true (Some results) None))
    | (w', Throw e) => (w', Ok (mkOutcome false None (Some (message e))))
    end.
Proof.
  unfold prepared, executeMoonBuy, executeMoonBuy_try, try_catch, bind,
    getPartiallyPreparedTransactions, lift, ret.
  destruct (fetchedBundles env) as [bundles | e1]; cbn; [| discriminate].
  destruct (makeKeypairs (map privateKey wallets)) as [kps | e2]; cbn; [| discriminate].
  destruct (mapR _ bundles) as [signed | e3]; cbn; [| discriminate].
  intros [= ->].
  destruct (sendLoop env _ 0 signedBundles [] w) as [w' [results | e]]; reflexivity.
Qed.

(** C6: [executeMoonBuy] never propagates an exception and does not
    retry.  For every input and every behaviour of the backend it resolves;
    it resolves to [{ success: true, result }] with the results of all
    requests when fetching, signing and every send succeed, and to
    [{ success: false, error }] with the message of the failure when a step
    throws.  The requests issued are a prefix of the signed bundles, in
    their order: each bundle is sent at most once, none after a failure. *)
Theorem C6_executeMoonBuy_always_resolves
    env wallets tokenConfig customAmounts w :
  exists w' outcome tr,
    executeMoonBuy env wallets tokenConfig customAmounts w = (w', Ok outcome)
    /\ trace w' = trace w ++ tr
    /\ match prepared env wallets with
       | Throw e =>
           outcome = mkOutcome false None (Some (message e))
           /\ sentRequests tr = []
       | Ok signedBundles =>
           let reqs := map transactions signedBundles in
           match mapR (fun a => a) (answers env (sends w) reqs) with
           | Ok results =>
               outcome = mkOutcome true (Some results) None
               /\ sentRequests tr = reqs
           | Throw e =>
               outcome = mkOutcome false None (Some (message e))
               /\ exists k, (k < length reqs)%nat
                            /\ sentRequests tr = firstn (S k) reqs
           end
       end.
Proof.
  destruct (prepared env wallets) as [signedBundles | e] eqn:Hprep.
  - rewrite (executeMoonBuy_prepared _ _ _ _ _ _ Hprep).
    destruct (sendLoop_run env signedBundles (Z.of_nat (length signedBundles)) 0 [] w)
      as (w' & r & tr & Hrun & Htrace & _ & Hres); [lia |].
    rewrite Hrun. cbn zeta.
    destruct (mapR _ (answers env (sends w) (map transactions signedBundles)))
      as [results | e].
    + destruct Hres as [-> Hsent]. exists w', (mkOutcome true (Some results) None), tr.
      repeat split; assumption.
    + destruct Hres as [-> (k & Hk & Hsent)].
      exists w', (mkOutcome false None (Some (message e))), tr.
      repeat split; try assumption.
      exists k. rewrite length_map. split; assumption.
  - rewrite (executeMoonBuy_not_prepared _ _ _ _ _ _ Hprep).
    exists w, (mkOutcome false None (Some (message e))), [].
    rewrite app_nil_r. repeat split.
Qed.

(** The moon-buy half of C3. *)
Lemma executeMoonBuy_throttled env wallets tokenConfig customAmounts w :
  exists tr,
    trace (fst (executeMoonBuy env wallets tokenConfig customAmounts w))
    = trace w ++ tr
    /\ match prepared env wallets with
       | Ok signedBundles => throttled (map transactions signedBundles) tr
       | Throw _ => tr = []
       end.
Proof.
  destruct (prepared env wallets) as [signedBundles | e] eqn:Hprep.
  - rewrite (executeMoonBuy_prepared _ _ _ _ _ _ Hprep).
    destruct (sendLoop_run env signedBundles (Z.of_nat (length signedBundles)) 0 [] w)
      as (w' & r & tr & Hrun & Htrace & Hthr & _); [lia |].
    rewrite Hrun. exists tr. split; [| exact Hthr].
    destruct r; exact Htrace.
  - rewrite (executeMoonBuy_not_prepared _ _ _ _ _ _ Hprep).
    exists []. now rewrite app_nil_r.
Qed.

End WithLibrary.

(** *** The custom-buy path *)

Lemma settleEvents_quiet {A} reqs (outcomes : list (Js.result A)) order :
  sentRequests (CustomBuy.settleEvents reqs outcomes order) = []
  /\ forall e, In e (CustomBuy.settleEvents reqs outcomes order) ->
               isThrottleEvent e = false.
Proof.
  induction order as [| k order [IHs IHt]]; cbn; [split; [reflexivity | tauto] |].
  destruct (reqs !! k) as [txs |]; [| auto].
  destruct (outcomes !! k) as [[v | err] |]; [| | auto]; cbn.
  - split; [exact IHs |]. intros e [<- | Hin]; [reflexivity | auto].
  - split; [reflexivity |]. intros e [<- | []]. reflexivity.
Qed.

Lemma sentRequests_starts reqs : sentRequests (map EvSendStart reqs) = reqs.
Proof. induction reqs as [| r reqs IH]; cbn; congruence. Qed.

(** C3, as stated, fails on the custom-buy path: with two signed bundles,
    [sendSignedTransactions] issues the second request before the first
    has settled, with no rate-limit check and no delay; its trace is not
    that of a throttled submission. *)
Lemma C3_custom_buy_sends_all_at_once :
  let w' := fst (CustomBuy.sendSignedTransactions
                   Fixture.quietEnv Fixture.twoBundles false Fixture.world0) in
  trace w' = [EvSendStart ["t1"]; EvSendStart ["t2"];
              EvSendEnd ["t1"] true; EvSendEnd ["t2"] true]
  /\ ~ throttled (map transactions Fixture.twoBundles) (trace w').
Proof.
  cbn. split; [reflexivity |].
  intros Hthr. inversion Hthr as [| | ? ? ? slept | ? ? ? slept];
    destruct slept; discriminate.
Qed.

(** C3, amended: the moon-buy path ([executeMoonBuy]) submits bundles
    sequentially, throttled: for every list of signed bundles, each request
    is preceded by a rate-limit check and has settled before the next is
    issued, and a timer of 500 ms follows every request that settled well
    except the last; a failed request ends the run.  The custom-buy path
    ([sendSignedTransactions]) issues the requests for all bundles at once,
    in list order, then waits for them together: it runs no rate-limit check
    and no timer. *)
Theorem C3_moon_buy_throttled_custom_buy_at_once `{Library} env :
  (forall wallets tokenConfig customAmounts w,
      exists tr,
        trace (fst (executeMoonBuy env wallets tokenConfig customAmounts w))
        = trace w ++ tr
        /\ match prepared env wallets with
           | Ok signedBundles => throttled (map transactions signedBundles) tr
           | Throw _ => tr = []
           end)
  /\ (forall signedBundles useRpcSetting w,
        exists tr,
          trace (fst (CustomBuy.sendSignedTransactions
                        env signedBundles useRpcSetting w))
          = trace w ++ tr
          /\ (forall e, In e tr -> isThrottleEvent e = false)
          /\ (tradingServerUrl env <> None ->
              exists settled,
                tr = map EvSendStart (map transactions signedBundles) ++ settled
                /\ sentRequests settled = [])).
Proof.
  split.
  - intros. apply executeMoonBuy_throttled.
  - intros signedBundles useRpcSetting w.
    unfold CustomBuy.sendSignedTransactions.
    destruct (tradingServerUrl env) as [url |]; cbn.
    + eexists. split; [reflexivity |]. split.
      * intros e [Hin | Hin]%in_app_iff.
        -- apply in_map_iff in Hin as (txs & <- & _). reflexivity.
        -- eapply settleEvents_quiet. exact Hin.
      * intros _. eexists. split; [reflexivity |]. apply settleEvents_quiet.
    + exists []. rewrite app_nil_r. split; [reflexivity |].
      split; [intros e [] | congruence].
Qed.

(** A run of the moon-buy path on two bundles, for comparison. *)
Example executeMoonBuy_two_bundles :
  trace (fst (executeMoonBuy (H := Fixture.toyLibrary) Fixture.quietEnv
                [mkWalletMoonBuy "A" "A"; mkWalletMoonBuy "B" "B"]
                (mkTokenConfig "T" one) None Fixture.world0))
  = [EvRateLimit; EvSendStart ["A:A"; "C:"]; EvSendEnd ["A:A"; "C:"] true;
     EvTimer 500;
     EvRateLimit; EvSendStart ["B:B"]; EvSendEnd ["B:B"] true].
Proof. vm_compute. reflexivity. Qed.

(** The same run when the first send fails: one request, no retry, and
    the failure comes back as a value. *)
Example executeMoonBuy_backend_down :
  executeMoonBuy (H := Fixture.toyLibrary) Fixture.downEnv
    [mkWalletMoonBuy "A" "A"; mkWalletMoonBuy "B" "B"]
    (mkTokenConfig "T" one) None Fixture.world0
  = (mkWorld (RateLimit.mkRateLimitState 1 5000 2) 1 1
             [EvRateLimit; EvSendStart ["A:A"; "C:"];
              EvSendEnd ["A:A"; "C:"] false],
     Ok (mkOutcome false None (Some "Failed to fetch"))).
Proof. vm_compute. reflexivity. Qed.

End MoonBuyFacts.

(** ** The custom-buy wizard *)

Module WizardFacts.

Import CustomBuy.

Lemma handleNext_inRange s : inRange s -> inRange (handleNext s).
Proof.
  unfold inRange, handleNext. intros Hs.
  destruct (_ && _); [exact Hs |].
  destruct (_ && _); [exact Hs |].
  cbn. lia.
Qed.

Lemma handleBack_inRange s : inRange s -> inRange (handleBack s).
Proof. unfold inRange, handleBack. cbn. lia. Qed.

(** [currentStep] stays within 0..2 whatever is clicked. *)
Lemma wizard_inRange clicks : forall s,
  inRange s -> inRange (fold_left handle clicks s).
Proof.
  induction clicks as [| c clicks IH]; intros s Hs; cbn; [exact Hs |].
  apply IH. destruct c; [now apply handleNext_inRange | now apply handleBack_inRange].
Qed.

(** [handleBack] changes the step and nothing else; in particular it
    leaves the confirmed flag as it is. *)
Lemma handleBack_frame s :
  handleBack s
  = mkWizard (Z.max (currentStep s - 1) 0) (selectedWallets s) (walletAmounts s)
             (isConfirmed s) (toasts s).
Proof. reflexivity. Qed.

Lemma handleNext_step0 s :
  currentStep s = 0 ->
  (selectedWallets s = [] ->
   handleNext s = showToast "Please select at least one wallet" "error" s)
  /\ (selectedWallets s <> [] ->
      handleNext s
      = mkWizard 1 (selectedWallets s) (walletAmounts s) (isConfirmed s) (toasts s)).
Proof.
  intros H0. unfold handleNext. rewrite H0. cbn. split.
  - intros ->. reflexivity.
  - intros Hne. destruct (selectedWallets s) eqn:Hsel; [congruence |].
    cbn. unfold setCurrentStep. rewrite H0, Hsel. reflexivity.
Qed.

Lemma handleNext_step1 s :
  currentStep s = 1 ->
  (hasInvalidAmount (walletAmounts s) = true ->
   handleNext s = showToast "Please enter valid amounts for all wallets" "error" s)
  /\ (hasInvalidAmount (walletAmounts s) = false ->
      handleNext s
      = mkWizard 2 (selectedWallets s) (walletAmounts s) (isConfirmed s) (toasts s)).
Proof.
  intros H1. unfold handleNext. rewrite H1. cbn. split.
  - intros ->. reflexivity.
  - intros ->. unfold setCurrentStep. rewrite H1. reflexivity.
Qed.

(** At the last step [handleNext] has nowhere to go. *)
Lemma handleNext_last s :
  currentStep s = 2 -> handleNext s = s.
Proof.
  intros H2. unfold handleNext, setCurrentStep. rewrite H2. cbn.
  destruct s; cbn in *. now subst.
Qed.

Lemma hasInvalidAmount_spec (m : gmap string string) :
  hasInvalidAmount m = true
  <-> exists k amount, m !! k = Some amount /\ invalidAmount amount = true.
Proof.
  unfold hasInvalidAmount. rewrite existsb_exists. split.
  - intros (amount & Hin & Hinv). apply in_map_iff in Hin as ([k a] & <- & Hin).
    exists k, a. split; [| exact Hinv].
    apply elem_of_map_to_list. now apply list_elem_of_In.
  - intros (k & amount & Hk & Hinv). exists amount. split; [| exact Hinv].
    apply in_map_iff. exists (k, amount). split; [reflexivity |].
    apply list_elem_of_In. now apply elem_of_map_to_list.
Qed.

(** Away from [NaN], the test of the code is the test of the
    specification. *)
Lemma invalidAmount_positive amount :
  isNaN (parseFloat amount) = false ->
  invalidAmount amount = false <-> positiveAmount amount = true.
Proof.
  unfold invalidAmount, positiveAmount, le, lt, SFleb, SFltb, zero.
  intros Hnan.
  destruct (String.eqb_spec amount "") as [-> | Hne]; [discriminate Hnan |].
  cbn [orb].
  destruct (parseFloat amount) as [[] | [] | | [] m e]; cbn in *;
    try discriminate; split; congruence.
Qed.

Example parseFloat_examples :
  parseFloat "0.1" = S754_finite false 7205759403792794 (-56)
  /\ parseFloat "1" = one
  /\ parseFloat "0" = zero
  /\ parseFloat "5." = S754_finite false 5629499534213120 (-50)
  /\ parseFloat " -1.25e1x" = S754_finite true 7036874417766400 (-49)
  /\ parseFloat "abc" = NaN
  /\ parseFloat "" = NaN.
Proof. vm_compute. repeat split. Qed.

Example handleNext_examples :
  handleNext (mkWizard 0 [] ∅ false [])
    = mkWizard 0 [] ∅ false [("Please select at least one wallet", "error")]
  /\ handleNext (mkWizard 1 ["key1"] {[ "key1" := "0.1" ]} false [])
    = mkWizard 2 ["key1"] {[ "key1" := "0.1" ]} false []
  /\ handleNext (mkWizard 1 ["key1"] {[ "key1" := "0" ]} false [])
    = mkWizard 1 ["key1"] {[ "key1" := "0" ]} false
               [("Please enter valid amounts for all wallets", "error")]
  /\ handleBack (mkWizard 2 ["key1"] {[ "key1" := "0.1" ]} true [])
    = mkWizard 1 ["key1"] {[ "key1" := "0.1" ]} true [].
Proof. repeat split. Qed.

(** C7, where the code departs from it: at step 1 a lone dot in an
    amount field passes the validation, and [handleNext] moves on to the
    review step, although the amount parses to [NaN], which is not a value
    strictly greater than 0.  The test [parseFloat(amount) <= 0] is false on
    [NaN]. *)
Theorem C7_handleNext_accepts_amount_that_is_NaN :
  parseFloat "." = NaN
  /\ positiveAmount "." = false
  /\ invalidAmount "." = false
  /\ handleNext Fixture.dotTyped
     = mkWizard 2 ["key1"] {[ "key1" := "." ]} false [].
Proof.
  split; [reflexivity | split; [reflexivity | split; [reflexivity |]]].
  assert (Hinv : hasInvalidAmount (walletAmounts Fixture.dotTyped) = false).
  { unfold hasInvalidAmount, Fixture.dotTyped. cbn [walletAmounts].
    rewrite map_to_list_singleton. reflexivity. }
  destruct (handleNext_step1 Fixture.dotTyped eq_refl) as [_ Hgo].
  rewrite (Hgo Hinv). reflexivity.
Qed.

End WizardFacts.

(** ** The wallet store *)

Module AppFacts.

Import App.

Lemma exists_address_spec ws a :
  exists_address ws a = true <-> In a (map address ws).
Proof.
  unfold exists_address. rewrite existsb_exists, in_map_iff. split.
  - intros (w & Hin & Heq). apply String.eqb_eq in Heq. eauto.
  - intros (w & Heq & Hin). exists w. split; [assumption |]. now apply String.eqb_eq.
Qed.

Lemma distinct_snoc (ws : list WalletType) w :
  List.NoDup (map address ws) ->
  exists_address ws (address w) = false ->
  List.NoDup (map address (ws ++ [w])).
Proof.
  intros Hnd Hnew. rewrite map_app. cbn.
  apply NoDup_ListNoDup, NoDup_app. repeat split.
  - now apply NoDup_ListNoDup.
  - intros a Ha [<- | []]%list_elem_of_In.
    apply list_elem_of_In, exists_address_spec in Ha. congruence.
  - apply NoDup_ListNoDup. repeat constructor. cbn. tauto.
Qed.

(** The wallet list after [handleImportWallet]: as before, or with one
    wallet more, whose address no held wallet has. *)
Lemma handleImportWallet_wallets chain s :
  wallets (handleImportWallet chain s) = wallets s
  \/ exists w, wallets (handleImportWallet chain s) = wallets s ++ [w]
               /\ exists_address (wallets s) (address w) = false.
Proof.
  unfold handleImportWallet.
  destruct (_ || _); [now left |].
  destruct (importWallet chain _ _) as [r | e]; [| now left].
  destruct (hasError (error r)); [now left |].
  destruct (wallet r) as [w |]; [| now left].
  cbn [wallets countImport].
  destruct (exists_address (wallets s) (address w)) eqn:Hex; [now left |].
  right. exists w. split; [| exact Hex].
  destruct (fetchSolBalance chain (address w)); [| reflexivity].
  destruct (if negb _ then _ else _); reflexivity.
Qed.

(** The single-key import keeps the addresses pairwise distinct. *)
Lemma handleImportWallet_distinct chain s :
  List.NoDup (map address (wallets s)) ->
  List.NoDup (map address (wallets (handleImportWallet chain s))).
Proof.
  intros Hnd.
  destruct (handleImportWallet_wallets chain s) as [-> | (w & -> & Hnew)];
    [assumption | now apply distinct_snoc].
Qed.

(** The file import compares each wallet with the wallets held when the
    handler started, never with the wallets imported earlier in the same
    file. *)
Lemma importLoop_new chain held token : forall foundKeys k imported sol tok w,
  (forall x, In x imported -> exists_address held (address x) = false) ->
  In w (fst (fst (importLoop chain held token foundKeys k imported sol tok))) ->
  exists_address held (address w) = false.
Proof.
  induction foundKeys as [| key rest IH]; intros k imported sol tok w Himp; cbn.
  - apply Himp.
  - destruct (importWallet chain k key) as [r | e]; [| now apply IH].
    destruct (hasError (error r)); [now apply IH |].
    destruct (wallet r) as [x |]; [| now apply IH].
    destruct (exists_address held (address x)) eqn:Hex; [now apply IH |].
    assert (Himp' : forall y, In y (imported ++ [x]) ->
                              exists_address held (address y) = false).
    { intros y [Hy | [<- | []]]%in_app_iff; auto. }
    destruct (fetchSolBalance chain (address x)); [| now apply IH].
    destruct (if negb _ then _ else _); now apply IH.
Qed.

(** C8, where the code departs from it: a file that holds the same
    private key on two lines imports the wallet twice.  Each line is
    compared with the wallets held before the import, not with the wallets
    the same import has collected, so the wallet list, pairwise distinct
    before, holds the address twice afterwards. *)
Theorem C8_file_import_adds_a_repeated_key_twice :
  let before := Fixture.emptyApp in
  let after := handleFileUpload Fixture.toyChain ["K"; "K"] before in
  List.NoDup (map address (wallets before))
  /\ map address (wallets after) = ["K"; "K"]
  /\ ~ List.NoDup (map address (wallets after)).
Proof.
  cbn zeta.
  assert (Hafter : map address (wallets (handleFileUpload Fixture.toyChain ["K"; "K"]
                                            Fixture.emptyApp)) = ["K"; "K"])
    by reflexivity.
  split; [constructor | split; [exact Hafter |]].
  rewrite Hafter. intros Hnd. inversion Hnd as [| ? ? Hnotin _]; subst.
  apply Hnotin. now left.
Qed.

(** What [deleteWallet] keeps. *)
Lemma deleteWallet_in ws i w :
  In w (deleteWallet ws i) <-> In w ws /\ id w <> i.
Proof.
  unfold deleteWallet. rewrite filter_In, negb_true_iff, Z.eqb_neq. reflexivity.
Qed.

Lemma find_id_none ws i :
  List.find (fun w => id w =? i) ws = None <-> forall w, In w ws -> id w <> i.
Proof.
  split.
  - intros Hf w Hin. apply (find_none _ _ Hf) in Hin. now apply Z.eqb_neq.
  - intros Hall. destruct (List.find _ ws) as [w |] eqn:Hf; [| reflexivity].
    apply find_some in Hf as [Hin Heq]. apply Z.eqb_eq in Heq.
    now apply Hall in Hin.
Qed.

(** C9: [handleDeleteWallet] removes from the wallet list exactly the
    wallets with the given id, keeping the others as they are and in their
    order; it deletes the address of the wallet found under that id, and
    only that address, from the SOL balance map and from the token balance
    map, so the entry of every other address is unchanged in both; when no
    wallet has the id, the wallet list and both maps are unchanged.  Nothing
    else in the state changes. *)
Theorem C9_handleDeleteWallet_frame (i : Z) (s : State) :
  let s' := handleDeleteWallet i s in
  wallets s' = deleteWallet (wallets s) i
  /\ (forall w, In w (wallets s') <-> In w (wallets s) /\ id w <> i)
  /\ (forall w, List.find (fun w => id w =? i) (wallets s) = Some w ->
        In w (wallets s) /\ id w = i
        /\ solBalances s' = delete (address w) (solBalances s)
        /\ tokenBalances s' = delete (address w) (tokenBalances s)
        /\ solBalances s' !! address w = None
        /\ tokenBalances s' !! address w = None
        /\ forall a, a <> address w ->
             solBalances s' !! a = solBalances s !! a
             /\ tokenBalances s' !! a = tokenBalances s !! a)
  /\ ((exists w, In w (wallets s) /\ id w = i) ->
      exists w, List.find (fun w => id w =? i) (wallets s) = Some w)
  /\ ((forall w, In w (wallets s) -> id w <> i) ->
      wallets s' = wallets s
      /\ solBalances s' = solBalances s
      /\ tokenBalances s' = tokenBalances s)
  /\ (connection s', tokenAddress s', importKey s', importError s', isImporting s')
     = (connection s, tokenAddress s, importKey s, importError s, isImporting s).
Proof.
  intros s'. subst s'. unfold handleDeleteWallet.
  destruct (List.find (fun w => id w =? i) (wallets s)) as [found |] eqn:Hfind.
  - cbn. split; [reflexivity |]. split; [intros w; apply deleteWallet_in |].
    split; [| split; [| split; [| reflexivity]]].
    + intros w [= <-]. apply find_some in Hfind as [Hin Heq].
      apply Z.eqb_eq in Heq.
      repeat split; try assumption.
      * apply lookup_delete_eq.
      * apply lookup_delete_eq.
      * now apply lookup_delete_ne.
      * now apply lookup_delete_ne.
    + intros _. eauto.
    + intros Hall. apply find_some in Hfind as [Hin Heq].
      apply Z.eqb_eq in Heq. now apply Hall in Hin.
  - cbn. split; [reflexivity |]. split; [intros w; apply deleteWallet_in |].
    split; [discriminate |]. split; [| split; [| reflexivity]].
    + intros (w & Hin & Heq).
      pose proof (proj1 (find_id_none _ _) Hfind w Hin) as Hne. contradiction.
    + intros Hall. repeat split. unfold deleteWallet.
      apply forallb_filter_id. apply forallb_forall. intros w Hin.
      apply negb_true_iff, Z.eqb_neq. now apply Hall.
Qed.

End AppFacts.

(** ** The rate limiter under the delay of the send loop *)

Module RateLimitRunFacts.

Import RateLimit RateLimitRun RateLimitFacts.

(** What the spacing keeps true between two calls: the window start lies
    at least 500 ms per counted call before the earliest time of the next
    call. *)
Lemma spaced_calls_keep_room calls : forall s from,
  maxBundlesPerSecond s = MAX_BUNDLES_PER_SECOND ->
  0 <= count s <= 2 ->
  lastReset s + 500 * count s <= from ->
  spaced 500 from calls ->
  Forall (fun d => d = None) (delays calls s).
Proof.
  induction calls as [| c calls IH]; intros s from Hmax Hcount Hroom Hsp; cbn.
  - constructor.
  - destruct Hsp as [Hfrom Hrest].
    destruct (Z_lt_le_dec (fst c - lastReset s) 1000) as [Hlt | Hge].
    + assert (Hc : count s < MAX_BUNDLES_PER_SECOND)
        by (unfold MAX_BUNDLES_PER_SECOND; lia).
      rewrite checkRateLimit_pass by assumption.
      constructor; [reflexivity |].
      apply (IH _ (fst c + 500)); cbn; try assumption; try reflexivity.
      * unfold MAX_BUNDLES_PER_SECOND in Hc. lia.
      * lia.
    + rewrite checkRateLimit_reset by assumption.
      constructor; [reflexivity |].
      apply (IH _ (fst c + 500)); cbn; try assumption; try reflexivity; lia.
Qed.

(** X1: calls of [checkRateLimit] that enter at least 500 ms apart, the
    first not before the module was loaded, never sleep: the delay the send
    loop of [executeMoonBuy] puts between two bundles already keeps a single
    run below the cap. *)
Theorem X1_calls_500ms_apart_never_sleep loaded (calls : list call) :
  spaced 500 loaded calls ->
  Forall (fun d => d = None) (delays calls (initial loaded)).
Proof.
  intros Hsp. apply (spaced_calls_keep_room calls (initial loaded) loaded);
    cbn; try reflexivity; try assumption; lia.
Qed.

(** X1 on four calls half a second apart, starting one second after the
    module was loaded. *)
Lemma X1_calls_500ms_apart_never_sleep_witness :
  delays [(1000, 1000); (1500, 1500); (2000, 2000); (2500, 2500)] (initial 0)
  = [None; None; None; None]
  /\ Forall (fun d => d = None)
            (delays [(1000, 1000); (1500, 1500); (2000, 2000); (2500, 2500)]
                    (initial 0)).
Proof.
  split; [reflexivity |].
  apply (X1_calls_500ms_apart_never_sleep 0). cbn. lia.
Defined.

End RateLimitRunFacts.

(** ** The custom-buy form *)

Module CustomBuyFormFacts.

Import CustomBuy CustomBuyForm.

Lemma includes_In key keys : includes key keys = true <-> In key keys.
Proof.
  unfold includes. rewrite existsb_exists. split.
  - intros (k & Hin & Heq). apply String.eqb_eq in Heq. now subst.
  - intros Hin. exists key. split; [assumption | apply String.eqb_refl].
Qed.

Lemma includes_not_In key keys : includes key keys = false <-> ~ In key keys.
Proof.
  rewrite <- includes_In. destruct (includes key keys); split; congruence.
Qed.

Lemma toggled_In key prev k :
  In k (toggled key prev)
  <-> (k <> key /\ In k prev) \/ (k = key /\ ~ In key prev).
Proof.
  unfold toggled. destruct (includes key prev) eqn:Hinc.
  - apply includes_In in Hinc. rewrite filter_In, negb_true_iff, String.eqb_neq.
    split.
    + intros [Hin Hne]. left. auto.
    + intros [[Hne Hin] | [-> Hnot]]; [auto | contradiction].
  - apply includes_not_In in Hinc. rewrite in_app_iff. cbn. split.
    + intros [Hin | [<- | []]]; [| right; auto].
      left. split; [| assumption]. intros ->. contradiction.
    + intros [[Hne Hin] | [-> Hnot]]; auto.
Qed.

(** X2: [toggleWalletSelection] flips the membership of the given key and
    of no other: a key that was not selected is appended at the end of the
    selection, a key that was selected is removed, every occurrence of it;
    the other keys stay as they were, in the same order.  It touches nothing
    but the selection, keeps a selection free of duplicates free of
    duplicates, and selecting then deselecting a key gives back the
    selection as it was. *)
Theorem X2_toggleWalletSelection_flips_one_key key (s : Wizard) :
  let s' := toggleWalletSelection key s in
  (In key (selectedWallets s') <-> ~ In key (selectedWallets s))
  /\ (forall k, k <> key ->
        (In k (selectedWallets s') <-> In k (selectedWallets s)))
  /\ (~ In key (selectedWallets s) ->
      selectedWallets s' = selectedWallets s ++ [key])
  /\ (In key (selectedWallets s) ->
      exists before after,
        selectedWallets s = before ++ key :: after
        /\ ~ In key before
        /\ selectedWallets s'
           = before ++ List.filter (fun k => negb (String.eqb k key)) after)
  /\ List.filter (fun k => negb (String.eqb k key)) (selectedWallets s')
     = List.filter (fun k => negb (String.eqb k key)) (selectedWallets s)
  /\ (List.NoDup (selectedWallets s) -> List.NoDup (selectedWallets s'))
  /\ (~ In key (selectedWallets s) ->
      toggleWalletSelection key s' = s)
  /\ (currentStep s', walletAmounts s', isConfirmed s', toasts s')
     = (currentStep s, walletAmounts s, isConfirmed s, toasts s).
Proof.
  cbn zeta. unfold toggleWalletSelection, setSelectedWallets.
  cbn [selectedWallets currentStep walletAmounts isConfirmed toasts].
  assert (Hothers : forall l : list string,
             ~ In key l -> List.filter (fun k => negb (String.eqb k key)) l = l).
  { intros l Hnot. apply forallb_filter_id, forallb_forall.
    intros k Hk. apply negb_true_iff, String.eqb_neq. intros ->. contradiction. }
  split; [| split; [| split; [| split; [| split; [| split; [| split;
    [| reflexivity]]]]]]].
  - rewrite toggled_In. split.
    + intros [[Hne _] | [_ Hnot]]; [congruence | assumption].
    + intros Hnot. right. auto.
  - intros k Hne. rewrite toggled_In. split.
    + intros [[_ Hin] | [Heq _]]; [assumption | congruence].
    + intros Hin. left. auto.
  - intros Hnot. unfold toggled.
    now rewrite (proj2 (includes_not_In key _) Hnot).
  - intros Hin. unfold toggled. rewrite (proj2 (includes_In key _) Hin).
    clear - Hin Hothers. induction (selectedWallets s) as [| x l IH]; [destruct Hin |].
    destruct (String.eqb_spec x key) as [-> | Hne].
    + exists [], l. cbn. rewrite String.eqb_refl. cbn. auto.
    + destruct Hin as [Heq | Hin]; [contradiction |].
      destruct (IH Hin) as (before & after & -> & Hnot & Hfilter).
      exists (x :: before), after. cbn.
      destruct (String.eqb_spec x key) as [Heq | _]; [contradiction |]. cbn.
      rewrite Hfilter. repeat split. intros [Heq | Hb]; [contradiction | auto].
  - unfold toggled. destruct (includes key (selectedWallets s)) eqn:Hinc.
    + clear. induction (selectedWallets s) as [| x l IH]; [reflexivity |].
      cbn. destruct (negb (String.eqb x key)) eqn:Hx; cbn; rewrite ?Hx, IH; reflexivity.
    + rewrite List.filter_app. cbn. rewrite String.eqb_refl. cbn. apply app_nil_r.
  - intros Hnd. unfold toggled. destruct (includes key (selectedWallets s)) eqn:Hinc.
    + now apply List.NoDup_filter.
    + apply includes_not_In in Hinc.
      apply NoDup_ListNoDup, NoDup_app. repeat split.
      * now apply NoDup_ListNoDup.
      * intros k Hk [<- | []]%list_elem_of_In. now apply list_elem_of_In in Hk.
      * apply NoDup_ListNoDup. repeat constructor. cbn. tauto.
  - intros Hnot. destruct s as [step sel amounts conf ts]. cbn in *. f_equal.
    unfold toggled at 2.
    rewrite (proj2 (includes_not_In key sel) Hnot).
    unfold toggled.
    assert (Hin : includes key (sel ++ [key]) = true)
      by (apply includes_In, in_app_iff; cbn; auto).
    rewrite Hin, List.filter_app. cbn. rewrite String.eqb_refl. cbn.
    rewrite app_nil_r. now apply Hothers.
Qed.

(** *** The amounts follow the selection *)

Lemma withDefaults_lookup selected : forall (amounts : gmap string string) k,
  withDefaults selected amounts !! k
  = if includes k selected then Some (defaulted (amounts !! k)) else amounts !! k.
Proof.
  induction selected as [| w selected IH]; intros amounts k; [reflexivity |].
  cbn [withDefaults fold_left]. fold (withDefaults selected).
  rewrite IH. cbn [includes existsb]. fold (includes k selected).
  destruct (String.eqb_spec k w) as [-> | Hne]; cbn [orb].
  - (* the wallet handled first *)
    destruct (amounts !! w) as [a |] eqn:Ha.
    + destruct (String.eqb_spec a "") as [-> | Hnonempty].
      * rewrite lookup_insert_eq. cbn. destruct (includes w selected); reflexivity.
      * rewrite Ha. cbn. destruct (String.eqb_spec a ""); [contradiction |].
        destruct (includes w selected); reflexivity.
    + rewrite lookup_insert_eq. cbn. destruct (includes w selected); reflexivity.
  - assert (Hsame :
      match amounts !! w with
      | Some amount => if String.eqb amount "" then <[w := "0.1"]> amounts else amounts
      | None => <[w := "0.1"]> amounts
      end !! k = amounts !! k).
    { destruct (amounts !! w) as [a |]; [destruct (String.eqb a "") |];
        try reflexivity; now apply lookup_insert_ne. }
    rewrite Hsame. reflexivity.
Qed.

Lemma deleteUnselected_lookup selected keys : forall (amounts : gmap string string) k,
  fold_left
    (fun acc wallet => if negb (includes wallet selected) then delete wallet acc else acc)
    keys amounts !! k
  = if negb (includes k selected) && includes k keys then None else amounts !! k.
Proof.
  induction keys as [| w keys IH]; intros amounts k; cbn [fold_left].
  - cbn. rewrite andb_false_r. reflexivity.
  - rewrite IH. cbn [includes existsb]. fold (includes k keys).
    destruct (String.eqb_spec k w) as [-> | Hne]; cbn [orb].
    + destruct (includes w selected) eqn:Hsel; cbn [negb andb]; [reflexivity |].
      rewrite lookup_delete_eq. destruct (includes w keys); reflexivity.
    + destruct (negb (includes k selected) && includes k keys); [reflexivity |].
      destruct (negb (includes w selected)); [| reflexivity].
      now apply lookup_delete_ne.
Qed.

Lemma withoutUnselected_lookup selected (amounts : gmap string string) k :
  withoutUnselected selected amounts !! k
  = if includes k selected then amounts !! k else None.
Proof.
  unfold withoutUnselected. rewrite deleteUnselected_lookup.
  destruct (includes k selected); cbn [negb andb]; [reflexivity |].
  destruct (includes k (map fst (map_to_list amounts))) eqn:Hkeys; [reflexivity |].
  destruct (amounts !! k) as [a |] eqn:Ha; [| reflexivity].
  exfalso. apply includes_not_In in Hkeys. apply Hkeys.
  apply in_map_iff. exists (k, a). split; [reflexivity |].
  apply list_elem_of_In. now apply elem_of_map_to_list.
Qed.

(** X3: after the effect that follows a change of the selection, the
    wallets with an amount are exactly the selected wallets; a selected
    wallet keeps the amount it had when that amount is not empty and gets
    ['0.1'] otherwise, so no amount is empty; nothing but the amounts
    changes. *)
Theorem X3_syncWalletAmounts_follows_selection (s : Wizard) :
  let s' := syncWalletAmounts s in
  (forall k,
      walletAmounts s' !! k
      = if includes k (selectedWallets s)
        then Some (match walletAmounts s !! k with
                   | Some amount => if String.eqb amount "" then "0.1" else amount
                   | None => "0.1"
                   end)
        else None)
  /\ (forall k, is_Some (walletAmounts s' !! k) <-> In k (selectedWallets s))
  /\ (forall k amount, walletAmounts s' !! k = Some amount -> amount <> "")
  /\ (currentStep s', selectedWallets s', isConfirmed s', toasts s')
     = (currentStep s, selectedWallets s, isConfirmed s, toasts s).
Proof.
  cbn zeta.
  assert (Hlookup : forall k,
    walletAmounts (syncWalletAmounts s) !! k
    = if includes k (selectedWallets s)
      then Some (defaulted (walletAmounts s !! k)) else None).
  { intros k. unfold syncWalletAmounts, setWalletAmounts. cbn [walletAmounts].
    rewrite withoutUnselected_lookup, withDefaults_lookup.
    destruct (includes k (selectedWallets s)); reflexivity. }
  split; [exact Hlookup | split; [| split; [| reflexivity]]].
  - intros k. rewrite Hlookup, <- includes_In.
    destruct (includes k (selectedWallets s)); split; intros Hx;
      try reflexivity; try discriminate; eauto.
    destruct Hx; discriminate.
  - intros k amount. rewrite Hlookup.
    destruct (includes k (selectedWallets s)); [| discriminate].
    intros [= <-]. unfold defaulted.
    destruct (walletAmounts s !! k) as [a |]; [| discriminate].
    destruct (String.eqb_spec a ""); [discriminate | assumption].
Qed.

(** *** One amount for all *)

Lemma setAll_lookup bulk selected : forall (amounts : gmap string string) k,
  fold_left (fun acc wallet => <[wallet := bulk]> acc) selected amounts !! k
  = if includes k selected then Some bulk else amounts !! k.
Proof.
  induction selected as [| w selected IH]; intros amounts k; [reflexivity |].
  cbn [fold_left]. rewrite IH. cbn [includes existsb]. fold (includes k selected).
  destruct (String.eqb_spec k w) as [-> | Hne]; cbn [orb].
  - rewrite lookup_insert_eq. destruct (includes w selected); reflexivity.
  - rewrite lookup_insert_ne by congruence. reflexivity.
Qed.

(** X4: [setAmountForAllWallets] does nothing when the bulk field is empty
    or parses to a value [<= 0]; otherwise it gives every selected wallet
    the text of the bulk field and leaves the other entries alone.  When
    only selected wallets have an amount (as after the effect above), the
    amounts then pass the validation of step 1. *)
Theorem X4_setAmountForAllWallets_sets_selected bulk (s : Wizard) :
  let s' := setAmountForAllWallets bulk s in
  (invalidAmount bulk = true -> s' = s)
  /\ (invalidAmount bulk = false ->
      (forall k, walletAmounts s' !! k
                 = if includes k (selectedWallets s) then Some bulk
                   else walletAmounts s !! k)
      /\ ((forall k, is_Some (walletAmounts s !! k) -> In k (selectedWallets s)) ->
          hasInvalidAmount (walletAmounts s') = false)
      /\ (currentStep s', selectedWallets s', isConfirmed s', toasts s')
         = (currentStep s, selectedWallets s, isConfirmed s, toasts s)).
Proof.
  cbn zeta. unfold setAmountForAllWallets, invalidAmount. split.
  - intros ->. reflexivity.
  - intros Hok. rewrite Hok. unfold setWalletAmounts.
    cbn [walletAmounts currentStep selectedWallets isConfirmed toasts].
    split; [intros k; apply setAll_lookup | split; [| reflexivity]].
    intros Hdom.
    destruct (hasInvalidAmount _) eqn:Hinv; [| reflexivity].
    apply WizardFacts.hasInvalidAmount_spec in Hinv as (k & a & Hk & Ha).
    rewrite setAll_lookup in Hk.
    destruct (includes k (selectedWallets s)) eqn:Hsel.
    + injection Hk as <-. unfold invalidAmount in Ha. congruence.
    + apply includes_not_In in Hsel. exfalso. apply Hsel, Hdom. eauto.
Qed.

End CustomBuyFormFacts.

(** ** The amount field and the validation of step 1 *)

Module AmountFieldFacts.

Import CustomBuy CustomBuyForm.

(** *** Rounding a non-negative ratio never gives [NaN] *)

Lemma shr_1_nonneg mrs : 0 <= shr_m mrs -> 0 <= shr_m (shr_1 mrs).
Proof.
  destruct mrs as [m r s]. cbn.
  destruct m as [| [p | p |] | p]; cbn; lia.
Qed.

Lemma iter_shr_1_nonneg p : forall mrs,
  0 <= shr_m mrs -> 0 <= shr_m (SpecFloat.iter_pos shr_1 p mrs).
Proof.
  induction p as [p IH | p IH |]; intros mrs Hm; cbn.
  - apply IH, IH. now apply shr_1_nonneg.
  - now apply IH, IH.
  - now apply shr_1_nonneg.
Qed.

Lemma shr_fexp_nonneg m e l :
  0 <= m -> 0 <= shr_m (fst (shr_fexp 53 1024 m e l)).
Proof.
  intros Hm. unfold shr_fexp, shr.
  assert (H0 : 0 <= shr_m (shr_record_of_loc m l))
    by (destruct l as [| []]; cbn; assumption).
  destruct (fexp 53 1024 (Zdigits2 m + e) - e); cbn; try assumption.
  now apply iter_shr_1_nonneg.
Qed.

Lemma round_nearest_even_nonneg m l : 0 <= m -> 0 <= round_nearest_even m l.
Proof. destruct l as [| []]; cbn; try destruct (Z.even m); lia. Qed.

Lemma binary_round_aux_number sx mx ex lx :
  0 <= mx -> isNaN (binary_round_aux 53 1024 sx mx ex lx) = false.
Proof.
  intros Hm. unfold binary_round_aux.
  pose proof (shr_fexp_nonneg mx ex lx Hm) as H1.
  destruct (shr_fexp 53 1024 mx ex lx) as [mrs' e']. cbn [fst] in H1.
  pose proof (shr_fexp_nonneg _ e' loc_Exact
                (round_nearest_even_nonneg _ (loc_of_shr_record mrs') H1)) as H2.
  destruct (shr_fexp 53 1024 _ e' loc_Exact) as [mrs'' e'']. cbn [fst] in H2.
  destruct (shr_m mrs'') as [| m | m]; [reflexivity | | lia].
  destruct (e'' <=? 1024 - 53); reflexivity.
Qed.

Lemma roundRatio_number neg p q :
  0 <= p -> 0 < q -> isNaN (roundRatio neg p q) = false.
Proof.
  intros Hp Hq. unfold roundRatio.
  destruct (p =? 0); [reflexivity |].
  apply binary_round_aux_number.
  destruct (Z.ltb_spec (Z.log2 p - Z.log2 q - 56) 0) as [Hneg | Hpos].
  - apply Z.div_pos; [| assumption].
    apply Z.mul_nonneg_nonneg; [assumption |]. apply Z.pow_nonneg. lia.
  - apply Z.div_pos; [assumption |].
    apply Z.mul_pos_pos; [assumption |]. apply Z.pow_pos_nonneg; lia.
Qed.

Lemma decimalToNumber_number neg m e10 :
  0 <= m -> isNaN (decimalToNumber neg m e10) = false.
Proof.
  intros Hm. unfold decimalToNumber.
  destruct (Z.geb_spec e10 0) as [Hge | Hlt].
  - apply roundRatio_number; [| lia].
    apply Z.mul_nonneg_nonneg; [assumption |]. apply Z.pow_nonneg. lia.
  - apply roundRatio_number; [assumption |]. apply Z.pow_pos_nonneg; lia.
Qed.

(** *** Runs of digits *)

Lemma takeDigits_app cs : forall ds tail,
  takeDigits cs = (ds, tail) -> cs = ds ++ tail.
Proof.
  induction cs as [| c cs IH]; intros ds tail; cbn.
  - now intros [= <- <-].
  - destruct (isDigit c).
    + destruct (takeDigits cs) as [ds' tail'].
      intros [= <- <-]. cbn. f_equal. now apply IH.
    + now intros [= <- <-].
Qed.

Lemma takeDigits_digits cs : forall ds tail,
  takeDigits cs = (ds, tail) -> Forall (fun c => isDigit c = true) ds.
Proof.
  induction cs as [| c cs IH]; intros ds tail; cbn.
  - intros [= <- <-]. constructor.
  - destruct (isDigit c) eqn:Hc.
    + destruct (takeDigits cs) as [ds' tail'] eqn:Hrest.
      intros [= <- <-]. constructor; [assumption |]. eapply IH. reflexivity.
    + intros [= <- <-]. constructor.
Qed.

(** What follows a run of digits does not start with a digit. *)
Lemma takeDigits_tail cs : forall ds tail,
  takeDigits cs = (ds, tail) ->
  match tail with
  | c :: _ => isDigit c = false
  | [] => True
  end.
Proof.
  induction cs as [| c cs IH]; intros ds tail; cbn.
  - now intros [= <- <-].
  - destruct (isDigit c) eqn:Hc.
    + destruct (takeDigits cs) as [ds' tail'] eqn:Hrest.
      intros [= <- <-]. eapply IH. reflexivity.
    + now intros [= <- <-].
Qed.

Lemma takeDigits_no_digit c cs :
  isDigit c = false -> takeDigits (c :: cs) = ([], c :: cs).
Proof. intros Hc. cbn. rewrite Hc. reflexivity. Qed.

Lemma digitValue_nonneg c : isDigit c = true -> 0 <= digitValue c.
Proof.
  unfold isDigit, digitValue. intros [Hlo _]%andb_true_iff.
  apply Z.leb_le in Hlo. lia.
Qed.

Lemma digitsValue_nonneg ds :
  Forall (fun c => isDigit c = true) ds -> 0 <= digitsValue ds.
Proof.
  unfold digitsValue. intros Hds.
  assert (Hacc : forall acc, 0 <= acc ->
            0 <= fold_left (fun acc d => 10 * acc + digitValue d) ds acc).
  { induction Hds as [| c ds Hc _ IH]; intros acc Hacc; cbn; [assumption |].
    apply IH. pose proof (digitValue_nonneg c Hc). lia. }
  apply Hacc. lia.
Qed.

(** A digit or a dot is no white space, no sign, and not the [I] of
    [Infinity]. *)
Lemma plain_char c :
  isDigit c || Ascii.eqb c "."%char = true ->
  isWhiteSpace c = false
  /\ Ascii.eqb c "-"%char = false
  /\ Ascii.eqb c "+"%char = false
  /\ Ascii.eqb "I"%char c = false.
Proof.
  destruct c as [[] [] [] [] [] [] [] []]; intros Hc;
    try discriminate Hc; repeat split; reflexivity.
Qed.

(** *** What the amount field lets through *)

Lemma parseFloat_plain value :
  match list_ascii_of_string value with
  | [] => True
  | c :: _ => isDigit c || Ascii.eqb c "."%char = true
  end ->
  parseFloat value
  = let '(ip, cs1) := takeDigits (list_ascii_of_string value) in
    let '(fp, cs2) :=
      match cs1 with
      | c :: rest => if Ascii.eqb c "."%char then takeDigits rest else ([], cs1)
      | [] => ([], cs1)
      end in
    match ip, fp with
    | [], [] => NaN
    | _, _ =>
        decimalToNumber false (digitsValue (ip ++ fp))
                        (exponentPart cs2 - Z.of_nat (length fp))
    end.
Proof.
  unfold parseFloat.
  destruct (list_ascii_of_string value) as [| c rest]; [reflexivity |].
  intros Hplain. destruct (plain_char c Hplain) as (Hws & Hminus & Hplus & HI).
  cbn [skipWhiteSpace]. rewrite Hws, Hminus, Hplus.
  cbn [startsWith list_ascii_of_string]. rewrite HI. reflexivity.
Qed.

(** A text the field accepts is a run of digits, or two runs of digits
    around one dot; [parseFloat] reads all of it. *)
Lemma amountPattern_parse value :
  amountPattern value = true ->
  exists ip dot fp,
    list_ascii_of_string value = ip ++ dot ++ fp
    /\ (dot = [] /\ fp = [] \/ dot = ["."%char])
    /\ Forall (fun c => isDigit c = true) ip
    /\ Forall (fun c => isDigit c = true) fp
    /\ parseFloat value
       = match ip, fp with
         | [], [] => NaN
         | _, _ =>
             decimalToNumber false (digitsValue (ip ++ fp))
                             (0 - Z.of_nat (length fp))
         end.
Proof.
  intros Hpat.
  assert (Hplain : match list_ascii_of_string value with
                   | [] => True
                   | c :: _ => isDigit c || Ascii.eqb c "."%char = true
                   end).
  { unfold amountPattern in Hpat.
    destruct (list_ascii_of_string value) as [| c rest]; [exact I |].
    destruct (isDigit c) eqn:Hc; [reflexivity |]. cbn [orb].
    rewrite (takeDigits_no_digit c rest Hc) in Hpat.
    destruct (Ascii.eqb c "."%char); [reflexivity |].
    rewrite (takeDigits_no_digit c rest Hc) in Hpat. discriminate. }
  rewrite (parseFloat_plain value Hplain). clear Hplain.
  unfold amountPattern in Hpat.
  destruct (takeDigits (list_ascii_of_string value)) as [ip cs1] eqn:Hip.
  pose proof (takeDigits_app _ _ _ Hip) as Happ.
  pose proof (takeDigits_digits _ _ _ Hip) as Hdig.
  pose proof (takeDigits_tail _ _ _ Hip) as Htail.
  destruct cs1 as [| c1 rest1].
  - exists ip, [], []. cbn. rewrite app_nil_r in *.
    repeat split; auto.
  - destruct (Ascii.eqb_spec c1 "."%char) as [-> | Hnodot].
    + destruct (takeDigits rest1) as [fp tail] eqn:Hfp.
      destruct tail; [| discriminate].
      pose proof (takeDigits_app _ _ _ Hfp) as Happ2. rewrite app_nil_r in Happ2.
      pose proof (takeDigits_digits _ _ _ Hfp) as Hdig2.
      exists ip, ["."%char], fp. subst rest1. cbn.
      repeat split; auto.
    + rewrite (takeDigits_no_digit c1 rest1 Htail) in Hpat. discriminate.
Qed.

Lemma list_ascii_inj s1 s2 :
  list_ascii_of_string s1 = list_ascii_of_string s2 -> s1 = s2.
Proof.
  intros Heq. rewrite <- (string_of_list_ascii_of_string s1),
                      <- (string_of_list_ascii_of_string s2).
  now f_equal.
Qed.

(** X5: among the texts the amount field accepts, [parseFloat] gives
    [NaN] exactly on the empty text and on the lone dot.  So for every
    accepted text other than the lone dot, the validation of step 1 lets the
    amount through exactly when it parses to a value strictly greater than
    0; the lone dot is let through although it parses to [NaN].  An accepted
    text becomes the amount of the wallet it is typed for and of that wallet
    only: the amounts of the other wallets, the selection, the step, the
    confirmation and the toasts stay as they were.  A text the field does
    not accept changes nothing. *)
Theorem X5_amount_field_meets_validation value :
  amountPattern value = true ->
  (isNaN (parseFloat value) = true <-> value = "" \/ value = ".")
  /\ (value <> "." ->
      (invalidAmount value = false <-> positiveAmount value = true))
  /\ (value = "." -> invalidAmount value = false /\ positiveAmount value = false)
  /\ (forall wallet s,
        walletAmounts (handleWalletAmountChange wallet value s) !! wallet
        = Some value)
  /\ (forall wallet s other,
        other <> wallet ->
        walletAmounts (handleWalletAmountChange wallet value s) !! other
        = walletAmounts s !! other)
  /\ (forall wallet s,
        (currentStep (handleWalletAmountChange wallet value s),
         selectedWallets (handleWalletAmountChange wallet value s),
         isConfirmed (handleWalletAmountChange wallet value s),
         toasts (handleWalletAmountChange wallet value s))
        = (currentStep s, selectedWallets s, isConfirmed s, toasts s))
  /\ (forall refused wallet s,
        amountPattern refused = false ->
        handleWalletAmountChange wallet refused s = s).
Proof.
  intros Hpat.
  assert (Hnan : isNaN (parseFloat value) = true <-> value = "" \/ value = ".").
  { destruct (amountPattern_parse value Hpat)
      as (ip & dot & fp & Hcs & Hdot & Hip & Hfp & Hparse).
    rewrite Hparse. split.
    - intros Hn.
      destruct ip as [| c ip], fp as [| d fp].
      + destruct Hdot as [[-> _] | ->]; [left | right];
          apply list_ascii_inj; rewrite Hcs; reflexivity.
      + rewrite decimalToNumber_number in Hn; [discriminate |].
        apply digitsValue_nonneg. cbn. assumption.
      + rewrite decimalToNumber_number in Hn; [discriminate |].
        apply digitsValue_nonneg. rewrite app_nil_r. assumption.
      + rewrite decimalToNumber_number in Hn; [discriminate |].
        apply digitsValue_nonneg. apply Forall_app. split; assumption.
    - intros [-> | ->].
      + assert (Hnil : ip ++ dot ++ fp = []) by (rewrite <- Hcs; reflexivity).
        apply app_eq_nil in Hnil as [-> Hnil]. apply app_eq_nil in Hnil as [_ ->].
        reflexivity.
      + assert (Hone : ip ++ dot ++ fp = ["."%char]) by (rewrite <- Hcs; reflexivity).
        destruct ip as [| c ip].
        * destruct Hdot as [[-> ->] | ->]; [discriminate Hone |].
          cbn in Hone. injection Hone as ->. reflexivity.
        * cbn in Hone. injection Hone as -> Hrest.
          inversion Hip as [| ? ? Hc _]. discriminate Hc. }
  split; [exact Hnan | split; [| split; [| split; [| split; [| split]]]]].
  - intros Hnodot.
    destruct (String.eqb_spec value "") as [-> | Hnonempty].
    + split; discriminate.
    + apply WizardFacts.invalidAmount_positive.
      destruct (isNaN (parseFloat value)) eqn:Hn; [| reflexivity].
      destruct (proj1 Hnan eq_refl) as [? | ?]; contradiction.
  - intros ->. split; reflexivity.
  - intros wallet s. unfold handleWalletAmountChange. rewrite Hpat, orb_true_r.
    cbn. apply lookup_insert_eq.
  - intros wallet s other Hne. unfold handleWalletAmountChange.
    rewrite Hpat, orb_true_r. cbn. now apply lookup_insert_ne.
  - intros wallet s. unfold handleWalletAmountChange. rewrite Hpat, orb_true_r.
    reflexivity.
  - intros refused wallet s Hrefused. unfold handleWalletAmountChange.
    rewrite Hrefused, orb_false_r.
    destruct (String.eqb_spec refused "") as [-> | _]; [discriminate Hrefused |].
    reflexivity.
Qed.

(** X5 on an amount as it is typed: ["0"], then ["0."], then ["0.5"]. *)
Lemma X5_amount_field_meets_validation_witness :
  (invalidAmount "0.5" = false <-> positiveAmount "0.5" = true)
  /\ (invalidAmount "0." = false <-> positiveAmount "0." = true)
  /\ isNaN (parseFloat "0.5") = false.
Proof.
  destruct (X5_amount_field_meets_validation "0.5" eq_refl) as (Hnan & Hagree & _).
  destruct (X5_amount_field_meets_validation "0." eq_refl) as (_ & Hagree' & _).
  split; [apply Hagree; discriminate | split; [apply Hagree'; discriminate |]].
  reflexivity.
Defined.

End AmountFieldFacts.

(** ** Submitting a custom buy *)

Module CustomBuySubmitFacts.

Import Spec CustomBuy CustomBuyForm.

(** What [sendSignedTransactions] adds to the trace: one request per
    bundle, in list order, then the requests that settle. *)
Lemma sendSignedTransactions_run env signedBundles useRpcSetting w :
  exists tr,
    trace (fst (sendSignedTransactions env signedBundles useRpcSetting w))
    = trace w ++ tr
    /\ (forall e, In e tr -> isThrottleEvent e = false)
    /\ (sentRequests tr = [] \/ sentRequests tr = map transactions signedBundles).
Proof.
  unfold sendSignedTransactions.
  destruct (tradingServerUrl env) as [url |]; cbn.
  - eexists. split; [reflexivity |]. split.
    + intros e [Hin | Hin]%in_app_iff.
      * apply in_map_iff in Hin as (txs & <- & _). reflexivity.
      * eapply MoonBuyFacts.settleEvents_quiet. exact Hin.
    + right. rewrite MoonBuyFacts.sentRequests_app, MoonBuyFacts.sentRequests_starts.
      rewrite (proj1 (MoonBuyFacts.settleEvents_quiet _ _ _)). apply app_nil_r.
  - exists []. rewrite app_nil_r. split; [reflexivity |].
    split; [intros e [] | now left].
Qed.

Lemma mapR_all_ok {A} (values : list A) :
  mapR (fun o => o) (map Ok values) = Ok values.
Proof. induction values as [| v values IH]; cbn; [| rewrite IH]; reflexivity. Qed.

Lemma firstRejection_all_ok {A} (values : list A) order :
  firstRejection (map Ok values) order = None.
Proof.
  induction order as [| k order IH]; cbn; [reflexivity |].
  rewrite list_lookup_fmap. destruct (values !! k); cbn; exact IH.
Qed.

(** X6: when every request of [sendSignedTransactions] is answered with
    an [ok] response and a body, the call resolves to the bodies in the
    order of the bundles, one per bundle, in whatever order the requests
    settle. *)
Theorem X6_sendSignedTransactions_results_in_bundle_order
    env signedBundles useRpcSetting w bodies :
  tradingServerUrl env <> None ->
  Forall2 (fun request body =>
             exists st, sendResponse env (fst request) (snd request)
                        = Ok (mkResponse true st (Ok body)))
          (imap (fun i b => ((sends w + i)%nat, transactions b)) signedBundles)
          bodies ->
  snd (sendSignedTransactions env signedBundles useRpcSetting w) = Ok bodies
  /\ length bodies = length signedBundles
  /\ sentRequests
       (drop (length (trace w))
             (trace (fst (sendSignedTransactions env signedBundles useRpcSetting w))))
     = map transactions signedBundles.
Proof.
  intros Hurl Hall.
  assert (Houtcomes :
    imap (fun i txs => responseOutcome (sendResponse env (sends w + i)%nat txs))
         (map transactions signedBundles) = map Ok bodies).
  { revert bodies Hall. generalize (sends w) as k.
    induction signedBundles as [| b bundles IH]; intros k bodies Hall; cbn in *.
    - inversion Hall. reflexivity.
    - inversion Hall as [| ? body ? bodies' (st & Hresp) Hrest]; subst. cbn in *.
      rewrite Nat.add_0_r in Hresp. rewrite Nat.add_0_r, Hresp. cbn. f_equal.
      specialize (IH (S k) bodies').
      rewrite <- IH.
      + apply imap_ext. intros i txs _. cbn. now rewrite Nat.add_succ_r.
      + rewrite (imap_ext _ (fun i b0 => ((k + S i)%nat, transactions b0))).
        * exact Hrest.
        * intros i b0 _. now rewrite Nat.add_succ_r. }
  unfold sendSignedTransactions.
  destruct (tradingServerUrl env) as [url |]; [| contradiction].
  cbn [fst snd trace]. rewrite Houtcomes. split; [| split].
  - unfold promiseAll. rewrite firstRejection_all_ok. apply mapR_all_ok.
  - apply Forall2_length in Hall. rewrite length_imap in Hall. now symmetry.
  - rewrite drop_app_length.
    rewrite MoonBuyFacts.sentRequests_app, MoonBuyFacts.sentRequests_starts.
    rewrite (proj1 (MoonBuyFacts.settleEvents_quiet _ _ _)). apply app_nil_r.
Qed.

(** X6 with two bundles, both answered [null]. *)
Lemma X6_sendSignedTransactions_results_in_bundle_order_witness :
  snd (sendSignedTransactions Fixture.quietEnv Fixture.twoBundles false Fixture.world0)
  = Ok [VNull; VNull].
Proof.
  apply (X6_sendSignedTransactions_results_in_bundle_order
           Fixture.quietEnv Fixture.twoBundles false Fixture.world0 [VNull; VNull]).
  - discriminate.
  - repeat constructor; exists "200"; reflexivity.
Defined.

Section WithLibrary.
Context `{Library}.

(** X7: [handleCustomBuy] does nothing until the operation is confirmed.
    Once confirmed it never throws and always ends with [isSubmitting]
    cleared; it runs no rate-limit check and no timer and does not read the
    clock.  What it does follows its three steps.  When fetching the
    unsigned bundles throws, or signing one of them throws, nothing is sent,
    the world is as it was, one error toast carries the message of that
    throw and the form keeps its selection, amounts and step.  When both go
    through, every signed bundle is sent exactly once, in order; the
    operation then succeeds exactly when [sendSignedTransactions] resolves:
    the success toast is shown, the form reset, the modal closed and the
    balances refreshed; when it rejects, the error toast carries the message
    of the rejection and the form is kept. *)
Theorem X7_handleCustomBuy_outcomes env wallets m w :
  let selected := selectedWallets (wizard m) in
  let fetched :=
    getUnsignedTransactions env
      (map (getWalletAddressFromKey wallets) selected)
      (map (amountOf (walletAmounts (wizard m))) selected)
      (useRpc m) in
  let m' := fst (handleCustomBuy env wallets m w) in
  let w' := snd (handleCustomBuy env wallets m w) in
  let failed (e : Error) : Prop :=
    wizard m'
    = showToast ("Custom buy operation failed: " ++ message e)%string
                "error" (wizard m)
    /\ (closed m', refreshed m', useRpc m', bulkAmount m')
       = (closed m, refreshed m, useRpc m, bulkAmount m) in
  let succeeded : Prop :=
    wizard m'
    = mkWizard 0 [] ∅ false
        (toasts (wizard m)
         ++ [("Custom buy operation completed successfully", "success")])
    /\ closed m' = S (closed m) /\ refreshed m' = S (refreshed m) in
  (isConfirmed (wizard m) = false -> m' = m /\ w' = w)
  /\ (isConfirmed (wizard m) = true ->
      isSubmitting m' = false
      /\ limiter w' = limiter w
      /\ reads w' = reads w
      /\ match fetched with
         | Throw e => failed e /\ w' = w
         | Ok unsigned =>
             match mapR (fun bundle => signTransactions bundle selected) unsigned with
             | Throw e => failed e /\ w' = w
             | Ok signed =>
                 (exists tr,
                     trace w' = trace w ++ tr
                     /\ (forall ev, In ev tr -> isThrottleEvent ev = false)
                     /\ sentRequests tr = map transactions signed)
                 /\ sends w' = (sends w + length signed)%nat
                 /\ match snd (sendSignedTransactions env signed (useRpc m) w) with
                    | Ok _ => succeeded
                    | Throw e => failed e
                    end
             end
         end).
Proof.
  cbn zeta. unfold handleCustomBuy.
  destruct (isConfirmed (wizard m)) eqn:Hconf; cbn [negb].
  2: { split; [intros _; split; reflexivity | discriminate]. }
  split; [discriminate |]. intros _.
  unfold customBuy_try, bind, lift.
  cbn [wizard useRpc setIsSubmitting].
  destruct (getUnsignedTransactions env _ _ (useRpc m)) as [unsigned | e] eqn:Hget;
    [| cbn [fst snd]; repeat split].
  destruct (mapR _ unsigned) as [signed | e] eqn:Hsign;
    [| cbn [fst snd]; repeat split].
  assert (Hurl : tradingServerUrl env <> None).
  { intros Hnone. unfold getUnsignedTransactions in Hget. rewrite Hnone in Hget.
    discriminate Hget. }
  unfold sendSignedTransactions.
  destruct (tradingServerUrl env) as [url |]; [| contradiction].
  match goal with
  | |- context [promiseAll ?outcomes ?order] =>
      destruct (promiseAll outcomes order) as [results | e]
  end; cbn [fst snd limiter reads sends trace isSubmitting setIsSubmitting].
  - split; [reflexivity |]. split; [reflexivity |]. split; [reflexivity |].
    split; [| split; [now rewrite length_map | repeat split]].
    eexists. split; [reflexivity |]. split.
    + intros ev [Hin | Hin]%in_app_iff.
      * apply in_map_iff in Hin as (txs & <- & _). reflexivity.
      * eapply MoonBuyFacts.settleEvents_quiet. exact Hin.
    + rewrite MoonBuyFacts.sentRequests_app, MoonBuyFacts.sentRequests_starts.
      rewrite (proj1 (MoonBuyFacts.settleEvents_quiet _ _ _)). apply app_nil_r.
  - split; [reflexivity |]. split; [reflexivity |]. split; [reflexivity |].
    split; [| split; [now rewrite length_map | repeat split]].
    eexists. split; [reflexivity |]. split.
    + intros ev [Hin | Hin]%in_app_iff.
      * apply in_map_iff in Hin as (txs & <- & _). reflexivity.
      * eapply MoonBuyFacts.settleEvents_quiet. exact Hin.
    + rewrite MoonBuyFacts.sentRequests_app, MoonBuyFacts.sentRequests_starts.
      rewrite (proj1 (MoonBuyFacts.settleEvents_quiet _ _ _)). apply app_nil_r.
Qed.

End WithLibrary.

(** A confirmed custom buy against a backend that answers every request. *)
Example handleCustomBuy_success :
  handleCustomBuy (H := Fixture.toyLibrary) Fixture.quietEnv
                  [Sample.walletA] Sample.confirmedBuy Fixture.world0
  = (CustomBuyForm.mkModal
       (mkWizard 0 [] ∅ false
                 [("Custom buy operation completed successfully", "success")])
       false false "0.1" "" "address" "asc" "all" 1 1,
     mkWorld (RateLimit.initial 0) 0 2
             [EvSendStart ["A:A"; "C:"]; EvSendStart ["B:"];
              EvSendEnd ["A:A"; "C:"] true; EvSendEnd ["B:"] true]).
Proof. vm_compute. reflexivity. Qed.

End CustomBuySubmitFacts.

(** ** Moon buy: the answer of the backend, failures before sending *)

Module MoonBuyMoreFacts.

Import Spec MoonBuy.

Lemma wrapBundle_no_array bundle : isArray (wrapBundle bundle) = false.
Proof. unfold wrapBundle. destruct bundle; reflexivity. Qed.

Section WithLibrary.
Context `{Library}.

(** X8: [getPartiallyPreparedTransactions] hands bundles on only for an
    answer that is an object with a truthy [success]; none of the bundles it
    hands on is a plain array (a plain array is wrapped into
    [{ transactions }]).  An answer that is itself an array is always
    refused with ['Failed to get partially prepared transactions'], so the
    branch for that legacy format never runs. *)
Theorem X8_unwrapAnswer_normalises data bundles :
  unwrapAnswer data = Ok bundles ->
  (exists props, data = VObject props /\ truthy (assoc "success" props) = true)
  /\ Forall (fun bundle => isArray bundle = false) bundles
  /\ (forall elems,
        unwrapAnswer (VArray elems)
        = Throw (mkError "Failed to get partially prepared transactions")).
Proof.
  intros Hok. split; [| split; [| reflexivity]].
  - unfold unwrapAnswer in Hok.
    destruct data as [| | b | x | s | elems | props]; try discriminate Hok.
    exists props. split; [reflexivity |]. cbn in Hok.
    destruct (truthy (assoc "success" props)); [reflexivity | discriminate].
  - unfold unwrapAnswer in Hok.
    destruct data as [| | b | x | s | elems | props]; try discriminate Hok.
    cbn in Hok.
    destruct (truthy (assoc "success" props)); [| discriminate]. cbn in Hok.
    destruct (assoc "bundles" props) as [| | b | x | s | elems | props'];
      try (destruct (truthy (assoc "transactions" props)
                     && isArray (assoc "transactions" props));
           [injection Hok as <-; repeat constructor | discriminate Hok]).
    injection Hok as <-. apply List.Forall_forall. intros b Hb.
    apply in_map_iff in Hb as (e & <- & _). apply wrapBundle_no_array.
Qed.

(** A [map] over a list that holds an element on which the callback
    throws does throw. *)
Lemma mapR_In_throws {A B} (f : A -> Js.result B) x e : forall xs,
  In x xs -> f x = Throw e -> exists e', mapR f xs = Throw e'.
Proof.
  induction xs as [| y xs IH]; intros Hin Hx; [destruct Hin |].
  cbn. destruct (f y) as [b | e0] eqn:Hy; cbn; [| eauto].
  destruct Hin as [-> | Hin]; [congruence |].
  destruct (IH Hin Hx) as (e' & ->). cbn. eauto.
Qed.

(** X9: whatever fails before the send loop leaves the world as it was:
    no rate-limit slot is used, the clock is not read, nothing is sent, and
    the run resolves to a failure with the message of what was thrown.  That
    holds when fetching the bundles throws (a response that is not [ok]
    gives its status, whatever the wallets are), when a private key does not
    decode, and when signing one of the bundles throws, as on a bundle that
    is [null]: all bundles are signed before the first is sent.  Conversely,
    once every bundle is signed and there is one to send, the run starts
    with a rate-limit check. *)
Theorem X9_executeMoonBuy_fails_before_sending
    env wallets tokenConfig customAmounts w :
  (forall e,
      fetchedBundles env = Throw e ->
      executeMoonBuy env wallets tokenConfig customAmounts w
      = (w, Ok (mkOutcome false None (Some (message e)))))
  /\ (forall response,
        buyResponse env = Ok response -> ok response = false ->
        executeMoonBuy env wallets tokenConfig customAmounts w
        = (w, Ok (mkOutcome false None
                    (Some ("HTTP error! Status: " ++ status response)%string))))
  /\ (forall bundles e,
        fetchedBundles env = Ok bundles ->
        makeKeypairs (map privateKey wallets) = Throw e ->
        executeMoonBuy env wallets tokenConfig customAmounts w
        = (w, Ok (mkOutcome false None (Some (message e)))))
  /\ (forall bundles walletKeypairs e,
        fetchedBundles env = Ok bundles ->
        makeKeypairs (map privateKey wallets) = Ok walletKeypairs ->
        mapR (fun bundle => completeBundleSigning bundle walletKeypairs) bundles
        = Throw e ->
        executeMoonBuy env wallets tokenConfig customAmounts w
        = (w, Ok (mkOutcome false None (Some (message e)))))
  /\ (forall bundles,
        fetchedBundles env = Ok bundles ->
        In VNull bundles ->
        exists msg,
          executeMoonBuy env wallets tokenConfig customAmounts w
          = (w, Ok (mkOutcome false None (Some msg))))
  /\ (forall bundles walletKeypairs signedBundles,
        fetchedBundles env = Ok bundles ->
        makeKeypairs (map privateKey wallets) = Ok walletKeypairs ->
        mapR (fun bundle => completeBundleSigning bundle walletKeypairs) bundles
        = Ok signedBundles ->
        (signedBundles = [] ->
         executeMoonBuy env wallets tokenConfig customAmounts w
         = (w, Ok (mkOutcome true (Some []) None)))
        /\ (signedBundles <> [] ->
            exists tr,
              trace (fst (executeMoonBuy env wallets tokenConfig customAmounts w))
              = trace w ++ EvRateLimit :: tr)).
Proof.
  assert (Hfetch : forall e,
    fetchedBundles env = Throw e ->
    executeMoonBuy env wallets tokenConfig customAmounts w
    = (w, Ok (mkOutcome false None (Some (message e))))).
  { intros e Hthrown. apply MoonBuyFacts.executeMoonBuy_not_prepared.
    unfold prepared. rewrite Hthrown. reflexivity. }
  assert (Hkeys : forall bundles e,
    fetchedBundles env = Ok bundles ->
    makeKeypairs (map privateKey wallets) = Throw e ->
    executeMoonBuy env wallets tokenConfig customAmounts w
    = (w, Ok (mkOutcome false None (Some (message e))))).
  { intros bundles e Hfetched Hthrown. apply MoonBuyFacts.executeMoonBuy_not_prepared.
    unfold prepared. rewrite Hfetched. cbn. rewrite Hthrown. reflexivity. }
  assert (Hsign : forall bundles walletKeypairs e,
    fetchedBundles env = Ok bundles ->
    makeKeypairs (map privateKey wallets) = Ok walletKeypairs ->
    mapR (fun bundle => completeBundleSigning bundle walletKeypairs) bundles
    = Throw e ->
    executeMoonBuy env wallets tokenConfig customAmounts w
    = (w, Ok (mkOutcome false None (Some (message e))))).
  { intros bundles kps e Hfetched Hmade Hthrown.
    apply MoonBuyFacts.executeMoonBuy_not_prepared.
    unfold prepared. rewrite Hfetched. cbn. rewrite Hmade. cbn. exact Hthrown. }
  split; [exact Hfetch |]. split; [| split; [exact Hkeys |]].
  - intros response Hresp Hnok.
    apply (Hfetch (mkError ("HTTP error! Status: " ++ status response)%string)).
    unfold fetchedBundles. rewrite Hresp. cbn. rewrite Hnok. reflexivity.
  - split; [exact Hsign |]. split.
    + intros bundles Hfetched Hnull.
      destruct (makeKeypairs (map privateKey wallets)) as [kps | e] eqn:Hmade.
      * destruct (mapR_In_throws (fun bundle => completeBundleSigning bundle kps)
                    VNull (mkError "Cannot read properties of null or undefined")
                    bundles Hnull eq_refl) as (e' & Hthrown).
        exists (message e'). now apply (Hsign bundles kps).
      * exists (message e). now apply (Hkeys bundles).
    + intros bundles kps signedBundles Hfetched Hmade Hsigned.
      assert (Hprep : prepared env wallets = Ok signedBundles).
      { unfold prepared. rewrite Hfetched. cbn. rewrite Hmade. cbn. exact Hsigned. }
      rewrite (MoonBuyFacts.executeMoonBuy_prepared _ _ _ _ _ _ Hprep).
      split.
      * intros ->. reflexivity.
      * intros Hsome.
        destruct (MoonBuyFacts.sendLoop_run env signedBundles
                    (Z.of_nat (length signedBundles)) 0 [] w)
          as (w' & r & tr & Hrun & Htrace & Hthr & _); [lia |].
        rewrite Hrun.
        assert (Hfirst : exists rest, tr = EvRateLimit :: rest).
        { destruct signedBundles as [| b bs]; [contradiction |].
          inversion Hthr as [| ? slept ? | ? ? ? slept | ? ? ? slept ? ?];
            destruct slept; cbn; eauto. }
        destruct Hfirst as (rest & ->). exists rest.
        destruct r; exact Htrace.
Qed.

(** The loop finds the same keypairs among the held keypairs whose key
    is one of the account keys as among all of them. *)
Lemma collectSigners_related kps accountKeys : forall keys signers,
  (forall key, In key keys -> In key accountKeys) ->
  collectSigners
    (List.filter (fun kp => existsb (String.eqb (publicKey kp)) accountKeys) kps)
    keys signers
  = collectSigners kps keys signers.
Proof.
  induction keys as [| key keys IH]; intros signers Hsub; [reflexivity |].
  cbn [collectSigners].
  assert (Hfind :
    List.find (fun kp => String.eqb (publicKey kp) key)
      (List.filter (fun kp => existsb (String.eqb (publicKey kp)) accountKeys) kps)
    = List.find (fun kp => String.eqb (publicKey kp) key) kps).
  { clear IH. induction kps as [| k kps IHk]; [reflexivity |].
    cbn [List.filter List.find].
    destruct (existsb (String.eqb (publicKey k)) accountKeys) eqn:Hrel.
    - cbn [List.find]. destruct (String.eqb (publicKey k) key); [reflexivity | exact IHk].
    - destruct (String.eqb_spec (publicKey k) key) as [Heq | _]; [| exact IHk].
      exfalso.
      assert (Hex : existsb (String.eqb (publicKey k)) accountKeys = true).
      { apply existsb_exists. exists key. split; [apply Hsub; now left |].
        now apply String.eqb_eq. }
      congruence. }
  rewrite Hfind.
  assert (Hrest : forall k, In k keys -> In k accountKeys)
    by (intros k Hk; apply Hsub; now right).
  destruct (List.find _ kps) as [kp |]; [destruct (negb (includes kp signers)) |];
    now apply IH.
Qed.

(** X11: keypairs whose public key is not among the account keys of a
    transaction do not change who signs it, wherever they stand among the
    held keypairs: the signers are those found among the held keypairs whose
    key the transaction names, so holding more wallets than the transaction
    needs, before, between or after the needed ones, gives the same
    signers. *)
Theorem X11_unrelated_keypairs_do_not_sign transaction held :
  requiredSigners transaction
    (List.filter
       (fun kp => existsb (String.eqb (publicKey kp)) (staticAccountKeys transaction))
       held)
  = requiredSigners transaction held
  /\ (forall before others after,
        (forall kp, In kp others ->
                    ~ In (publicKey kp) (staticAccountKeys transaction)) ->
        requiredSigners transaction (before ++ others ++ after)
        = requiredSigners transaction (before ++ after)).
Proof.
  assert (Hfilter : forall kps,
    requiredSigners transaction
      (List.filter
         (fun kp => existsb (String.eqb (publicKey kp)) (staticAccountKeys transaction))
         kps)
    = requiredSigners transaction kps).
  { intros kps. unfold requiredSigners. apply collectSigners_related. auto. }
  split; [apply Hfilter |].
  intros before others after Hother.
  rewrite <- (Hfilter (before ++ others ++ after)), <- (Hfilter (before ++ after)).
  rewrite !List.filter_app.
  assert (Hnone :
    List.filter
      (fun kp => existsb (String.eqb (publicKey kp)) (staticAccountKeys transaction))
      others = []).
  { clear - Hother. induction others as [| k others IH]; [reflexivity |].
    cbn [List.filter].
    destruct (existsb _ (staticAccountKeys transaction)) eqn:Hrel.
    - apply existsb_exists in Hrel as (key & Hin & Heq).
      apply String.eqb_eq in Heq. exfalso. apply (Hother k); [now left |].
      now rewrite Heq.
    - apply IH. intros kp Hin. apply Hother. now right. }
  rewrite Hnone. reflexivity.
Qed.

End WithLibrary.

(** X11 with a wallet the transaction does not name held before the one
    it names. *)
Lemma X11_unrelated_keypairs_do_not_sign_witness :
  requiredSigners (H := Fixture.toyLibrary) (["A"], [])
                  ([] ++ [Fixture.bob] ++ [Fixture.alice])
  = [Fixture.alice].
Proof.
  destruct (X11_unrelated_keypairs_do_not_sign (H := Fixture.toyLibrary)
              (["A"], []) [Fixture.bob; Fixture.alice]) as [_ Hanywhere].
  rewrite (Hanywhere [] [Fixture.bob] [Fixture.alice]).
  - reflexivity.
  - intros kp [<- | []] [Heq | []]. discriminate Heq.
Defined.

(** X8 on an answer in the [bundles] format with one plain array. *)
Lemma X8_unwrapAnswer_normalises_witness :
  Forall (fun bundle => isArray bundle = false)
         [Fixture.goodBundle; VObject [("transactions", VArray [VString "B"])]].
Proof.
  apply (X8_unwrapAnswer_normalises (H := Fixture.toyLibrary)
           (VObject [("success", VBool true);
                     ("bundles", VArray [Fixture.goodBundle; VArray [VString "B"]])])).
  reflexivity.
Defined.

(** X10: [validateMoonBuyInputs] reports the first wallet, in list order,
    that fails: when the token address and the amount are fine and the
    wallets before it pass, a wallet with its data but a balance below the
    amount is named by the first six characters of its address, and a wallet
    without address or private key gives ['Invalid wallet data']; the
    wallets after it are not looked at. *)
Theorem X10_validateMoonBuyInputs_names_first_failure
    before wallet after tokenConfig (walletBalances : gmap string number) :
  tokenAddress tokenConfig <> "" ->
  isNaN (solAmount tokenConfig) = false ->
  le (solAmount tokenConfig) zero = false ->
  Forall (fun w => address w <> "" /\ privateKey w <> ""
                   /\ lt (balanceOf walletBalances (address w))
                         (solAmount tokenConfig) = false) before ->
  (address wallet = "" \/ privateKey wallet = "" ->
   validateMoonBuyInputs (before ++ wallet :: after) tokenConfig walletBalances
   = mkValidation false (Some "Invalid wallet data"))
  /\ (address wallet <> "" -> privateKey wallet <> "" ->
      lt (balanceOf walletBalances (address wallet)) (solAmount tokenConfig) = true ->
      validateMoonBuyInputs (before ++ wallet :: after) tokenConfig walletBalances
      = mkValidation false
          (Some ("Wallet " ++ String.substring 0 6 (address wallet)
                 ++ "... has insufficient balance")%string)).
Proof.
  intros Htoken Hnan Hpos Hbefore.
  assert (Htop : validateMoonBuyInputs (before ++ wallet :: after) tokenConfig walletBalances
                 = validateWallets (before ++ wallet :: after) tokenConfig walletBalances).
  { unfold validateMoonBuyInputs.
    destruct (String.eqb_spec (tokenAddress tokenConfig) ""); [contradiction |].
    rewrite Hnan, Hpos. cbn [orb].
    destruct before; reflexivity. }
  rewrite Htop. clear Htop.
  induction Hbefore as [| w before (Ha & Hk & Hb) _ IH].
  - cbn. split.
    + intros [-> | ->]; cbn; [reflexivity |]. now rewrite orb_true_r.
    + intros Ha Hk Hb.
      destruct (String.eqb_spec (address wallet) ""); [contradiction |].
      destruct (String.eqb_spec (privateKey wallet) ""); [contradiction |].
      cbn. rewrite Hb. reflexivity.
  - cbn [app validateWallets].
    destruct (String.eqb_spec (address w) ""); [contradiction |].
    destruct (String.eqb_spec (privateKey w) ""); [contradiction |].
    cbn [orb]. rewrite Hb. exact IH.
Qed.

(** X10 with a funded wallet followed by an unfunded one. *)
Lemma X10_validateMoonBuyInputs_names_first_failure_witness :
  validateMoonBuyInputs
    ([mkWalletMoonBuy "Funded1" "k1"] ++ mkWalletMoonBuy "Pauper22" "k2" :: [])
    (mkTokenConfig "T" one) {[ "Funded1" := one ]}
  = mkValidation false (Some "Wallet Pauper... has insufficient balance").
Proof.
  assert (Hbefore :
    Forall (fun w => address w <> "" /\ privateKey w <> ""
                     /\ lt (balanceOf {[ "Funded1" := one ]} (address w))
                           (solAmount (mkTokenConfig "T" one)) = false)
           [mkWalletMoonBuy "Funded1" "k1"]).
  { repeat constructor; discriminate. }
  assert (Hpoor :
    lt (balanceOf {[ "Funded1" := one ]} (address (mkWalletMoonBuy "Pauper22" "k2")))
       (solAmount (mkTokenConfig "T" one)) = true).
  { cbn. unfold balanceOf. rewrite lookup_singleton_ne by discriminate. reflexivity. }
  apply (proj2 (X10_validateMoonBuyInputs_names_first_failure
                  [mkWalletMoonBuy "Funded1" "k1"] (mkWalletMoonBuy "Pauper22" "k2") []
                  (mkTokenConfig "T" one) {[ "Funded1" := one ]}
                  ltac:(discriminate) eq_refl eq_refl Hbefore));
    [discriminate | discriminate | exact Hpoor].
Defined.

End MoonBuyMoreFacts.

(** ** The wallet store: imports *)

Module AppImportFacts.

Import App AppFacts.

(** X12: [handleImportWallet] leaves the wallet list as it is or appends
    one wallet whose address no held wallet has; the wallets held stay, in
    their order, and a list with pairwise distinct addresses keeps pairwise
    distinct addresses. *)
Theorem X12_handleImportWallet_keeps_addresses_distinct chain (s : State) :
  List.NoDup (map address (wallets s)) ->
  List.NoDup (map address (wallets (handleImportWallet chain s)))
  /\ (wallets (handleImportWallet chain s) = wallets s
      \/ exists w, wallets (handleImportWallet chain s) = wallets s ++ [w]
                   /\ ~ In (address w) (map address (wallets s))).
Proof.
  intros Hnd.
  destruct (handleImportWallet_wallets chain s) as [Heq | (w & Heq & Hnew)].
  - rewrite Heq. split; [assumption | now left].
  - rewrite Heq. split; [now apply distinct_snoc |].
    right. exists w. split; [reflexivity |].
    rewrite <- exists_address_spec. congruence.
Qed.

(** X12 on the import of a first key, and of the same key again. *)
Lemma X12_handleImportWallet_keeps_addresses_distinct_witness :
  map address (wallets (handleImportWallet Fixture.toyChain Sample.typedK)) = ["K"]
  /\ List.NoDup
       (map address
            (wallets (handleImportWallet Fixture.toyChain
                        (setImportKey "K"
                           (handleImportWallet Fixture.toyChain Sample.typedK))))).
Proof.
  split; [reflexivity |].
  apply X12_handleImportWallet_keeps_addresses_distinct.
  apply X12_handleImportWallet_keeps_addresses_distinct.
  constructor.
Defined.

(** The loop of the file import, from any point: what it adds and which
    balance entries it may touch. *)
Lemma importLoop_adds chain held token : forall foundKeys k imported sol tok,
  exists added,
    fst (fst (importLoop chain held token foundKeys k imported sol tok))
    = imported ++ added
    /\ (length added <= length foundKeys)%nat
    /\ (forall w, In w added -> exists_address held (address w) = false)
    /\ (forall a, ~ In a (map address added) ->
          snd (fst (importLoop chain held token foundKeys k imported sol tok)) !! a
          = sol !! a
          /\ snd (importLoop chain held token foundKeys k imported sol tok) !! a
             = tok !! a).
Proof.
  induction foundKeys as [| key rest IH]; intros k imported sol tok.
  - exists []. cbn. rewrite app_nil_r. repeat split; try lia; try (intros w []).
  - (* an iteration that adds nothing *)
    assert (Hskip :
      exists added,
        fst (fst (importLoop chain held token rest (S k) imported sol tok))
        = imported ++ added
        /\ (length added <= length (key :: rest))%nat
        /\ (forall w, In w added -> exists_address held (address w) = false)
        /\ (forall a, ~ In a (map address added) ->
              snd (fst (importLoop chain held token rest (S k) imported sol tok)) !! a
              = sol !! a
              /\ snd (importLoop chain held token rest (S k) imported sol tok) !! a
                 = tok !! a)).
    { destruct (IH (S k) imported sol tok) as (added & H1 & H2 & H3 & H4).
      exists added. cbn [length]. repeat split; auto; try lia; apply H4; assumption. }
    cbn [importLoop].
    destruct (importWallet chain k key) as [r | e]; [| exact Hskip].
    destruct (hasError (error r)); [exact Hskip |].
    destruct (wallet r) as [x |]; [| exact Hskip].
    destruct (exists_address held (address x)) eqn:Hnew; [exact Hskip |].
    clear Hskip.
    (* the wallet is added; its balances are set as far as they are fetched *)
    assert (Hadd : forall sol' tok',
      (forall a, a <> address x -> sol' !! a = sol !! a /\ tok' !! a = tok !! a) ->
      exists added,
        fst (fst (importLoop chain held token rest (S k) (imported ++ [x]) sol' tok'))
        = imported ++ added
        /\ (length added <= length (key :: rest))%nat
        /\ (forall w, In w added -> exists_address held (address w) = false)
        /\ (forall a, ~ In a (map address added) ->
              snd (fst (importLoop chain held token rest (S k)
                                   (imported ++ [x]) sol' tok')) !! a = sol !! a
              /\ snd (importLoop chain held token rest (S k)
                                 (imported ++ [x]) sol' tok') !! a = tok !! a)).
    { intros sol' tok' Hframe.
      destruct (IH (S k) (imported ++ [x]) sol' tok') as (added & H1 & H2 & H3 & H4).
      exists (x :: added). rewrite H1, <- app_assoc. cbn [length map].
      split; [reflexivity |]. split; [lia |]. split.
      - intros w [<- | Hin]; auto.
      - intros a Ha.
        assert (Hne : a <> address x) by (intros ->; apply Ha; now left).
        assert (Hrest : ~ In a (map address added))
          by (intros Hin; apply Ha; now right).
        destruct (H4 a Hrest) as [Hs Ht]. destruct (Hframe a Hne) as [Hs' Ht'].
        split; congruence. }
    destruct (fetchSolBalance chain (address x)) as [solBalance | e].
    + destruct (if negb (String.eqb token "") then _ else _) as [tokenBalance | e].
      * apply Hadd. intros a Hne.
        rewrite !lookup_insert_ne by congruence. auto.
      * apply Hadd. intros a Hne.
        rewrite !lookup_insert_ne by congruence. auto.
    + apply Hadd. auto.
Qed.

(** X13: the file import keeps every held wallet, in order, and appends
    at most one wallet per key found; the address of each appended wallet is
    the address of no wallet held before; balance entries change only for
    the addresses of appended wallets. *)
Theorem X13_handleFileUpload_appends_new_addresses chain foundKeys (s : State) :
  let s' := handleFileUpload chain foundKeys s in
  exists added,
    wallets s' = wallets s ++ added
    /\ (length added <= length foundKeys)%nat
    /\ (forall w, In w added -> ~ In (address w) (map address (wallets s)))
    /\ (forall a, ~ In a (map address added) ->
          solBalances s' !! a = solBalances s !! a
          /\ tokenBalances s' !! a = tokenBalances s !! a).
Proof.
  cbn zeta. unfold handleFileUpload.
  assert (Hnone : forall s0 : State,
    wallets s0 = wallets s -> solBalances s0 = solBalances s ->
    tokenBalances s0 = tokenBalances s ->
    exists added,
      wallets s0 = wallets s ++ added
      /\ (length added <= length foundKeys)%nat
      /\ (forall w, In w added -> ~ In (address w) (map address (wallets s)))
      /\ (forall a, ~ In a (map address added) ->
            solBalances s0 !! a = solBalances s !! a
            /\ tokenBalances s0 !! a = tokenBalances s !! a)).
  { intros s0 Hw Hs Ht. exists []. rewrite app_nil_r, Hw, Hs, Ht.
    repeat split; cbn; try lia; try (intros w []). }
  destruct (connection s); cbn [negb]; [| now apply Hnone].
  destruct (Nat.eqb (length foundKeys) 0); [now apply Hnone |].
  unfold importWalletsSequentially.
  cbn [wallets tokenAddress imports solBalances tokenBalances setImportError].
  destruct (importLoop_adds chain (wallets s) (tokenAddress s) foundKeys (imports s)
              [] (solBalances s) (tokenBalances s))
    as (added & Himp & Hlen & Hnew & Hframe).
  destruct (importLoop chain (wallets s) (tokenAddress s) foundKeys (imports s)
              [] (solBalances s) (tokenBalances s))
    as [[importedWallets newSol] newTok].
  cbn [fst snd app] in Himp, Hframe. subst importedWallets.
  assert (Hshape :
    forall s0 : State,
      wallets s0 = wallets s ++ added -> solBalances s0 = newSol ->
      tokenBalances s0 = newTok ->
      exists added0,
        wallets s0 = wallets s ++ added0
        /\ (length added0 <= length foundKeys)%nat
        /\ (forall w, In w added0 -> ~ In (address w) (map address (wallets s)))
        /\ (forall a, ~ In a (map address added0) ->
              solBalances s0 !! a = solBalances s !! a
              /\ tokenBalances s0 !! a = tokenBalances s !! a)).
  { intros s0 Hw Hs Ht. exists added. rewrite Hw, Hs, Ht.
    repeat split; auto; try (apply Hframe; assumption).
    intros w Hin. rewrite <- exists_address_spec. rewrite (Hnew w Hin). discriminate. }
  destruct added as [| x added].
  - cbn [length Nat.eqb]. apply Hshape; cbn; [now rewrite app_nil_r | reflexivity ..].
  - cbn [length Nat.eqb]. apply Hshape; reflexivity.
Qed.

(** X14: when the wallet of the key is new but its SOL balance cannot be
    fetched, [handleImportWallet] reports ['Failed to import wallet'] and
    yet the wallet has been added to the list; no balance entry is written
    and the import field keeps its text. *)
Theorem X14_handleImportWallet_adds_then_reports_failure chain (s : State) w err e :
  connection s = true ->
  trim chain (importKey s) <> "" ->
  importWallet chain (imports s) (trim chain (importKey s))
  = Ok (mkImported (Some w) err) ->
  hasError err = false ->
  ~ In (address w) (map address (wallets s)) ->
  fetchSolBalance chain (address w) = Throw e ->
  let s' := handleImportWallet chain s in
  wallets s' = wallets s ++ [w]
  /\ importError s' = Some "Failed to import wallet"
  /\ (solBalances s', tokenBalances s', importKey s', isImporting s')
     = (solBalances s, tokenBalances s, importKey s, isImporting s).
Proof.
  intros Hconn Hkey Himp Herr Hnew Hfetch. cbn zeta.
  unfold handleImportWallet. rewrite Hconn. cbn [negb orb].
  destruct (String.eqb_spec (trim chain (importKey s)) ""); [contradiction |].
  rewrite Himp. cbn [error wallet]. rewrite Herr.
  cbn [wallets countImport].
  destruct (exists_address (wallets s) (address w)) eqn:Hex.
  { apply exists_address_spec in Hex. contradiction. }
  rewrite Hfetch. repeat split.
Qed.

(** X14 on a chain whose balance requests fail. *)
Lemma X14_handleImportWallet_adds_then_reports_failure_witness :
  wallets (handleImportWallet Sample.offlineChain Sample.typedK)
  = [mkWallet 0 "K" "K"]
  /\ importError (handleImportWallet Sample.offlineChain Sample.typedK)
     = Some "Failed to import wallet".
Proof.
  destruct (X14_handleImportWallet_adds_then_reports_failure
              Sample.offlineChain Sample.typedK (mkWallet 0 "K" "K") None
              (mkError "failed to get balance")
              eq_refl ltac:(discriminate) eq_refl eq_refl ltac:(intros [])
              eq_refl)
    as (Hw & Herr & _).
  split; assumption.
Defined.

(** X15: an import that goes through followed by the deletion of the
    imported wallet gives back both balance maps: when the wallet is new,
    no held wallet has its id and the maps held no entry for its address,
    [handleDeleteWallet] after [handleImportWallet] leaves [solBalances] and
    [tokenBalances] as they were before the import. *)
Theorem X15_import_then_delete_restores_balances
    chain (s : State) w err solBalance tokenBalance :
  connection s = true ->
  trim chain (importKey s) <> "" ->
  importWallet chain (imports s) (trim chain (importKey s))
  = Ok (mkImported (Some w) err) ->
  hasError err = false ->
  ~ In (address w) (map address (wallets s)) ->
  fetchSolBalance chain (address w) = Ok solBalance ->
  (if negb (String.eqb (tokenAddress s) "")
   then fetchTokenBalance chain (address w) (tokenAddress s)
   else Ok zero) = Ok tokenBalance ->
  (forall held, In held (wallets s) -> id held <> id w) ->
  solBalances s !! address w = None ->
  tokenBalances s !! address w = None ->
  let imported := handleImportWallet chain s in
  wallets imported = wallets s ++ [w]
  /\ solBalances imported !! address w = Some solBalance
  /\ tokenBalances imported !! address w = Some tokenBalance
  /\ (importKey imported, importError imported, isImporting imported)
     = ("", None, false)
  /\ solBalances (handleDeleteWallet (id w) imported) = solBalances s
  /\ tokenBalances (handleDeleteWallet (id w) imported) = tokenBalances s.
Proof.
  intros Hconn Hkey Himp Herr Hnew Hsol Htok Hid Hnosol Hnotok. cbn zeta.
  assert (Hrun : handleImportWallet chain s
    = mkState (wallets s ++ [w]) (<[address w := solBalance]> (solBalances s))
              (<[address w := tokenBalance]> (tokenBalances s))
              (connection s) (tokenAddress s) "" None false (S (imports s))).
  { unfold handleImportWallet. rewrite Hconn. cbn [negb orb].
    destruct (String.eqb_spec (trim chain (importKey s)) ""); [contradiction |].
    rewrite Himp. cbn [error wallet]. rewrite Herr.
    cbn [wallets countImport].
    destruct (exists_address (wallets s) (address w)) eqn:Hex.
    { apply exists_address_spec in Hex. contradiction. }
    rewrite Hsol. cbn [tokenAddress setSolBalances setWallets countImport].
    rewrite Htok. destruct s. cbn in Hconn |- *. now rewrite Hconn. }
  rewrite Hrun. cbn [wallets solBalances tokenBalances importKey importError isImporting].
  split; [reflexivity |]. split; [apply lookup_insert_eq |].
  split; [apply lookup_insert_eq |]. split; [reflexivity |].
  unfold handleDeleteWallet. cbn [wallets].
  assert (Hfind : List.find (fun x => id x =? id w) (wallets s ++ [w]) = Some w).
  { clear - Hid. induction (wallets s) as [| x l IH]; cbn.
    - now rewrite Z.eqb_refl.
    - destruct (Z.eqb_spec (id x) (id w)) as [Heq | _].
      + exfalso. apply (Hid x); [now left | assumption].
      + apply IH. intros held Hin. apply Hid. now right. }
  rewrite Hfind. cbn.
  split; apply delete_insert_id; assumption.
Qed.

(** X15 on the first import into an empty store. *)
Lemma X15_import_then_delete_restores_balances_witness :
  solBalances (handleDeleteWallet 0 (handleImportWallet Fixture.toyChain Sample.typedK))
  = ∅
  /\ solBalances (handleImportWallet Fixture.toyChain Sample.typedK) !! "K" = Some one.
Proof.
  destruct (X15_import_then_delete_restores_balances
              Fixture.toyChain Sample.typedK (mkWallet 0 "K" "K") None one zero
              eq_refl ltac:(discriminate) eq_refl eq_refl ltac:(intros [])
              eq_refl eq_refl ltac:(intros held []) eq_refl eq_refl)
    as (_ & Hsol & _ & _ & Hback & _).
  split; assumption.
Defined.

End AppImportFacts.

(** ** The distribute modal *)

Module DistributeFacts.

Import Distribute.

Lemma includes_recipient a l : includes a l = true <-> In a l.
Proof.
  unfold includes. rewrite existsb_exists. split.
  - intros (x & Hin & Heq). apply String.eqb_eq in Heq. now subst.
  - intros Hin. exists a. split; [assumption | apply String.eqb_refl].
Qed.

Lemma not_includes a l : includes a l = false <-> ~ In a l.
Proof.
  rewrite <- includes_recipient. destruct (includes a l); split; congruence.
Qed.

Lemma updateWalletAmounts_selection m :
  selectedSenderWallet (updateWalletAmounts m) = selectedSenderWallet m
  /\ selectedRecipientWallets (updateWalletAmounts m) = selectedRecipientWallets m.
Proof. unfold updateWalletAmounts. destruct (useCustomAmounts m); split; reflexivity. Qed.

Lemma updateWalletAmounts_addresses m :
  map address (walletAmounts (updateWalletAmounts m)) = selectedRecipientWallets m.
Proof.
  unfold updateWalletAmounts.
  destruct (useCustomAmounts m); cbn [walletAmounts setWalletAmounts];
    rewrite List.map_map; cbn [address]; apply List.map_id.
Qed.

(** The [Map] built from entries made of a list of addresses. *)
Lemma fold_amounts_of_selection (g : string -> string) a :
  forall sel (acc : gmap string string),
  fold_left (fun acc w => <[address w := amount w]> acc)
            (map (fun x => mkWalletAmount x (g x)) sel) acc !! a
  = if includes a sel then Some (g a) else acc !! a.
Proof.
  induction sel as [| x sel IH]; intros acc; [reflexivity |].
  cbn [map fold_left address amount]. rewrite IH.
  unfold includes. cbn [existsb]. fold (includes a sel).
  destruct (includes a sel); [now rewrite orb_true_r |].
  rewrite orb_false_r.
  destruct (String.eqb_spec a x) as [-> | Hne].
  - apply lookup_insert_eq.
  - apply lookup_insert_ne. congruence.
Qed.

(** The [Map] built from entries with pairwise distinct addresses. *)
Lemma fold_amounts_distinct a : forall l (acc : gmap string string),
  List.NoDup (map address l) ->
  fold_left (fun acc w => <[address w := amount w]> acc) l acc !! a
  = match List.find (fun w => String.eqb (address w) a) l with
    | Some w => Some (amount w)
    | None => acc !! a
    end.
Proof.
  induction l as [| w l IH]; intros acc Hnd; [reflexivity |].
  inversion Hnd as [| ? ? Hnotin Hnd']; subst.
  cbn [fold_left List.find]. rewrite IH by assumption.
  destruct (String.eqb_spec (address w) a) as [<- | Hne].
  - destruct (List.find _ l) as [w' |] eqn:Hfind.
    + apply List.find_some in Hfind as [Hin Heq].
      apply String.eqb_eq in Heq. exfalso. apply Hnotin.
      rewrite <- Heq. now apply List.in_map.
    + apply lookup_insert_eq.
  - destruct (List.find _ l); [reflexivity |].
    now apply lookup_insert_ne.
Qed.

Lemma find_of_selection (g : string -> string) a : forall sel,
  In a sel ->
  List.find (fun w => String.eqb (address w) a)
            (map (fun x => mkWalletAmount x (g x)) sel)
  = Some (mkWalletAmount a (g a)).
Proof.
  induction sel as [| x sel IH]; intros Hin; [destruct Hin |].
  cbn [map List.find address].
  destruct (String.eqb_spec x a) as [-> | Hne]; [reflexivity |].
  destruct Hin as [Heq | Hin]; [contradiction | now apply IH].
Qed.

Lemma keptAmount_again existing common a :
  (if String.eqb (keptAmount existing common a) "" then common
   else keptAmount existing common a)
  = keptAmount existing common a.
Proof.
  unfold keptAmount. destruct (existing !! a) as [v |].
  - destruct (String.eqb_spec v "") as [-> | Hne].
    + now destruct (String.eqb_spec common "").
    + destruct (String.eqb_spec v ""); [contradiction | reflexivity].
  - now destruct (String.eqb_spec common "").
Qed.

(** X16: on the first page of the distribute modal the sender is never
    one of the recipients: from a modal where it is not, no sequence of
    picking a sender, toggling recipients, selecting all, typing amounts,
    switching the amount mode or reopening leads to one where it is. *)
Theorem X16_sender_is_never_a_recipient wallets solBalances (m0 m : Modal) :
  ~ In (selectedSenderWallet m0) (selectedRecipientWallets m0) ->
  reachable wallets solBalances m0 m ->
  ~ In (selectedSenderWallet m) (selectedRecipientWallets m).
Proof.
  intros Hstart Hreach. induction Hreach as [| m m' _ IH Hact]; [assumption |].
  destruct Hact as [m wallet Hin | m wallet Hin | m | m value _ | m | m a value | m | m].
  - cbn [selectedSenderWallet selectedRecipientWallets setSelectedSenderWallet].
    apply List.filter_In in Hin as [_ Hok].
    apply andb_true_iff in Hok as [Hout _].
    apply negb_true_iff in Hout. now apply not_includes.
  - destruct (updateWalletAmounts_selection
                (toggleRecipientWalletSelection (App.address wallet) m)) as [-> ->].
    cbn [selectedSenderWallet selectedRecipientWallets toggleRecipientWalletSelection
         setSelectedRecipientWallets].
    apply List.filter_In in Hin as [_ Hok].
    apply negb_true_iff in Hok.
    destruct (includes (App.address wallet) (selectedRecipientWallets m)).
    + intros Hin. apply List.filter_In in Hin as [Hin _]. now apply IH.
    + intros Hin. apply List.in_app_iff in Hin as [Hin | [Heq | []]]; [now apply IH |].
      rewrite Heq, String.eqb_refl in Hok. discriminate.
  - destruct (updateWalletAmounts_selection (handleSelectAllRecipients wallets m))
      as [-> ->].
    unfold handleSelectAllRecipients.
    destruct (Nat.eqb _ _);
      cbn [selectedSenderWallet selectedRecipientWallets setSelectedRecipientWallets];
      [intros [] |].
    intros Hin. apply List.in_map_iff in Hin as (wallet & Heq & Hin).
    apply List.filter_In in Hin as [_ Hok].
    rewrite Heq, String.eqb_refl in Hok. discriminate.
  - now destruct (updateWalletAmounts_selection (setCommonAmount value m)) as [-> ->].
  - now destruct (updateWalletAmounts_selection
                    (setUseCustomAmounts (negb (useCustomAmounts m)) m)) as [-> ->].
  - unfold handleWalletAmountChange. now destruct (_ || _).
  - assumption.
  - destruct (updateWalletAmounts_selection (resetForm m)) as [-> ->].
    intros [].
Qed.

(** X16 after a sender and then a recipient were chosen among two wallets. *)
Lemma X16_sender_is_never_a_recipient_witness :
  ~ In "A" ["B"].
Proof.
  apply (X16_sender_is_never_a_recipient
           [Sample.walletA; Sample.walletB]
           (<["A" := one]> (<["B" := one]> ∅))
           Sample.opened
           (updateWalletAmounts
              (toggleRecipientWalletSelection "B"
                 (setSelectedSenderWallet "A" Sample.opened)))).
  - intros [].
  - eapply reachable_step.
    + eapply reachable_step; [apply reachable_start |].
      apply (pick_sender _ _ Sample.opened Sample.walletA). now left.
    + apply (toggle_recipient _ _ (setSelectedSenderWallet "A" Sample.opened)
                              Sample.walletB).
      now left.
Defined.

(** X17: the list of amounts follows the selection: from a modal whose
    [walletAmounts] lists the addresses of [selectedRecipientWallets] in the
    same order, every modal reached on the first page does too. *)
Theorem X17_walletAmounts_list_the_recipients wallets solBalances (m0 m : Modal) :
  map address (walletAmounts m0) = selectedRecipientWallets m0 ->
  reachable wallets solBalances m0 m ->
  map address (walletAmounts m) = selectedRecipientWallets m.
Proof.
  intros Hstart Hreach. induction Hreach as [| m m' _ IH Hact]; [assumption |].
  assert (Hupd : forall x,
    map address (walletAmounts (updateWalletAmounts x))
    = selectedRecipientWallets (updateWalletAmounts x)).
  { intros x. rewrite updateWalletAmounts_addresses.
    symmetry. apply updateWalletAmounts_selection. }
  destruct Hact as [m wallet Hin | m wallet Hin | m | m value _ | m | m a value | m | m];
    try apply Hupd.
  - exact IH.
  - unfold handleWalletAmountChange. destruct (_ || _); [| exact IH].
    cbn [walletAmounts selectedRecipientWallets setWalletAmounts].
    rewrite <- IH, List.map_map. apply List.map_ext. intros w.
    now destruct (String.eqb (address w) a).
  - cbn [applyCommonAmountToAll walletAmounts selectedRecipientWallets setWalletAmounts].
    rewrite <- IH, List.map_map. reflexivity.
Qed.

(** X17 after a recipient was chosen and its amount typed. *)
Lemma X17_walletAmounts_list_the_recipients_witness :
  map address
      (walletAmounts
         (handleWalletAmountChange "B" "0.5"
            (updateWalletAmounts (toggleRecipientWalletSelection "B" Sample.opened))))
  = ["B"].
Proof.
  apply (X17_walletAmounts_list_the_recipients
           [Sample.walletA; Sample.walletB] ∅ Sample.opened).
  - reflexivity.
  - eapply reachable_step.
    + eapply reachable_step; [apply reachable_start |].
      apply (toggle_recipient _ _ Sample.opened Sample.walletB). right. now left.
    + apply type_amount.
Defined.

(** X18: [updateWalletAmounts] rebuilds the list of amounts from the
    selection, one entry per selected address in order; with a common
    amount every entry carries it; and running it a second time changes
    nothing, so the two effects that call it agree. *)
Theorem X18_updateWalletAmounts_is_idempotent (m : Modal) :
  map address (walletAmounts (updateWalletAmounts m)) = selectedRecipientWallets m
  /\ (useCustomAmounts m = false ->
      Forall (fun w => amount w = commonAmount m)
             (walletAmounts (updateWalletAmounts m)))
  /\ updateWalletAmounts (updateWalletAmounts m) = updateWalletAmounts m.
Proof.
  split; [apply updateWalletAmounts_addresses |]. split.
  - intros Hcommon. unfold updateWalletAmounts. rewrite Hcommon.
    cbn [walletAmounts setWalletAmounts].
    apply List.Forall_forall. intros w Hin.
    apply List.in_map_iff in Hin as (a & <- & _). reflexivity.
  - destruct m as [step submitting confirmed sel sender common custom amounts
                    search senderSearch sortBy direction balance].
    unfold updateWalletAmounts.
    cbn [useCustomAmounts walletAmounts commonAmount selectedRecipientWallets].
    destruct custom; unfold setWalletAmounts;
      cbn [currentStep isSubmitting isConfirmed selectedRecipientWallets
           selectedSenderWallet commonAmount useCustomAmounts walletAmounts searchTerm
           senderSearchTerm sortOption sortDirection balanceFilter];
      [| reflexivity].
    f_equal. apply List.map_ext_in. intros a Hin. f_equal.
    unfold keptAmount at 1. unfold existingAmounts at 1.
    rewrite fold_amounts_of_selection.
    rewrite (proj2 (includes_recipient a _) Hin).
    apply keptAmount_again.
Qed.

(** X19: with custom amounts, [updateWalletAmounts] keeps what was typed:
    when the listed addresses are pairwise distinct, a selected recipient
    that had a non-empty amount keeps it, and a recipient that had none, or
    an empty one, gets the common amount. *)
Theorem X19_updateWalletAmounts_keeps_typed_amounts (m : Modal) a :
  useCustomAmounts m = true ->
  List.NoDup (map address (walletAmounts m)) ->
  In a (selectedRecipientWallets m) ->
  getWalletAmount (updateWalletAmounts m) a
  = if String.eqb (getWalletAmount m a) "" then commonAmount m
    else getWalletAmount m a.
Proof.
  intros Hmode Hnd Hin. unfold updateWalletAmounts. rewrite Hmode.
  unfold getWalletAmount at 1. cbn [walletAmounts setWalletAmounts].
  rewrite find_of_selection by assumption. cbn [amount].
  unfold keptAmount, existingAmounts. rewrite fold_amounts_distinct by assumption.
  unfold getWalletAmount.
  destruct (List.find _ (walletAmounts m)) as [w |]; reflexivity.
Qed.

(** X19 on a kept, an emptied and a new recipient. *)
Lemma X19_updateWalletAmounts_keeps_typed_amounts_witness :
  getWalletAmount (updateWalletAmounts Sample.customAmounts) "A" = "0.5"
  /\ getWalletAmount (updateWalletAmounts Sample.customAmounts) "B" = "0.1"
  /\ getWalletAmount (updateWalletAmounts Sample.customAmounts) "C" = "0.1".
Proof.
  assert (Hnd : List.NoDup ["A"; "B"]).
  { repeat constructor; cbn; intuition discriminate. }
  split; [| split].
  - apply (X19_updateWalletAmounts_keeps_typed_amounts
             Sample.customAmounts "A" eq_refl Hnd).
    now left.
  - apply (X19_updateWalletAmounts_keeps_typed_amounts
             Sample.customAmounts "B" eq_refl Hnd).
    right. now left.
  - apply (X19_updateWalletAmounts_keeps_typed_amounts
             Sample.customAmounts "C" eq_refl Hnd).
    right. right. now left.
Defined.

End DistributeFacts.

Module DistributeAmountFacts.

Import Distribute.

Lemma find_after_change a value b : forall l,
  List.find (fun w => String.eqb (address w) b)
            (map (fun wallet =>
                    if String.eqb (address wallet) a
                    then mkWalletAmount (address wallet) value
                    else wallet) l)
  = match List.find (fun w => String.eqb (address w) b) l with
    | Some w => Some (if String.eqb b a then mkWalletAmount b value else w)
    | None => None
    end.
Proof.
  induction l as [| w l IH]; [reflexivity |].
  cbn [map List.find].
  destruct (String.eqb_spec (address w) a) as [Ha | Ha]; cbn [address].
  - destruct (String.eqb_spec (address w) b) as [Hb | Hb]; [| exact IH].
    rewrite <- Hb, Ha, String.eqb_refl. reflexivity.
  - destruct (String.eqb_spec (address w) b) as [Hb | Hb]; [| exact IH].
    destruct (String.eqb_spec b a) as [Hba | _]; [congruence | reflexivity].
Qed.

(** X20: typing into the amount field of one recipient of the distribute
    modal sets the amount shown for that address, when it is listed, and for
    no other address; a value that is neither empty nor digits with at most
    one dot leaves the modal as it is. *)
Theorem X20_distribute_amount_change_is_local (m : Modal) a value b :
  ((String.eqb value "" || CustomBuyForm.amountPattern value) = true ->
   getWalletAmount (handleWalletAmountChange a value m) b
   = if String.eqb b a && includes b (map address (walletAmounts m))
     then value else getWalletAmount m b)
  /\ ((String.eqb value "" || CustomBuyForm.amountPattern value) = false ->
      handleWalletAmountChange a value m = m).
Proof.
  unfold handleWalletAmountChange. split; intros ->; [| reflexivity].
  unfold getWalletAmount. cbn [walletAmounts setWalletAmounts].
  rewrite find_after_change.
  destruct (List.find _ (walletAmounts m)) as [w |] eqn:Hfind.
  - apply List.find_some in Hfind as [Hin Heq]. apply String.eqb_eq in Heq.
    destruct (String.eqb b a); [| reflexivity]. cbn [andb amount].
    assert (Hinc : includes b (map address (walletAmounts m)) = true).
    { apply DistributeFacts.includes_recipient. rewrite <- Heq. now apply List.in_map. }
    now rewrite Hinc.
  - destruct (String.eqb b a); [| reflexivity]. cbn [andb].
    destruct (includes b (map address (walletAmounts m))) eqn:Hinc; [| reflexivity].
    apply DistributeFacts.includes_recipient in Hinc.
    apply List.in_map_iff in Hinc as (w & Hw & Hin).
    apply (List.find_none _ _ Hfind) in Hin. rewrite Hw, String.eqb_refl in Hin.
    discriminate.
Qed.

End DistributeAmountFacts.

(** ** The custom-buy wizard: what the buttons guard *)

Module WizardGuardFacts.

Import CustomBuy.

Lemma handle_guard (s0 s : Wizard) c :
  (selectedWallets s = selectedWallets s0
   /\ walletAmounts s = walletAmounts s0
   /\ isConfirmed s = isConfirmed s0)
  /\ 0 <= currentStep s <= 2
  /\ (1 <= currentStep s -> selectedWallets s0 <> [])
  /\ (currentStep s = 2 -> hasInvalidAmount (walletAmounts s0) = false) ->
  (selectedWallets (handle s c) = selectedWallets s0
   /\ walletAmounts (handle s c) = walletAmounts s0
   /\ isConfirmed (handle s c) = isConfirmed s0)
  /\ 0 <= currentStep (handle s c) <= 2
  /\ (1 <= currentStep (handle s c) -> selectedWallets s0 <> [])
  /\ (currentStep (handle s c) = 2 -> hasInvalidAmount (walletAmounts s0) = false).
Proof.
  intros ((Hsel & Ham & Hconf) & Hrange & Hone & Htwo).
  destruct c; cbn [handle].
  - unfold handleNext.
    destruct ((currentStep s =? 0) && Nat.eqb (length (selectedWallets s)) 0)
      eqn:Hfirst; [cbn; auto |].
    destruct ((currentStep s =? 1) && hasInvalidAmount (walletAmounts s))
      eqn:Hsecond; [cbn; auto |].
    cbn [setCurrentStep currentStep selectedWallets walletAmounts isConfirmed
         STEPS_CUSTOMBUY length].
    split; [auto |]. split; [lia |]. split.
    + intros _ Hnil. apply andb_false_iff in Hfirst as [Hstep | Hlen].
      * apply Z.eqb_neq in Hstep. apply Hone; [lia | assumption].
      * rewrite Hsel, Hnil in Hlen. discriminate.
    + intros Hstep. apply andb_false_iff in Hsecond as [Hnot1 | Hvalid].
      * apply Z.eqb_neq in Hnot1. apply Htwo. lia.
      * now rewrite <- Ham.
  - unfold handleBack.
    cbn [setCurrentStep currentStep selectedWallets walletAmounts isConfirmed].
    split; [auto |]. split; [lia |]. split.
    + intros Hstep. apply Hone. lia.
    + intros Hstep. lia.
Qed.

Lemma clicks_guard (s0 : Wizard) clicks : forall s,
  (selectedWallets s = selectedWallets s0
   /\ walletAmounts s = walletAmounts s0
   /\ isConfirmed s = isConfirmed s0)
  /\ 0 <= currentStep s <= 2
  /\ (1 <= currentStep s -> selectedWallets s0 <> [])
  /\ (currentStep s = 2 -> hasInvalidAmount (walletAmounts s0) = false) ->
  (selectedWallets (fold_left handle clicks s) = selectedWallets s0
   /\ walletAmounts (fold_left handle clicks s) = walletAmounts s0
   /\ isConfirmed (fold_left handle clicks s) = isConfirmed s0)
  /\ 0 <= currentStep (fold_left handle clicks s) <= 2
  /\ (1 <= currentStep (fold_left handle clicks s) -> selectedWallets s0 <> [])
  /\ (currentStep (fold_left handle clicks s) = 2 ->
      hasInvalidAmount (walletAmounts s0) = false).
Proof.
  induction clicks as [| c clicks IH]; intros s Hinv; [exact Hinv |].
  cbn [fold_left]. apply IH. now apply handle_guard.
Qed.

(** X21: the buttons of the custom-buy wizard guard its steps: starting
    at step 0, whatever sequence of Next and Back is clicked, the step stays
    within 0..2, a step past the first is reached only with a wallet
    selected, the review step only when no amount is empty or parses to a
    value <= 0, and the clicks change neither the selection, nor the
    amounts, nor the confirmation. *)
Theorem X21_wizard_buttons_guard_the_steps (s : Wizard) (clicks : list click) :
  currentStep s = 0 ->
  (selectedWallets (fold_left handle clicks s) = selectedWallets s
   /\ walletAmounts (fold_left handle clicks s) = walletAmounts s
   /\ isConfirmed (fold_left handle clicks s) = isConfirmed s)
  /\ 0 <= currentStep (fold_left handle clicks s) <= 2
  /\ (1 <= currentStep (fold_left handle clicks s) -> selectedWallets s <> [])
  /\ (currentStep (fold_left handle clicks s) = 2 ->
      hasInvalidAmount (walletAmounts s) = false).
Proof.
  intros Hstart. apply clicks_guard.
  rewrite Hstart. repeat split; lia.
Qed.

(** X21 on a wizard with no wallet selected: it never leaves step 0. *)
Lemma X21_wizard_buttons_guard_the_steps_witness :
  currentStep (fold_left handle [Next; Back; Next; Next]
                         (mkWizard 0 [] ∅ false [])) = 0.
Proof.
  destruct (X21_wizard_buttons_guard_the_steps
              (mkWizard 0 [] ∅ false []) [Next; Back; Next; Next] eq_refl)
    as (_ & Hrange & Hone & _).
  destruct (Z.eq_dec
              (currentStep (fold_left handle [Next; Back; Next; Next]
                                      (mkWizard 0 [] ∅ false []))) 0)
    as [Heq | Hne]; [exact Heq |].
  exfalso. apply Hone; [lia | reflexivity].
Defined.

End WizardGuardFacts.
